(** * BoltzTraP1 band-structure interpolation (amset.interpolate.boltztrap1)

    A shallow embedding of [BoltzTraP1Interpolater] and of
    [_get_energy_wrapper], with the properties of the interpolation
    engine proved over it.

    Conventions of the embedding.
    - A float64 is an ideal real number ([R]); rounding, signed zeros,
      infinities and NaN are outside the model.  Python and numpy
      integers are [Z].
    - A numpy array of fixed small shape is a tuple ([vec3], [mat3]); an
      array whose shape depends on the file is a list.
    - A Python exception is a value of [exn]; a function that can raise
      returns [result].
    - The text layer of the coefficient file is abstracted to tokens: a
      line is the list of its whitespace-separated tokens. *)

From Stdlib Require Import String Ascii DecimalString.
From Stdlib Require Import Reals Lra Lia ZArith Bool List.
From Stdlib Require Import Permutation Sorted.
Import ListNotations.

(** ** Exceptions and results *)

Inductive exn : Type :=
| ValueError (msg : string)
| IndexError (msg : string)
| KeyError (key : Z)
| RuntimeError (msg : string).

Definition result (A : Type) : Type := (exn + A)%type.

Definition ret {A : Type} (a : A) : result A := inr a.
Definition raise {A : Type} (e : exn) : result A := inl e.

Definition bind {A B : Type} (m : result A) (k : A -> result B) : result B :=
  match m with
  | inl e => inl e
  | inr a => k a
  end.

Declare Scope result_scope.
Delimit Scope result_scope with result.
Notation "x <- m ;; k" := (bind m (fun x => k))
  (at level 61, m at next level, right associativity) : result_scope.
Notation "' pat <- m ;; k" := (bind m (fun x => match x with pat => k end))
  (at level 61, pat pattern, m at next level, right associativity) : result_scope.
Open Scope result_scope.

(** [mapM f l] is [list(map(f, l))] for an [f] that can raise: the first
    exception, in list order, aborts the traversal. *)
Fixpoint mapM {A B : Type} (f : A -> result B) (l : list A) : result (list B) :=
  match l with
  | [] => ret []
  | a :: l' => b <- f a ;; bs <- mapM f l' ;; ret (b :: bs)
  end.

(** ** Python integers, ranges and indexing *)

(** [range(a, b)]. *)
Definition range (a b : Z) : list Z :=
  map (fun k => (a + Z.of_nat k)%Z) (seq 0 (Z.to_nat (b - a))).

(** [l[:n]] with Python's reading of a negative bound. *)
Definition slice_to {A : Type} (n : Z) (l : list A) : list A :=
  if (0 <=? n)%Z then firstn (Z.to_nat n) l
  else firstn (length l - Z.to_nat (- n)) l.

(** [a[i]] on the first axis of an array with rows [l]: a negative index
    counts from the end; out of bounds raises [IndexError]. *)
Definition getitem {A : Type} (l : list A) (i : Z) : result A :=
  let n := Z.of_nat (length l) in
  let j := if (i <? 0)%Z then (i + n)%Z else i in
  if ((0 <=? j) && (j <? n))%Z%bool then
    match nth_error l (Z.to_nat j) with
    | Some a => ret a
    | None => raise (IndexError "index out of bounds")
    end
  else raise (IndexError "index out of bounds").

(** [str(z)] for an integer. *)
Definition str_of_Z (z : Z) : string :=
  NilZero.string_of_int (Z.to_int z).


(** ** Small dense arrays *)

Definition vec3 : Type := (R * R * R)%type.
Definition mat3 : Type := (vec3 * vec3 * vec3)%type.
Definition imat3 : Type := ((Z * Z * Z) * (Z * Z * Z) * (Z * Z * Z))%type.

Section SmallArrays.
Local Open Scope R_scope.

Definition zero3 : vec3 := (0, 0, 0).
Definition zero33 : mat3 := (zero3, zero3, zero3).

Definition dot3 (a b : vec3) : R :=
  let '(a0, a1, a2) := a in
  let '(b0, b1, b2) := b in
  a0 * b0 + a1 * b1 + a2 * b2.

Definition scale3 (c : R) (a : vec3) : vec3 :=
  let '(a0, a1, a2) := a in (c * a0, c * a1, c * a2).

Definition add3 (a b : vec3) : vec3 :=
  let '(a0, a1, a2) := a in
  let '(b0, b1, b2) := b in
  (a0 + b0, a1 + b1, a2 + b2).

Definition map3 (f : R -> R) (a : vec3) : vec3 :=
  let '(a0, a1, a2) := a in (f a0, f a1, f a2).

Definition list3 (a : vec3) : list R :=
  let '(a0, a1, a2) := a in [a0; a1; a2].

Definition add33 (a b : mat3) : mat3 :=
  let '(a0, a1, a2) := a in
  let '(b0, b1, b2) := b in
  (add3 a0 b0, add3 a1 b1, add3 a2 b2).

Definition map33 (f : R -> R) (a : mat3) : mat3 :=
  let '(a0, a1, a2) := a in (map3 f a0, map3 f a1, map3 f a2).

Definition transpose33 (a : mat3) : mat3 :=
  let '((a00, a01, a02), (a10, a11, a12), (a20, a21, a22)) := a in
  ((a00, a10, a20), (a01, a11, a21), (a02, a12, a22)).

Definition itranspose33 (a : imat3) : imat3 :=
  let '((a00, a01, a02), (a10, a11, a12), (a20, a21, a22)) := a in
  ((a00, a10, a20), (a01, a11, a21), (a02, a12, a22)).

Definition list33 (a : mat3) : list (list R) :=
  let '(a0, a1, a2) := a in [list3 a0; list3 a1; list3 a2].

(** [m.dot(v)] for a 3x3 matrix and a 3-vector. *)
Definition matvec (m : mat3) (v : vec3) : vec3 :=
  let '(m0, m1, m2) := m in (dot3 m0 v, dot3 m1 v, dot3 m2 v).

(** [m.dot(v)] for an integer 3x3 matrix and a float 3-vector. *)
Definition imatvec (m : imat3) (v : vec3) : vec3 :=
  let '((a, b, c), (d, e, f), (g, h, i)) := m in
  matvec ((IZR a, IZR b, IZR c), (IZR d, IZR e, IZR f), (IZR g, IZR h, IZR i)) v.

(** [v.dot(m)] for a 3-vector and a 3x3 matrix: [out[c] = sum_r v[r] * m[r][c]]. *)
Definition vecmat (v : vec3) (m : mat3) : vec3 :=
  matvec (transpose33 m) v.

(** [np.linalg.norm(m)]: the Frobenius norm. *)
Definition norm33 (m : mat3) : R :=
  let '(m0, m1, m2) := m in sqrt (dot3 m0 m0 + dot3 m1 m1 + dot3 m2 m2).

(** Modelled from the spec: [amset.utils.general.outer], which the
    module imports from another module of the package.  The spec
    describes it as the 3x3 outer product of two 3-vectors. *)
Definition outer (a b : vec3) : mat3 :=
  let '(a0, a1, a2) := a in (scale3 a0 b, scale3 a1 b, scale3 a2 b).

(** Sum of a list of floats, [np.sum] along the listed axis. *)
Definition Rsum (l : list R) : R := fold_right Rplus 0 l.
Definition sum3 (l : list vec3) : vec3 := fold_right add3 zero3 l.
Definition sum33 (l : list mat3) : mat3 := fold_right add33 zero33 l.

End SmallArrays.

(** ** The coefficient file, as tokens *)

(** A whitespace-separated token: an integer literal, a literal with a
    fractional part or exponent, or any other text. *)
Inductive token : Type :=
| TInt (z : Z)
| TReal (r : R)
| TWord (s : string).

Definition line : Type := list token.
Definition file : Type := list line.

(** [f.readline()]: at the end of the file it returns the empty string,
    which has no tokens. *)
Definition readline (f : file) : line * file :=
  match f with
  | [] => ([], [])
  | l :: f' => (l, f')
  end.

(** [int(tok)]. *)
Definition int_of_token (t : token) : result Z :=
  match t with
  | TInt z => ret z
  | _ => raise (ValueError "invalid literal for int() with base 10")
  end.

Definition float_of_token (t : token) : option R :=
  match t with
  | TInt z => Some (IZR z)
  | TReal r => Some r
  | TWord _ => None
  end.

(** [np.fromstring(l, sep=' ')]: the floats of the longest prefix of
    tokens that read as numbers. *)
Fixpoint fromstring (l : line) : list R :=
  match l with
  | [] => []
  | t :: l' =>
      match float_of_token t with
      | Some r => r :: fromstring l'
      | None => []
      end
  end.

(** [np.fromstring(l, sep=' ', dtype=int)]. *)
Fixpoint fromstring_int (l : line) : list Z :=
  match l with
  | TInt z :: l' => z :: fromstring_int l'
  | _ => []
  end.

(** [x.astype('int')] on one float: truncation towards zero. *)
Definition astype_int (r : R) : Z :=
  if Rle_dec 0 r then Int_part r else (- Int_part (- r))%Z.

Definition reshape33 (l : list R) : result mat3 :=
  match l with
  | [a; b; c; d; e; f; g; h; i] => ret ((a, b, c), (d, e, f), (g, h, i))
  | _ => raise (ValueError "cannot reshape array into shape (3,3)")
  end.

Fixpoint chunks33 (n : nat) (l : list R) : list mat3 :=
  match n with
  | O => []
  | S n' =>
      match l with
      | a :: b :: c :: d :: e :: f :: g :: h :: i :: l' =>
          ((a, b, c), (d, e, f), (g, h, i)) :: chunks33 n' l'
      | _ => []
      end
  end.

(** [a.reshape((192, 3, 3))]. *)
Definition reshape_192_33 (l : list R) : result (list mat3) :=
  if (length l =? 1728)%nat then ret (chunks33 192 l)
  else raise (ValueError "cannot reshape array into shape (192,3,3)").

Definition astype_int33 (m : mat3) : imat3 :=
  let '((a, b, c), (d, e, f), (g, h, i)) := m in
  ((astype_int a, astype_int b, astype_int c),
   (astype_int d, astype_int e, astype_int f),
   (astype_int g, astype_int h, astype_int i)).

(** [np.zeros(n)] along one axis, with [x] the zero of the remaining
    axes. *)
Definition np_zeros {A : Type} (n : Z) (x : A) : result (list A) :=
  if (n <? 0)%Z then raise (ValueError "negative dimensions are not allowed")
  else ret (repeat x (Z.to_nat n)).

(** [a[i] = x] for an index already known to be in range; out of
    range the list is left as it is. *)
Fixpoint setitem {A : Type} (i : nat) (x : A) (l : list A) : list A :=
  match l, i with
  | [], _ => []
  | _ :: l', O => x :: l'
  | a :: l', S i' => a :: setitem i' x l'
  end.

(** The value assigned by [g_vectors[i] = np.fromstring(l, sep=' ')]:
    three floats fill the row, one float is broadcast, any other count
    cannot be broadcast into shape (3,). *)
Definition broadcast_row3 (v : list R) : result vec3 :=
  match v with
  | [x; y; z] => ret (x, y, z)
  | [x] => ret (x, x, x)
  | _ => raise (ValueError "could not broadcast input array into shape (3,)")
  end.

(** [l.pop(l.index(i))]. *)
Fixpoint pop_index (i : Z) (l : list Z) : list Z :=
  match l with
  | [] => []
  | j :: l' => if (j =? i)%Z then l' else j :: pop_index i l'
  end.

(** The variables the body of [for i, l in enumerate(f)] updates. *)
Record loop_state : Type := LoopState {
  ls_g_vectors : list vec3;
  ls_coefficients : list (list R);
  ls_iband : list Z;
  ls_min_band : Z;
  ls_max_band : Z
}.

(** [for i, l in enumerate(f): ...], from line index [i] on. *)
Fixpoint read_lines (num_g_vectors : Z) (i : Z) (f : list line)
    (st : loop_state) : result loop_state :=
  match f with
  | [] => ret st
  | l :: f' =>
      if (i <? num_g_vectors)%Z then
        v <- broadcast_row3 (fromstring l) ;;
        read_lines num_g_vectors (i + 1) f'
          (LoopState (setitem (Z.to_nat i) v (ls_g_vectors st))
             (ls_coefficients st) (ls_iband st)
             (ls_min_band st) (ls_max_band st))
      else if (i =? num_g_vectors)%Z then
        match fromstring_int l with
        | [lo; hi] =>
            read_lines num_g_vectors (i + 1) f'
              (LoopState (ls_g_vectors st) (ls_coefficients st)
                 (map (fun b => (num_g_vectors + (b - lo + 1))%Z)
                    (range lo (hi + 1)))
                 lo hi)
        | _ => raise (ValueError "wrong number of values to unpack")
        end
      else if existsb (Z.eqb i) (ls_iband st) then
        let iband' := pop_index i (ls_iband st) in
        let st' :=
          LoopState (ls_g_vectors st)
            (ls_coefficients st ++ [fromstring l]) iband'
            (ls_min_band st) (ls_max_band st) in
        if (length iband' =? 0)%nat then ret st'
        else read_lines num_g_vectors (i + 1) f' st'
      else read_lines num_g_vectors (i + 1) f' st
  end.

(** ** Star functions *)

Definition Rltb (x y : R) : bool := if Rlt_dec x y then true else false.
Definition Reqb (x y : R) : bool := if Req_dec_T x y then true else false.

(** Equality of two rows, bit for bit in numpy; here equality of the
    three reals. *)
Definition vec3_eqb (a b : vec3) : bool :=
  let '(a0, a1, a2) := a in
  let '(b0, b1, b2) := b in
  Reqb a0 b0 && Reqb a1 b1 && Reqb a2 b2.

(** The order in which [np.unique] sorts the rows.  numpy compares the
    raw bytes of a row; the embedding takes the lexicographic order of
    the components in its place.  Nothing proved below depends on which
    total order it is. *)
Definition vec3_ltb (a b : vec3) : bool :=
  let '(a0, a1, a2) := a in
  let '(b0, b1, b2) := b in
  Rltb a0 b0
  || (Reqb a0 b0 && (Rltb a1 b1 || (Reqb a1 b1 && Rltb a2 b2))).

Fixpoint insert_row (x : vec3) (l : list vec3) : list vec3 :=
  match l with
  | [] => [x]
  | y :: l' => if vec3_ltb y x then y :: insert_row x l' else x :: l
  end.

Definition sort_rows (l : list vec3) : list vec3 :=
  fold_right insert_row [] l.

(** The mask [ar[1:] != ar[:-1]] of [np.unique], applied to a sorted
    array: a row is kept when it differs from the row before it. *)
Fixpoint drop_repeats (prev : vec3) (l : list vec3) : list vec3 :=
  match l with
  | [] => []
  | y :: l' =>
      if vec3_eqb y prev then drop_repeats y l'
      else y :: drop_repeats y l'
  end.

(** [np.unique] on the rows of a (n, 3) array, through the void view. *)
Definition np_unique_rows (l : list vec3) : list vec3 :=
  match sort_rows l with
  | [] => []
  | x :: l' => x :: drop_repeats x l'
  end.

(** The closure [calculate_star_function], with the variables it
    captures as arguments. *)
Definition calculate_star_function (num_symmetries : Z)
    (sym_ops : list imat3) (g_vector : vec3) : result (Z * list vec3) :=
  let trial := map (fun m => imatvec m g_vector)
                 (slice_to num_symmetries sym_ops) in
  let stg := np_unique_rows trial in
  let nst := Z.of_nat (length stg) in
  pad <- np_zeros (num_symmetries - nst) zero3 ;;
  ret (nst, stg ++ pad).

(** [max(a)] for a Python iterable of integers. *)
Definition py_max (l : list Z) : result Z :=
  match l with
  | [] => raise (ValueError "max() arg is an empty sequence")
  | x :: l' => ret (fold_left Z.max l' x)
  end.

(** The row [star_vector_products_sq[nw]] after
    [for i in range(num_star_vectors[nw]): sq[nw, i] = outer(p[nw, i], p[nw, i])]
    on a row of [width] zero matrices. *)
Definition fill_products_sq (width : Z) (nst : Z) (products : list vec3)
    : list mat3 :=
  fold_left
    (fun row i =>
       let p := nth (Z.to_nat i) products zero3 in
       setitem (Z.to_nat i) (outer p p) row)
    (range 0 nst)
    (repeat zero33 (Z.to_nat width)).

Record BoltzTraP1Parameters : Type := Build_BoltzTraP1Parameters {
  num_symmetries : Z;
  coefficients : list (list R);
  min_band : Z;
  max_band : Z;
  allowed_ibands : list Z;
  num_star_vectors : list Z;
  star_vectors : list (list vec3);
  star_vector_products : list (list vec3);
  star_vector_products_sq : list (list mat3)
}.

(** [BoltzTraP1Interpolater._get_interpolation_parameters], on the
    contents of the coefficient file. *)
Definition _get_interpolation_parameters (coeff_file : file)
    : result BoltzTraP1Parameters :=
  let '(header, f) := readline coeff_file in
  '(num_g_vectors, num_symmetries) <-
     match header with
     | [_; g; s; _] =>
         g' <- int_of_token g ;; s' <- int_of_token s ;; ret (g', s')
     | _ => raise (ValueError "wrong number of values to unpack")
     end ;;
  let '(l, f) := readline f in
  cell_matrix <- reshape33 (firstn 9 (fromstring l)) ;;
  let '(l, f) := readline f in
  ops <- reshape_192_33 (firstn 1728 (fromstring l)) ;;
  let sym_ops := map (fun m => itranspose33 (astype_int33 m)) ops in
  g_vectors <- np_zeros num_g_vectors zero3 ;;
  st <- read_lines num_g_vectors 0 f (LoopState g_vectors [] [] 0 0) ;;
  let allowed := range (ls_min_band st) (ls_max_band st + 1) in
  _ <- np_zeros num_symmetries zero3 ;;
  stars <- mapM (calculate_star_function num_symmetries sym_ops)
             (ls_g_vectors st) ;;
  let nsts := map fst stars in
  let svs := map snd stars in
  let products := map (map (fun v => vecmat v cell_matrix)) svs in
  width <- py_max nsts ;;
  let products_sq :=
    map (fun '(nst, p) => fill_products_sq width nst p)
      (combine nsts products) in
  ret (Build_BoltzTraP1Parameters num_symmetries (ls_coefficients st)
         (ls_min_band st) (ls_max_band st) allowed nsts svs products
         products_sq).

(** ** The evaluator *)

(** The values imported from [amset.utils.constants].  That module is
    outside the modelled source, so the evaluator takes them as
    parameters. *)
Record Constants : Type := Build_Constants {
  Ry_to_eV : R;
  hbar : R;
  A_to_m : R;
  m_to_cm : R;
  m_e : R;
  e : R
}.

(** What [_get_interpolation_coefficients] hands to the evaluator: the
    1-D array of one band, or the 2-D array of several bands (one row
    per selected band). *)
Inductive coeff_block : Type :=
| Band (row : list R)
| Bands (rows : list (list R)).

(** The arrays the evaluator returns, by number of axes. *)
Inductive ndarray : Type :=
| Arr0 (x : R)
| Arr1 (v : list R)
| Arr2 (m : list (list R))
| Arr3 (t : list (list (list R))).

(** The global dictionary [_parameters], keyed by [id(self)]. *)
Definition registry : Type := list (Z * BoltzTraP1Parameters).

Fixpoint registry_get (_parameters : registry) (key : Z)
    : result BoltzTraP1Parameters :=
  match _parameters with
  | [] => raise (KeyError key)
  | (k, p) :: rest => if (k =? key)%Z then ret p else registry_get rest key
  end.

Section Evaluator.
Local Open Scope R_scope.

Variable consts : Constants.

(** numpy broadcasting of a binary operation along one axis: equal
    lengths pair up, a length-1 operand is repeated, anything else
    cannot be broadcast. *)
Definition broadcast2 {A B C : Type} (f : A -> B -> result C)
    (a : list A) (b : list B) : result (list C) :=
  if (length a =? length b)%nat then
    mapM (fun '(x, y) => f x y) (combine a b)
  else
    match a, b with
    | [x], _ => mapM (fun y => f x y) b
    | _, [y] => mapM (fun x => f x y) a
    | _, _ => raise (ValueError "operands could not be broadcast together")
    end.

(** [a.dot(b)] for two 1-D arrays of equal length. *)
Definition dotR (a b : list R) : R :=
  Rsum (map (fun '(x, y) => x * y) (combine a b)).

(** The columns of a 2-D array given by its rows. *)
Definition columns (m : list (list R)) : list (list R) :=
  match m with
  | [] => []
  | r :: _ => map (fun c => map (fun row => nth c row 0) m) (seq 0 (length r))
  end.

Definition shapes_not_aligned {A : Type} : result A :=
  raise (ValueError "shapes not aligned").

(** [arg = 2 * np.pi * parameters.star_vectors.dot(kpoint)]. *)
Definition phase_args (p : BoltzTraP1Parameters) (kpoint : vec3)
    : list (list R) :=
  map (map (fun v => 2 * PI * dot3 v kpoint)) (star_vectors p).

(** [spwre]: the symmetrized plane waves, one per G-vector. *)
Definition spwre_of (p : BoltzTraP1Parameters) (arg : list (list R))
    : result (list R) :=
  let cos_arg := map (map cos) arg in
  let pad := map (fun nst => IZR (num_symmetries p - nst)) (num_star_vectors p) in
  diff <- broadcast2 (fun s d => ret (s - d)) (map Rsum cos_arg) pad ;;
  broadcast2 (fun x nst => ret (x / IZR nst)) diff (num_star_vectors p).

(** [spwre.dot(coefficients)]. *)
Definition energy_dot (spwre : list R) (coefficients : coeff_block)
    : result ndarray :=
  match coefficients with
  | Band c =>
      if (length spwre =? length c)%nat then ret (Arr0 (dotR spwre c))
      else shapes_not_aligned
  | Bands m =>
      if (length spwre =? length m)%nat then
        ret (Arr1 (map (dotR spwre) (columns m)))
      else shapes_not_aligned
  end.

Definition nd_scale (a : ndarray) (c : R) : ndarray :=
  match a with
  | Arr0 x => Arr0 (x * c)
  | Arr1 v => Arr1 (map (fun x => x * c) v)
  | Arr2 m => Arr2 (map (map (fun x => x * c)) m)
  | Arr3 t => Arr3 (map (map (map (fun x => x * c))) t)
  end.

(** [dspwre]: the gradient of each symmetrized plane wave. *)
Definition dspwre_of (p : BoltzTraP1Parameters) (arg : list (list R))
    : result (list vec3) :=
  let sin_arg := map (map sin) arg in
  prod <- broadcast2
            (fun vs ss =>
               broadcast2 (fun v s => ret (map3 (fun x => x * s) v)) vs ss)
            (star_vector_products p) sin_arg ;;
  broadcast2 (fun v nst => ret (map3 (fun x => x / IZR nst) v))
    (map sum3 prod) (num_star_vectors p).

Definition fst3 (v : vec3) : R := let '(a, _, _) := v in a.
Definition snd3 (v : vec3) : R := let '(_, b, _) := v in b.
Definition thd3 (v : vec3) : R := let '(_, _, c) := v in c.

(** [np.dot(d.T, c)] for [d] of shape (G, 3) and a 1-D [c]. *)
Definition dotT3 (d : list vec3) (c : list R) : vec3 :=
  (dotR (map fst3 d) c, dotR (map snd3 d) c, dotR (map thd3 d) c).

(** The velocity of one band from its gradient in fractional
    coordinates. *)
Definition velocity_of (matrix : mat3) (d_energy : vec3) : vec3 :=
  let matrix_norm := map33 (fun x => x / norm33 matrix) matrix in
  map3 (fun x => Rabs x * A_to_m consts * m_to_cm consts * Ry_to_eV consts
                 / (hbar consts * 0.52917721067))
    (matvec matrix_norm d_energy).

(** The velocity entry of [to_return]; against a 2-D block [np.dot]
    works column by column and the result has shape (3, C). *)
Definition velocity_entry (dspwre : list vec3) (matrix : mat3)
    (coefficients : coeff_block) : result ndarray :=
  match coefficients with
  | Band c =>
      if (length dspwre =? length c)%nat then
        ret (Arr1 (list3 (velocity_of matrix (dotT3 dspwre c))))
      else shapes_not_aligned
  | Bands m =>
      if (length dspwre =? length m)%nat then
        let vs := map (fun c => velocity_of matrix (dotT3 dspwre c)) (columns m) in
        ret (Arr2 [map fst3 vs; map snd3 vs; map thd3 vs])
      else shapes_not_aligned
  end.

(** [ddspwre]: the Hessian of each symmetrized plane wave. *)
Definition ddspwre_of (p : BoltzTraP1Parameters) (arg : list (list R))
    : result (list mat3) :=
  let cos_arg := map (map cos) arg in
  prod <- broadcast2
            (fun qs cs =>
               broadcast2 (fun q c => ret (map33 (fun x => x * - c) q)) qs cs)
            (star_vector_products_sq p) cos_arg ;;
  broadcast2 (fun q nst => ret (map33 (fun x => x / IZR nst) q))
    (map sum33 prod) (num_star_vectors p).

(** [np.dot(dd.T, c)] for [dd] of shape (G, 3, 3) and a 1-D [c]: the
    transpose reverses all three axes. *)
Definition dotT33 (dd : list mat3) (c : list R) : mat3 :=
  let t := map transpose33 dd in
  let row (f : mat3 -> vec3) := dotT3 (map f t) c in
  (row (fun m => fst (fst m)), row (fun m => snd (fst m)), row (fun m => snd m)).

Definition effective_mass_of (dd_energy : mat3) : mat3 :=
  map33 (fun x => e consts * 0.52917721067 ^ 2 * hbar consts ^ 2
                  / (x * m_e consts * A_to_m consts ^ 2 * Ry_to_eV consts))
    dd_energy.

(** The effective-mass entry of [to_return]; against a 2-D block the
    result has shape (3, 3, C). *)
Definition effective_mass_entry (ddspwre : list mat3)
    (coefficients : coeff_block) : result ndarray :=
  match coefficients with
  | Band c =>
      if (length ddspwre =? length c)%nat then
        ret (Arr2 (list33 (effective_mass_of (dotT33 ddspwre c))))
      else shapes_not_aligned
  | Bands m =>
      if (length ddspwre =? length m)%nat then
        let ms := map (fun c => effective_mass_of (dotT33 ddspwre c)) (columns m) in
        let entry (f : mat3 -> vec3) (g : vec3 -> R) := map (fun x => g (f x)) ms in
        let row (f : mat3 -> vec3) := [entry f fst3; entry f snd3; entry f thd3] in
        ret (Arr3 [row (fun x => fst (fst x)); row (fun x => snd (fst x));
                   row (fun x => snd x)])
      else shapes_not_aligned
  end.

(** [_get_energy_wrapper]. *)
Definition _get_energy_wrapper (_parameters : registry)
    (coefficients : coeff_block) (parameters_id : Z) (matrix : mat3)
    (kpoint : vec3) (return_velocity return_effective_mass : bool)
    : result (list ndarray) :=
  parameters <- registry_get _parameters parameters_id ;;
  let arg := phase_args parameters kpoint in
  spwre <- spwre_of parameters arg ;;
  energy <- energy_dot spwre coefficients ;;
  let to_return := [nd_scale energy (Ry_to_eV consts)] in
  to_return <-
    (if return_velocity then
       dspwre <- dspwre_of parameters arg ;;
       v <- velocity_entry dspwre matrix coefficients ;;
       ret (to_return ++ [v])
     else ret to_return) ;;
  if return_effective_mass then
    ddspwre <- ddspwre_of parameters arg ;;
    m <- effective_mass_entry ddspwre coefficients ;;
    ret (to_return ++ [m])
  else ret to_return.

End Evaluator.

(** ** The interpolater *)

(** An initialised [BoltzTraP1Interpolater]: [initialize] has stored the
    parameters of its coefficient file in the global dictionary under
    [_parameters_id]. *)
Record BoltzTraP1Interpolater : Type := Build_BoltzTraP1Interpolater {
  _n_jobs : Z;
  _lattice_matrix : mat3;
  _parameters_id : Z
}.

(** [n_jobs] as [__init__] stores it. *)
Definition init_n_jobs (cpu_count n_jobs : Z) : Z :=
  if (n_jobs =? -1)%Z then cpu_count else n_jobs.

(** [_parameters[key] = value]. *)
Fixpoint registry_set (_parameters : registry) (key : Z)
    (value : BoltzTraP1Parameters) : registry :=
  match _parameters with
  | [] => [(key, value)]
  | (k, p) :: rest =>
      if (k =? key)%Z then (k, value) :: rest
      else (k, p) :: registry_set rest key value
  end.

(** [initialize], for an interpolater that was given its coefficient
    file: the new state of the global dictionary. *)
Definition initialize (self : BoltzTraP1Interpolater) (coeff_file : file)
    (_parameters : registry) : result registry :=
  p <- _get_interpolation_parameters coeff_file ;;
  ret (registry_set _parameters (_parameters_id self) p).

(** The property [parameters]. *)
Definition parameters (self : BoltzTraP1Interpolater) (_parameters : registry)
    : result BoltzTraP1Parameters :=
  registry_get _parameters (_parameters_id self).

(** The argument [iband]: [None], an [int] or a list of ints. *)
Inductive iband_arg : Type :=
| IbandNone
| IbandInt (b : Z)
| IbandList (l : list Z).

Fixpoint insertZ (x : Z) (l : list Z) : list Z :=
  match l with
  | [] => [x]
  | y :: l' => if (x <=? y)%Z then x :: l else y :: insertZ x l'
  end.

(** [sorted(s)] for a collection of integers. *)
Definition sorted (l : list Z) : list Z := fold_right insertZ [] l.

(** [set(a).issubset(b)]. *)
Definition issubset (a b : list Z) : bool :=
  forallb (fun x => existsb (Z.eqb x) b) a.

Definition band_out_of_range_msg (p : BoltzTraP1Parameters) : string :=
  ("At least one band is not in range : " ++ str_of_Z (min_band p) ++ "-"
   ++ str_of_Z (max_band p)
   ++ ". Try increasing max_Ecut to include more bands.")%string.

(** The list [iband] after the first two statements of
    [_get_interpolation_coefficients]. *)
Definition requested_bands (p : BoltzTraP1Parameters) (iband : iband_arg)
    : list Z :=
  let iband :=
    match iband with
    | IbandInt b => [b]
    | IbandList l => l
    | IbandNone => []
    end in
  match iband with
  | [] => sorted (allowed_ibands p)
  | _ => iband
  end.

(** [BoltzTraP1Interpolater._get_interpolation_coefficients]. *)
Definition _get_interpolation_coefficients (self : BoltzTraP1Interpolater)
    (_parameters : registry) (iband : iband_arg) : result coeff_block :=
  p <- parameters self _parameters ;;
  let iband := requested_bands p iband in
  if negb (issubset iband (allowed_ibands p)) then
    raise (ValueError (band_out_of_range_msg p))
  else
    let iband := map (fun b => (b - min_band p)%Z) iband in
    rows <- mapM (getitem (coefficients p)) iband ;;
    if (length iband =? 1)%nat then
      row <- getitem rows 0 ;; ret (Band row)
    else ret (Bands rows).

(** A value returned by [get_energy] or [get_energies]: the energy
    alone, or a tuple. *)
Inductive returned (A : Type) : Type :=
| One (a : A)
| Tuple (l : list A).
Arguments One {A} a.
Arguments Tuple {A} l.

Definition pack_return {A : Type} (to_return : list A) : result (returned A) :=
  if (length to_return =? 1)%nat then
    a <- getitem to_return 0 ;; ret (One a)
  else ret (Tuple to_return).

(** What a call does besides returning: the messages it logs and the
    k-points it passes to the evaluator. *)
Inductive event : Type :=
| Debug (msg : string)
| Evaluate (kpoint : vec3).

Definition traced (A : Type) : Type := (list event * result A)%type.

(** [list(map(fun, kpoints))], with the calls it makes. *)
Fixpoint run_map {B : Type} (f : vec3 -> result B) (kpoints : list vec3)
    : traced (list B) :=
  match kpoints with
  | [] => ([], ret [])
  | k :: rest =>
      match f k with
      | inl err => ([Evaluate k], raise err)
      | inr b =>
          let '(t, r) := run_map f rest in
          (Evaluate k :: t, bs <- r ;; ret (b :: bs))
      end
  end.

(** *** [multiprocessing.Pool.map]

    The pool belongs to the Python standard library.  The embedding
    follows its documented behaviour: the input is cut into chunks, each
    chunk is one task, a task evaluates its chunk in order, and the
    result of task [i] is stored at position [i] whatever the order in
    which the tasks finish.  That order is chosen by the operating
    system; it is the argument [completion]. *)

Fixpoint chunks_fuel {A : Type} (fuel size : nat) (l : list A) : list (list A) :=
  match fuel with
  | O => []
  | S fuel' =>
      match l with
      | [] => []
      | _ => firstn size l :: chunks_fuel fuel' size (skipn size l)
      end
  end.

Definition chunks {A : Type} (size : nat) (l : list A) : list (list A) :=
  chunks_fuel (length l) size l.

(** The default chunk size of [Pool.map]. *)
Definition pool_chunksize (items workers : nat) : nat :=
  let q := Nat.div items (workers * 4) in
  let r := Nat.modulo items (workers * 4) in
  if (items =? 0)%nat then O
  else if (r =? 0)%nat then q else S q.

Fixpoint first_failure {B : Type} (done : list (nat * traced B)) : option exn :=
  match done with
  | [] => None
  | (_, (_, inl err)) :: _ => Some err
  | _ :: rest => first_failure rest
  end.

Fixpoint stored {B : Type} (i : nat) (done : list (nat * traced (list B)))
    : list B :=
  match done with
  | [] => []
  | (j, (_, r)) :: rest =>
      if (j =? i)%nat then match r with inr bs => bs | inl _ => [] end
      else stored i rest
  end.

(** [with multiprocessing.Pool(processes) as p: p.map(fun, kpoints)]. *)
Definition pool_map {B : Type} (processes : Z) (completion : list nat)
    (f : vec3 -> result B) (kpoints : list vec3) : traced (list B) :=
  if (processes <? 1)%Z then
    ([], raise (ValueError "Number of processes must be at least 1"))
  else
    let size := pool_chunksize (length kpoints) (Z.to_nat processes) in
    let tasks := chunks size kpoints in
    let done := map (fun i => (i, run_map f (nth i tasks []))) completion in
    let calls := concat (map (fun d => fst (snd d)) done) in
    match first_failure done with
    | Some err => (calls, raise err)
    | None =>
        (calls, ret (concat (map (fun i => stored i done)
                               (seq 0 (length tasks)))))
    end.

Section Interpolater.
Local Open Scope R_scope.

Variable consts : Constants.

(** [BoltzTraP1Interpolater.get_energy]. *)
Definition get_energy (self : BoltzTraP1Interpolater) (_parameters : registry)
    (kpoint : vec3) (iband : iband_arg)
    (return_velocity return_effective_mass : bool)
    : result (returned ndarray) :=
  coefficients <- _get_interpolation_coefficients self _parameters iband ;;
  to_return <- _get_energy_wrapper consts _parameters coefficients
                 (_parameters_id self) (_lattice_matrix self) kpoint
                 return_velocity return_effective_mass ;;
  pack_return to_return.

Definition nd_sub (a : ndarray) (c : R) : ndarray :=
  match a with
  | Arr0 x => Arr0 (x - c)
  | Arr1 v => Arr1 (map (fun x => x - c) v)
  | Arr2 m => Arr2 (map (map (fun x => x - c)) m)
  | Arr3 t => Arr3 (map (map (map (fun x => x - c))) t)
  end.

Definition join (sep : string) (l : list string) : string :=
  match l with
  | [] => EmptyString
  | s :: l' => fold_left (fun acc x => (acc ++ sep ++ x)%string) l' s
  end.

(** ["{}".format(iband)]. *)
Definition format_iband (iband : iband_arg) : string :=
  match iband with
  | IbandNone => "None"
  | IbandInt b => str_of_Z b
  | IbandList l => ("[" ++ join ", " (map str_of_Z l) ++ "]")%string
  end.

Definition missing_is_cb : exn := ValueError "To apply scissor set is_cb.".

(** The scissor shift: [(-1 if is_cb else 1) * scissor / 2]. *)
Definition scissor_shift (scissor : R) (is_cb : option bool) : R :=
  (match is_cb with Some true => -1 | _ => 1 end) * scissor / 2.

(** The value of the keyword [scissor]: [None] stands for a call that
    leaves it out, which takes the default [0.0]. *)
Definition scissor_value (scissor : option R) : R :=
  match scissor with
  | Some s => s
  | None => 0
  end.

(** The tail of [get_energies], from [to_return = [[r[0] - shift ...]]]
    to the end. *)
Definition collect_results (shift : R)
    (return_velocity return_effective_mass : bool)
    (results : list (list ndarray)) : result (returned (list ndarray)) :=
  energies <- mapM (fun r => x <- getitem r 0 ;; ret (nd_sub x shift))
                results ;;
  let to_return := [energies] in
  to_return <-
    (if return_velocity then
       vs <- mapM (fun r => getitem r 1) results ;;
       ret (to_return ++ [vs])
     else ret to_return) ;;
  to_return <-
    (if return_effective_mass then
       ms <- mapM (fun r => getitem r 2) results ;;
       ret (to_return ++ [ms])
     else ret to_return) ;;
  pack_return to_return.

(** The two [logger.debug] calls that open [get_energies]. *)
Definition debug_log (iband : iband_arg) : list event :=
  [Debug "Interpolating bands from coefficient file";
   Debug ("band_indices: " ++ format_iband iband)].

(** [BoltzTraP1Interpolater.get_energies].  [completion] is only read
    when a pool is used. *)
Definition get_energies (self : BoltzTraP1Interpolater) (_parameters : registry)
    (completion : list nat)
    (kpoints : list vec3) (iband : iband_arg)
    (scissor : option R) (is_cb : option bool)
    (return_velocity return_effective_mass : bool)
    : traced (returned (list ndarray)) :=
  let scissor := scissor_value scissor in
  let log := debug_log iband in
  if negb (Reqb scissor 0) && match is_cb with None => true | _ => false end
  then (log, raise missing_is_cb)
  else
    let shift := scissor_shift scissor is_cb in
    match _get_interpolation_coefficients self _parameters iband with
    | inl err => (log, raise err)
    | inr coefficients =>
        let fun_ := fun kpoint =>
          _get_energy_wrapper consts _parameters coefficients
            (_parameters_id self) (_lattice_matrix self) kpoint
            true return_effective_mass in
        let '(calls, results) :=
          if (_n_jobs self =? 1)%Z then run_map fun_ kpoints
          else pool_map (_n_jobs self) completion fun_ kpoints in
        (log ++ calls,
         results <- results ;;
         collect_results shift return_velocity return_effective_mass results)
    end.

End Interpolater.

(** ** The life cycle of an interpolater

    [initialize], the property [parameters] and [_generate_coeff_file]
    work on the attributes of the object, on the global dictionary and
    on the file system.  The embedding passes them along explicitly: a
    call returns the world and the object it leaves behind together with
    its result, also when it raises.

    BoltzTraP itself, run through pymatgen's [BoltztrapRunner], and
    [os.path.join] are outside the modelled source; they are parameters
    of the embedding. *)

(** The files that can be opened, by path. *)
Definition filesystem : Type := string -> option file.

(** The exceptions of the life cycle: those of the parser and of the
    dictionary, and those that only arise here; [KeyErrorNone] is the
    [KeyError] of a lookup under the key [None]. *)
Inductive raised : Type :=
| Raised (err : exn)
| TypeError (msg : string)
| FileNotFoundError (path : string)
| KeyErrorNone.

(** What a call does besides changing the object and the dictionary. *)
Inductive effect : Type :=
| LogInfo (msg : string)
| RunBoltzTraP (tmax : Z)
| OpenFile (path : string).

(** The attributes of a [BoltzTraP1Interpolater] that the life cycle
    reads and writes, and [id(self)]. *)
Record interpolater_state : Type := Build_interpolater_state {
  object_id : Z;
  attr_coeff_file : option string;
  attr_max_temperature : option Z;
  attr_parameters_id : option Z
}.

Record world : Type := Build_world {
  files : filesystem;
  dictionary : registry;
  effects : list effect
}.

Definition outcome (A : Type) : Type :=
  (world * interpolater_state * (raised + A))%type.

(** The state [__init__] leaves, as far as the life cycle goes. *)
Definition init_state (id : Z) (coeff_file : option string)
    (max_temperature : option Z) : interpolater_state :=
  Build_interpolater_state id coeff_file max_temperature None.

(** Truth value of an optional string and of an optional integer:
    [None], the empty string and 0 are false. *)
Definition truthy_str (s : option string) : bool :=
  match s with
  | Some (String _ _) => true
  | _ => false
  end.

Definition truthy_int (i : option Z) : bool :=
  match i with
  | Some z => negb (z =? 0)%Z
  | None => false
  end.

(** [max([self._max_temperature, 300])]: Python 3 does not order [None]
    and an integer. *)
Definition max_with_300 (max_temperature : option Z) : raised + Z :=
  match max_temperature with
  | None =>
      inl (TypeError
             "'>' not supported between instances of 'int' and 'NoneType'")
  | Some t => inr (Z.max t 300)
  end.

Definition log (e : effect) (w : world) : world :=
  Build_world (files w) (dictionary w) (effects w ++ [e]).

Definition set_files (fs : filesystem) (w : world) : world :=
  Build_world fs (dictionary w) (effects w).

Definition set_coeff_file (self : interpolater_state) (path : string)
    : interpolater_state :=
  Build_interpolater_state (object_id self) (Some path)
    (attr_max_temperature self) (attr_parameters_id self).

Definition set_parameters_id (self : interpolater_state) (key : Z)
    : interpolater_state :=
  Build_interpolater_state (object_id self) (attr_coeff_file self)
    (attr_max_temperature self) (Some key).

Section Lifecycle.

(** [BoltztrapRunner(..., tmax=tmax).run(path_dir=...)]: the directory
    it returns and the files it leaves, or an exception. *)
Variable btr_run : Z -> filesystem -> raised + (string * filesystem).

(** [os.path.join]. *)
Variable path_join : string -> string -> string.

(** Modelled from the spec: [self.log_raise], of the base class, which
    is not part of the modelled source.  The spec has the failure to
    generate the file reported to the caller, with nothing done after
    it. *)
Definition generation_failed : raised :=
  Raised
    (RuntimeError
       ("Coefficient file was not generated properly. "
        ++ "This requires a modified version of BoltzTraP. "
        ++ "See the patch_for_boltztrap" ++ String "034"%char EmptyString
        ++ " folder for more information")%string).

(** [BoltzTraP1Interpolater._generate_coeff_file]. *)
Definition _generate_coeff_file (self : interpolater_state) (w : world)
    : world * (raised + string) :=
  match max_with_300 (attr_max_temperature self) with
  | inl err => (w, inl err)
  | inr tmax =>
      let w := log (RunBoltzTraP tmax) w in
      match btr_run tmax (files w) with
      | inl err => (w, inl err)
      | inr (dirpath, fs) =>
          let w := set_files fs w in
          let coeff_file := path_join dirpath "fort.123" in
          match files w coeff_file with
          | None => (w, inl generation_failed)
          | Some _ =>
              (log (LogInfo ("Finished generating coefficient file. Set "
                          ++ "coeff_file variable to " ++ coeff_file
                          ++ " to skip this in the" ++ "future")%string) w,
               inr coeff_file)
          end
      end
  end.

(** [open(coeff_file)] followed by the parser proper. *)
Definition open_and_parse (coeff_file : option string) (w : world)
    : world * (raised + BoltzTraP1Parameters) :=
  match coeff_file with
  | None =>
      (w, inl (TypeError
                 "expected str, bytes or os.PathLike object, not NoneType"))
  | Some path =>
      let w := log (OpenFile path) w in
      match files w path with
      | None => (w, inl (FileNotFoundError path))
      | Some contents =>
          match _get_interpolation_parameters contents with
          | inl err => (w, inl (Raised err))
          | inr p => (w, inr p)
          end
      end
  end.

(** [BoltzTraP1Interpolater.initialize], on the object. *)
Definition initialize_object (self : interpolater_state) (w : world)
    : outcome unit :=
  let '(w, self, generated) :=
    if negb (truthy_str (attr_coeff_file self)) then
      let w :=
        log (LogInfo "No coefficient file specified, running BoltzTraP to generate it.")
          w in
      match _generate_coeff_file self w with
      | (w, inl err) => (w, self, inl err)
      | (w, inr path) => (w, set_coeff_file self path, inr tt)
      end
    else (w, self, inr tt) in
  match generated with
  | inl err => (w, self, inl err)
  | inr _ =>
      let self := set_parameters_id self (object_id self) in
      match open_and_parse (attr_coeff_file self) w with
      | (w, inl err) => (w, self, inl err)
      | (w, inr p) =>
          (Build_world (files w)
             (registry_set (dictionary w) (object_id self) p) (effects w),
           self, inr tt)
      end
  end.

(** [_parameters[self._parameters_id]]. *)
Definition lookup_parameters (self : interpolater_state) (w : world)
    : raised + BoltzTraP1Parameters :=
  match attr_parameters_id self with
  | None => inl KeyErrorNone
  | Some key =>
      match registry_get (dictionary w) key with
      | inl err => inl (Raised err)
      | inr p => inr p
      end
  end.

(** The property [BoltzTraP1Interpolater.parameters], on the object. *)
Definition parameters_property (self : interpolater_state) (w : world)
    : outcome BoltzTraP1Parameters :=
  if negb (truthy_int (attr_parameters_id self)) then
    match initialize_object self w with
    | (w, self, inl err) => (w, self, inl err)
    | (w, self, inr _) => (w, self, lookup_parameters self w)
    end
  else (w, self, lookup_parameters self w).

End Lifecycle.

(** * Vocabulary of the statements *)

(** ** Rows and stars *)

Section RowOrder.
Local Open Scope R_scope.

(** The order of [vec3_ltb] as a proposition. *)
Definition lt3 (a b : vec3) : Prop :=
  let '(a0, a1, a2) := a in
  let '(b0, b1, b2) := b in
  a0 < b0 \/ (a0 = b0 /\ (a1 < b1 \/ (a1 = b1 /\ a2 < b2))).

(** [a] does not come after [b]. *)
Definition le3 (a b : vec3) : Prop := vec3_ltb b a = false.

End RowOrder.

(** What the spec states of the star [(nst, stg)] of [g_vector] under
    the first [num_symmetries] operations. *)
Definition star_invariant (num_symmetries : Z) (sym_ops : list imat3)
    (g_vector : vec3) (nst : Z) (stg : list vec3) : Prop :=
  (1 <= nst <= num_symmetries)%Z /\
  length stg = Z.to_nat num_symmetries /\
  NoDup (firstn (Z.to_nat nst) stg) /\
  (forall v, In v (firstn (Z.to_nat nst) stg) <->
             exists m, In m (slice_to num_symmetries sym_ops) /\
                       v = imatvec m g_vector) /\
  (forall i, (Z.to_nat nst <= i < Z.to_nat num_symmetries)%nat ->
             nth i stg zero3 = zero3) /\
  ((forall m, In m (slice_to num_symmetries sym_ops) ->
              imatvec m g_vector = zero3) -> nst = 1%Z).

(** The identity, and the reflection of the third axis. *)
Definition identity33 : imat3 := ((1, 0, 0), (0, 1, 0), (0, 0, 1))%Z.

Definition mirror33 : imat3 := ((1, 0, 0), (0, 1, 0), (0, 0, -1))%Z.

(** ** The parser *)

(** The parameters object built from what the parser has read. *)
Definition parameters_of (num_symmetries : Z) (cell_matrix : mat3)
    (st : loop_state) (stars : list (Z * list vec3)) (width : Z)
    : BoltzTraP1Parameters :=
  let nsts := map fst stars in
  let svs := map snd stars in
  let products := map (map (fun v => vecmat v cell_matrix)) svs in
  Build_BoltzTraP1Parameters num_symmetries (ls_coefficients st)
    (ls_min_band st) (ls_max_band st)
    (range (ls_min_band st) (ls_max_band st + 1))
    nsts svs products
    (map (fun '(nst, p) => fill_products_sq width nst p)
       (combine nsts products)).

(** [sym_ops] from the reshaped third line of the file. *)
Definition sym_ops_of (ops : list mat3) : list imat3 :=
  map (fun m => itranspose33 (astype_int33 m)) ops.

(** The line indices at which coefficient lines are still expected,
    from the [j]-th of [n] on. *)
Definition iband_from (G : Z) (j n : nat) : list Z :=
  map (fun k => (G + 1 + Z.of_nat k)%Z) (seq j (n - j)).

(** The parser's failure as the spec names it: a [ValueError] raised
    while reading the file. *)
Definition malformed_coefficient_file (r : result BoltzTraP1Parameters)
    : Prop :=
  exists msg, r = inl (ValueError msg).

(** A G-vector line the parser takes: three floats, or one. *)
Definition g_vector_line (l : line) : Prop :=
  exists v, broadcast_row3 (fromstring l) = inr v.

(** ** The evaluation written index by index *)

Section IndexedEvaluation.
Local Open Scope R_scope.

Variable consts : Constants.

(** [sum_upto n f] is the sum of [f i] over [0 <= i < n]. *)
Fixpoint sum_upto (n : nat) (f : nat -> R) : R :=
  match n with
  | O => 0
  | S n' => f O + sum_upto n' (fun i => f (S i))
  end.

(** [phase[g][i]], [S[g]] and the energy, as the spec writes them. *)
Definition spec_phase (p : BoltzTraP1Parameters) (kpoint : vec3)
    (g i : nat) : R :=
  2 * PI * dot3 (nth i (nth g (star_vectors p) []) zero3) kpoint.

Definition spec_S (p : BoltzTraP1Parameters) (kpoint : vec3) (g : nat) : R :=
  (sum_upto (length (nth g (star_vectors p) []))
     (fun i => cos (spec_phase p kpoint g i))
   - (IZR (num_symmetries p) - IZR (nth g (num_star_vectors p) 0%Z)))
  / IZR (nth g (num_star_vectors p) 0%Z).

Definition spec_energy (p : BoltzTraP1Parameters) (kpoint : vec3)
    (c : list R) : R :=
  sum_upto (length c) (fun g => spec_S p kpoint g * nth g c 0)
  * Ry_to_eV consts.

End IndexedEvaluation.

(** ** Band lookup *)

(** The indices the caller wrote: none for [None]. *)
Definition listed_bands (iband : iband_arg) : list Z :=
  match iband with
  | IbandNone => []
  | IbandInt b => [b]
  | IbandList l => l
  end.

(** The invariants of the data model that band lookup relies on: the
    allowed bands are those of [min_band .. max_band], and there is one
    coefficient row per band. *)
Definition bands_well_formed (p : BoltzTraP1Parameters) : Prop :=
  allowed_ibands p = range (min_band p) (max_band p + 1) /\
  length (coefficients p) = Z.to_nat (max_band p - min_band p + 1).

(** The shapes the evaluator relies on for one band and its velocity:
    one star and one row of products per G-vector count, products laid
    out like the stars, and coefficient rows with one entry per
    G-vector. *)
Definition evaluator_well_formed (p : BoltzTraP1Parameters) : Prop :=
  length (star_vectors p) = length (num_star_vectors p) /\
  Forall2 (fun vs ss => length vs = length ss)
    (star_vector_products p) (star_vectors p) /\
  Forall (fun row => length row = length (star_vectors p)) (coefficients p).

(** The rows of the coefficient matrix at the requested bands, each
    found at the band index less [min_band]. *)
Definition rows_selected (p : BoltzTraP1Parameters) (bands : list Z)
    (rows : list (list R)) : Prop :=
  Forall2 (fun b row =>
             (0 <= b - min_band p)%Z /\
             nth_error (coefficients p) (Z.to_nat (b - min_band p)) = Some row)
    bands rows.

(** ** Outcomes and exceptions *)

(** Two results agree in outcome: the same exception, or two values
    related by [R]. *)
Definition same_outcome {A : Type} (R : A -> A -> Prop) (r r' : result A)
    : Prop :=
  match r, r' with
  | inl err, inl err' => err = err'
  | inr a, inr a' => R a a'
  | _, _ => False
  end.

(** The relation that holds of any two values: two lists related by
    [Forall2 any] have the same length. *)
Definition any {A : Type} (_ _ : A) : Prop := True.

(** Every exception the call can raise satisfies [P]. *)
Definition raises_only {A : Type} (P : exn -> Prop) (r : result A) : Prop :=
  match r with
  | inl err => P err
  | inr _ => True
  end.

(** The exceptions of the evaluation proper: none of them is the one
    raised for a scissor without band type. *)
Definition evaluation_error (err : exn) : Prop :=
  match err with
  | ValueError msg =>
      msg = "operands could not be broadcast together"%string
      \/ msg = "shapes not aligned"%string
      \/ msg = "Number of processes must be at least 1"%string
      \/ exists p, msg = band_out_of_range_msg p
  | _ => True
  end.

(** ** Bulk evaluation *)

(** What task [i] leaves in the result list. *)
Definition task_value {B : Type} (f : vec3 -> result B) (chunk : list vec3)
    : list B :=
  match mapM f chunk with
  | inr bs => bs
  | inl _ => []
  end.

(** An evaluation function fails at every k-point, with one exception,
    or at none. *)
Definition uniform_failure {B : Type} (f : vec3 -> result B) : Prop :=
  forall k k' err, f k = inl err -> f k' = inl err.

(** The number of tasks the pool makes of [kpoints]. *)
Definition task_count (processes : Z) (kpoints : list vec3) : nat :=
  length (chunks (pool_chunksize (length kpoints) (Z.to_nat processes))
            kpoints).

(** The scissor check lets the call through: no scissor, or a band
    type. *)
Definition scissor_guard_passes (scissor : option R) (is_cb : option bool)
    : Prop :=
  scissor_value scissor = 0%R \/ is_cb <> None.

(** The completion order handed to the model is one the pool can
    produce: every task finishes once.  It is not looked at when the
    interpolater runs sequentially. *)
Definition valid_completion (self : BoltzTraP1Interpolater)
    (kpoints : list vec3) (completion : list nat) : Prop :=
  _n_jobs self = 1%Z
  \/ Permutation completion (seq 0 (task_count (_n_jobs self) kpoints)).

(** The energies in a value returned by [get_energies]. *)
Definition energies_of (ret : returned (list ndarray)) : list ndarray :=
  match ret with
  | One es => es
  | Tuple (es :: _) => es
  | Tuple [] => []
  end.

(** The interpolater with another worker count. *)
Definition with_n_jobs (self : BoltzTraP1Interpolater) (n : Z)
    : BoltzTraP1Interpolater :=
  Build_BoltzTraP1Interpolater n (_lattice_matrix self) (_parameters_id self).

Section MatchingEnergies.
Local Open Scope R_scope.

Variable consts : Constants.

(** The energy at position [i] of a bulk result is the evaluator's
    energy at the k-point at position [i], less the scissor shift. *)
Definition energies_match (self : BoltzTraP1Interpolater)
    (_parameters : registry) (coefficients : coeff_block) (rm : bool)
    (shift : R) (kpoints : list vec3) (energies : list ndarray) : Prop :=
  Forall2
    (fun kpoint x =>
       exists r u,
         _get_energy_wrapper consts _parameters coefficients
           (_parameters_id self) (_lattice_matrix self) kpoint true rm
         = inr r /\
         getitem r 0 = inr u /\ x = nd_sub u shift)
    kpoints energies.

End MatchingEnergies.

(** The unit constants that scale the velocity are positive. *)
Definition positive_constants (consts : Constants) : Prop :=
  (0 < Ry_to_eV consts /\ 0 < hbar consts /\
   0 < A_to_m consts /\ 0 < m_to_cm consts)%R.

(** Every entry of the array is non-negative. *)
Definition nd_nonneg (a : ndarray) : Prop :=
  match a with
  | Arr0 x => (0 <= x)%R
  | Arr1 v => Forall (Rle 0) v
  | Arr2 m => Forall (Forall (Rle 0)) m
  | Arr3 t => Forall (Forall (Forall (Rle 0))) t
  end.

(** ** Small inputs *)

(** A line of integer literals. *)
Definition ints (l : list Z) : line := map TInt l.

(** The cell matrix of a cubic cell of edge 1. *)
Definition cubic_cell_line : line := ints [1; 0; 0; 0; 1; 0; 0; 0; 1]%Z.

(** The line of 192 operation matrices whose first is the identity; the
    unused ones are zero. *)
Definition identity_sym_line : line :=
  ints ([1; 0; 0; 0; 1; 0; 0; 0; 1] ++ repeat 0 1719)%Z.


(** The line of operation matrices that starts with the identity and
    the reflection of the third axis. *)
Definition mirror_sym_line : line :=
  ints ([1; 0; 0; 0; 1; 0; 0; 0; 1] ++ [1; 0; 0; 0; 1; 0; 0; 0; -1]
        ++ repeat 0 1710)%Z.

(** A coefficient file whose G-vectors all lie in a mirror plane: two
    symmetry operations (the identity and the reflection of the third
    axis), the G-vectors (0,0,0) and (1,0,0), one band. *)
Definition mirror_plane_file : file :=
  [ints [1; 2; 2; 1]%Z; cubic_cell_line; mirror_sym_line;
   ints [0; 0; 0]%Z; ints [1; 0; 0]%Z; ints [1; 1]%Z;
   [TReal 0.5%R; TReal 0.25%R]].

(** Constants that are all 1, to run the evaluator on small inputs. *)
Definition unit_constants : Constants := Build_Constants 1 1 1 1 1 1.

(** A parameters object with one G-vector, (1,0,0), and the identity as
    its only symmetry; bands 3 to 4. *)
Definition small_parameters : BoltzTraP1Parameters :=
  Build_BoltzTraP1Parameters 1 [[0.5%R]; [0.25%R]] 3 4 [3; 4]%Z [1%Z]
    [[(1, 0, 0)%R]] [[(1, 0, 0)%R]]
    [[((1, 0, 0), (0, 0, 0), (0, 0, 0))%R]].

(** A sequential interpolater over a cubic lattice, registered under the
    key 7. *)
Definition small_interpolater : BoltzTraP1Interpolater :=
  Build_BoltzTraP1Interpolater 1
    ((1, 0, 0), (0, 1, 0), (0, 0, 1))%R 7.

Definition small_registry : registry := [(7%Z, small_parameters)].

(** ** Further vocabulary *)

(** The exception is a [ValueError]. *)
Definition is_value_error (err : exn) : Prop :=
  exists msg, err = ValueError msg.

(** A complete coefficient file: one G-vector, the identity as only
    symmetry, bands 1 and 2 with one coefficient each. *)
Definition two_bands_file : file :=
  [ints [1; 1; 1; 1]%Z; cubic_cell_line; identity_sym_line;
   ints [0; 0; 0]%Z; ints [1; 2]%Z; [TReal 0.5%R]; [TReal 0.25%R]].


(** A vector with integer components. *)
Definition integral3 (v : vec3) : Prop :=
  exists a b c : Z, v = (IZR a, IZR b, IZR c).


(** Parameters as a truncated file leaves them: bands 1 and 2 allowed,
    one coefficient row. *)
Definition truncated_parameters : BoltzTraP1Parameters :=
  Build_BoltzTraP1Parameters 1 [[0.5%R]] 1 2 [1; 2]%Z [1%Z]
    [[(1, 0, 0)%R]] [[(1, 0, 0)%R]]
    [[((1, 0, 0), (0, 0, 0), (0, 0, 0))%R]].

(** ** Small worlds *)

(** A run of BoltzTraP that returns the directory [run] and leaves the
    file system as it found it. *)
Definition run_without_output (tmax : Z) (fs : filesystem)
    : raised + (string * filesystem) :=
  inr ("run"%string, fs).

(** [os.path.join] on a POSIX system, for a second component that is
    not absolute and a first that does not end in a slash. *)
Definition posix_join (a b : string) : string := (a ++ "/" ++ b)%string.

(** A world with no file, an empty dictionary and nothing done yet. *)
Definition empty_world : world := Build_world (fun _ => None) [] [].

(** A world whose only file is [path], with the given contents. *)
Definition one_file_world (path : string) (contents : file) : world :=
  Build_world
    (fun p => if String.eqb p path then Some contents else None) [] [].

(** * Properties *)

(** ** The result monad *)

Lemma bind_inr {A B : Type} (m : result A) (k : A -> result B) (b : B) :
  bind m k = inr b -> exists a, m = inr a /\ k a = inr b.
Proof.
  destruct m as [err | a]; simpl; intros H.
  - discriminate.
  - exists a; split; [reflexivity | exact H].
Qed.

Lemma bind_inl {A B : Type} (m : result A) (k : A -> result B) (err : exn) :
  bind m k = inl err ->
  m = inl err \/ exists a, m = inr a /\ k a = inl err.
Proof.
  destruct m as [err' | a]; simpl; intros H.
  - left; injection H as ->; reflexivity.
  - right; exists a; split; [reflexivity | exact H].
Qed.

Lemma mapM_total {A B : Type} (f : A -> result B) (g : A -> B) (l : list A) :
  (forall a, In a l -> f a = inr (g a)) -> mapM f l = inr (map g l).
Proof.
  induction l as [| a l IH]; simpl; intros H.
  - reflexivity.
  - rewrite (H a) by (left; reflexivity). simpl.
    rewrite IH by (intros; apply H; right; assumption).
    reflexivity.
Qed.

Lemma mapM_Forall2 {A B : Type} (f : A -> result B) (l : list A) (bs : list B) :
  mapM f l = inr bs -> Forall2 (fun a b => f a = inr b) l bs.
Proof.
  revert bs; induction l as [| a l IH]; simpl; intros bs H.
  - injection H as <-. constructor.
  - destruct (f a) as [err | b] eqn:Hfa; simpl in H; [discriminate |].
    destruct (mapM f l) as [err | bs'] eqn:Hl; simpl in H; [discriminate |].
    injection H as <-. constructor; [exact Hfa | apply IH; reflexivity].
Qed.

Lemma Forall2_mapM {A B : Type} (f : A -> result B) (l : list A) (bs : list B) :
  Forall2 (fun a b => f a = inr b) l bs -> mapM f l = inr bs.
Proof.
  induction 1 as [| a b l bs Hab _ IH]; simpl.
  - reflexivity.
  - rewrite Hab, IH. reflexivity.
Qed.

Lemma mapM_inl {A B : Type} (f : A -> result B) (l : list A) (err : exn) :
  mapM f l = inl err -> exists a, In a l /\ f a = inl err.
Proof.
  induction l as [| a l IH]; simpl; intros H.
  - discriminate.
  - destruct (f a) as [err' | b] eqn:Hfa; simpl in H.
    + injection H as ->. exists a; split; [left; reflexivity | exact Hfa].
    + destruct (mapM f l) as [err' | bs] eqn:Hl; simpl in H; [| discriminate].
      injection H as ->. destruct (IH eq_refl) as [a' [Hin Ha']].
      exists a'; split; [right; exact Hin | exact Ha'].
Qed.

Lemma mapM_ext {A B : Type} (f g : A -> result B) (l : list A) :
  (forall a, In a l -> f a = g a) -> mapM f l = mapM g l.
Proof.
  induction l as [| a l IH]; simpl; intros H.
  - reflexivity.
  - rewrite (H a) by (left; reflexivity).
    rewrite IH by (intros; apply H; right; assumption).
    reflexivity.
Qed.

(** ** Sorting and deduplication of rows *)

Section UniqueRows.
Local Open Scope R_scope.

Lemma Rltb_true (x y : R) : Rltb x y = true <-> x < y.
Proof.
  unfold Rltb; destruct (Rlt_dec x y); split; intros H;
    try reflexivity; try assumption; try discriminate; contradiction.
Qed.

Lemma Reqb_true (x y : R) : Reqb x y = true <-> x = y.
Proof.
  unfold Reqb; destruct (Req_dec_T x y); split; intros H;
    try reflexivity; try assumption; try discriminate; contradiction.
Qed.

Lemma Reqb_false (x y : R) : Reqb x y = false <-> x <> y.
Proof.
  unfold Reqb; destruct (Req_dec_T x y); split; intros H;
    try reflexivity; try assumption; try discriminate; contradiction.
Qed.

Lemma vec3_eqb_true (a b : vec3) : vec3_eqb a b = true <-> a = b.
Proof.
  destruct a as [[a0 a1] a2], b as [[b0 b1] b2]; unfold vec3_eqb.
  rewrite !andb_true_iff, !Reqb_true. split.
  - intros [[-> ->] ->]. reflexivity.
  - intros H; injection H as -> -> ->. auto.
Qed.

Lemma vec3_ltb_true (a b : vec3) : vec3_ltb a b = true <-> lt3 a b.
Proof.
  destruct a as [[a0 a1] a2], b as [[b0 b1] b2]; unfold vec3_ltb, lt3.
  rewrite !orb_true_iff, !andb_true_iff, !orb_true_iff, !andb_true_iff,
    !Rltb_true, !Reqb_true.
  reflexivity.
Qed.

Lemma lt3_irrefl (a : vec3) : ~ lt3 a a.
Proof.
  destruct a as [[a0 a1] a2]; unfold lt3.
  intros [H | [_ [H | [_ H]]]]; lra.
Qed.

Lemma lt3_trans (a b c : vec3) : lt3 a b -> lt3 b c -> lt3 a c.
Proof.
  destruct a as [[a0 a1] a2], b as [[b0 b1] b2], c as [[c0 c1] c2].
  unfold lt3.
  intros [H | [E [H | [E' H]]]] [K | [F [K | [F' K]]]];
    try (left; lra);
    try (right; split; [lra |]; left; lra);
    right; split; [lra |]; right; split; lra.
Qed.

Lemma lt3_total (a b : vec3) : ~ lt3 a b -> ~ lt3 b a -> a = b.
Proof.
  destruct a as [[a0 a1] a2], b as [[b0 b1] b2]; unfold lt3.
  intros H K.
  destruct (Rtotal_order a0 b0) as [L | [E | L]];
    [exfalso; apply H; left; exact L | | exfalso; apply K; left; exact L].
  subst b0.
  destruct (Rtotal_order a1 b1) as [L | [E | L]];
    [exfalso; apply H; right; split; [reflexivity | left; exact L] |
    | exfalso; apply K; right; split; [reflexivity | left; exact L]].
  subst b1.
  destruct (Rtotal_order a2 b2) as [L | [E | L]];
    [exfalso; apply H; right; split; [reflexivity |];
       right; split; [reflexivity | exact L] |
    | exfalso; apply K; right; split; [reflexivity |];
       right; split; [reflexivity | exact L]].
  subst b2. reflexivity.
Qed.

Lemma le3_iff (a b : vec3) : le3 a b <-> ~ lt3 b a.
Proof.
  unfold le3. rewrite <- vec3_ltb_true.
  destruct (vec3_ltb b a); split; intros H; try discriminate;
    try reflexivity.
  exfalso; apply H; reflexivity.
Qed.

Lemma lt3_le3 (a b : vec3) : lt3 a b -> le3 a b.
Proof.
  intros H. apply le3_iff. intros K.
  exact (lt3_irrefl _ (lt3_trans _ _ _ H K)).
Qed.

Lemma le3_lt3_trans (a b c : vec3) : le3 a b -> lt3 b c -> lt3 a c.
Proof.
  intros H K. apply le3_iff in H.
  destruct (vec3_ltb a b) eqn:Hab.
  - apply vec3_ltb_true in Hab. exact (lt3_trans _ _ _ Hab K).
  - assert (a = b) as ->; [| exact K].
    apply lt3_total; [| exact H].
    intros L. apply vec3_ltb_true in L. congruence.
Qed.

Lemma lt3_le3_trans (a b c : vec3) : lt3 a b -> le3 b c -> lt3 a c.
Proof.
  intros H K. apply le3_iff in K.
  destruct (vec3_ltb b c) eqn:Hbc.
  - apply vec3_ltb_true in Hbc. exact (lt3_trans _ _ _ H Hbc).
  - assert (b = c) as <-; [| exact H].
    apply lt3_total; [| exact K].
    intros L. apply vec3_ltb_true in L. congruence.
Qed.

Lemma le3_trans (a b c : vec3) : le3 a b -> le3 b c -> le3 a c.
Proof.
  intros H K. apply le3_iff. intros L.
  apply le3_iff in K. apply K. exact (lt3_le3_trans _ _ _ L H).
Qed.

Lemma insert_row_In (x y : vec3) (l : list vec3) :
  In y (insert_row x l) <-> y = x \/ In y l.
Proof.
  induction l as [| z l IH]; simpl.
  - intuition auto.
  - destruct (vec3_ltb z x); simpl; [rewrite IH |]; intuition auto.
Qed.

Lemma insert_row_length (x : vec3) (l : list vec3) :
  length (insert_row x l) = S (length l).
Proof.
  induction l as [| z l IH]; simpl; [reflexivity |].
  destruct (vec3_ltb z x); simpl; [rewrite IH |]; reflexivity.
Qed.

Lemma insert_row_sorted (x : vec3) (l : list vec3) :
  StronglySorted le3 l -> StronglySorted le3 (insert_row x l).
Proof.
  induction 1 as [| z l Hs IH Hz]; simpl.
  - constructor; constructor.
  - destruct (vec3_ltb z x) eqn:Hzx.
    + constructor; [exact IH |].
      apply Forall_forall. intros y Hy. apply insert_row_In in Hy.
      destruct Hy as [-> | Hy].
      * apply lt3_le3, vec3_ltb_true; exact Hzx.
      * rewrite Forall_forall in Hz; apply Hz; exact Hy.
    + constructor; [constructor; assumption |].
      constructor; [exact Hzx |].
      apply Forall_forall. intros y Hy.
      rewrite Forall_forall in Hz.
      exact (le3_trans _ _ _ Hzx (Hz y Hy)).
Qed.

Lemma sort_rows_In (y : vec3) (l : list vec3) :
  In y (sort_rows l) <-> In y l.
Proof.
  induction l as [| x l IH]; simpl; [reflexivity |].
  rewrite insert_row_In, IH. intuition auto.
Qed.

Lemma sort_rows_length (l : list vec3) : length (sort_rows l) = length l.
Proof.
  induction l as [| x l IH]; simpl; [reflexivity |].
  rewrite insert_row_length, IH. reflexivity.
Qed.

Lemma sort_rows_sorted (l : list vec3) : StronglySorted le3 (sort_rows l).
Proof.
  induction l as [| x l IH]; simpl; [constructor |].
  apply insert_row_sorted; exact IH.
Qed.

Lemma drop_repeats_In (p y : vec3) (l : list vec3) :
  In y (p :: drop_repeats p l) <-> In y (p :: l).
Proof.
  revert p; induction l as [| z l IH]; intros p; simpl; [reflexivity |].
  destruct (vec3_eqb z p) eqn:Hzp.
  - apply vec3_eqb_true in Hzp; subst z.
    specialize (IH p). simpl in IH. rewrite IH. intuition auto.
  - specialize (IH z). simpl in *. rewrite IH. intuition auto.
Qed.

Lemma drop_repeats_length (p : vec3) (l : list vec3) :
  (length (drop_repeats p l) <= length l)%nat.
Proof.
  revert p; induction l as [| z l IH]; intros p; simpl; [lia |].
  destruct (vec3_eqb z p); simpl; specialize (IH z); lia.
Qed.

Lemma drop_repeats_sorted (p : vec3) (l : list vec3) :
  StronglySorted le3 (p :: l) ->
  StronglySorted lt3 (p :: drop_repeats p l).
Proof.
  revert p; induction l as [| z l IH]; intros p Hs; simpl.
  - constructor; constructor.
  - inversion Hs as [| ? ? Hs' Hp]; subst.
    destruct (vec3_eqb z p) eqn:Hzp.
    + apply vec3_eqb_true in Hzp; subst z. apply IH; exact Hs'.
    + specialize (IH z Hs').
      assert (Hpz : lt3 p z).
      { inversion Hp as [| ? ? Hle _]; subst.
        destruct (vec3_ltb p z) eqn:Hlt; [apply vec3_ltb_true; exact Hlt |].
        exfalso. assert (z = p) as E.
        { apply lt3_total.
          - apply le3_iff; exact Hle.
          - apply le3_iff; unfold le3; exact Hlt. }
        apply vec3_eqb_true in E. congruence. }
      constructor; [exact IH |].
      constructor; [exact Hpz |].
      inversion IH as [| ? ? _ Hz]; subst.
      apply Forall_forall. intros y Hy.
      rewrite Forall_forall in Hz.
      exact (lt3_trans _ _ _ Hpz (Hz y Hy)).
Qed.

Lemma strictly_sorted_NoDup (l : list vec3) :
  StronglySorted lt3 l -> NoDup l.
Proof.
  induction 1 as [| x l _ IH Hx]; constructor; [| exact IH].
  intros Hin. rewrite Forall_forall in Hx.
  exact (lt3_irrefl _ (Hx x Hin)).
Qed.

Lemma np_unique_rows_In (y : vec3) (l : list vec3) :
  In y (np_unique_rows l) <-> In y l.
Proof.
  unfold np_unique_rows. rewrite <- (sort_rows_In y l).
  destruct (sort_rows l) as [| x l']; [reflexivity |].
  apply drop_repeats_In.
Qed.

Lemma np_unique_rows_NoDup (l : list vec3) : NoDup (np_unique_rows l).
Proof.
  unfold np_unique_rows. pose proof (sort_rows_sorted l) as Hs.
  destruct (sort_rows l) as [| x l']; [constructor |].
  apply strictly_sorted_NoDup, drop_repeats_sorted; exact Hs.
Qed.

Lemma np_unique_rows_length (l : list vec3) :
  (length (np_unique_rows l) <= length l)%nat.
Proof.
  unfold np_unique_rows. rewrite <- (sort_rows_length l).
  destruct (sort_rows l) as [| x l']; simpl; [lia |].
  pose proof (drop_repeats_length x l'). lia.
Qed.

Lemma np_unique_rows_nonempty (l : list vec3) :
  l <> [] -> (1 <= length (np_unique_rows l))%nat.
Proof.
  intros Hl. unfold np_unique_rows.
  pose proof (sort_rows_length l) as Hlen.
  destruct (sort_rows l) as [| x l']; simpl in *; [| lia].
  destruct l; [contradiction | discriminate].
Qed.

(** A list without repetition whose members are all equal to [z] has at
    most one element. *)
Lemma NoDup_constant {A : Type} (z : A) (l : list A) :
  NoDup l -> (forall x, In x l -> x = z) -> (length l <= 1)%nat.
Proof.
  intros Hnd Hall.
  destruct l as [| a [| b l]]; simpl; try lia.
  exfalso. inversion Hnd as [| ? ? Hnotin _]; subst.
  apply Hnotin. left.
  rewrite (Hall a), (Hall b); simpl; auto.
Qed.

End UniqueRows.

(** ** The star of a G-vector *)

Lemma slice_to_length {A : Type} (n : Z) (l : list A) :
  (0 <= n)%Z -> (length (slice_to n l) <= Z.to_nat n)%nat.
Proof.
  intros Hn. unfold slice_to.
  destruct (0 <=? n)%Z eqn:E; [| apply Z.leb_gt in E; lia].
  rewrite length_firstn. lia.
Qed.

Lemma slice_to_nonempty {A : Type} (n : Z) (l : list A) :
  (1 <= n)%Z -> l <> [] -> slice_to n l <> [].
Proof.
  intros Hn Hl. unfold slice_to.
  destruct (0 <=? n)%Z eqn:E; [| apply Z.leb_gt in E; lia].
  destruct l as [| a l]; [contradiction |].
  destruct (Z.to_nat n) eqn:En; [lia |].
  simpl. discriminate.
Qed.

(** The star function returns whenever the header's symmetry count is
    not negative, and its padded star has one slot per symmetry. *)
Lemma calculate_star_function_returns (num_symmetries : Z)
    (sym_ops : list imat3) (g_vector : vec3) :
  (0 <= num_symmetries)%Z ->
  let stg := np_unique_rows
               (map (fun m => imatvec m g_vector)
                  (slice_to num_symmetries sym_ops)) in
  let nst := Z.of_nat (length stg) in
  (nst <= num_symmetries)%Z /\
  calculate_star_function num_symmetries sym_ops g_vector
  = inr (nst, stg ++ repeat zero3 (Z.to_nat (num_symmetries - nst))).
Proof.
  intros Hn stg nst.
  assert (Hle : (nst <= num_symmetries)%Z).
  { subst nst stg.
    pose proof (np_unique_rows_length
                  (map (fun m => imatvec m g_vector)
                     (slice_to num_symmetries sym_ops))) as H1.
    rewrite length_map in H1.
    pose proof (slice_to_length num_symmetries sym_ops Hn) as H2.
    lia. }
  split; [exact Hle |].
  unfold calculate_star_function, np_zeros.
  fold stg. fold nst.
  destruct (num_symmetries - nst <? 0)%Z eqn:E;
    [apply Z.ltb_lt in E; lia |].
  reflexivity.
Qed.

(** C7, as the code has it: when the header announces at least one
    symmetry operation, the star function returns a count [nst] with
    [1 <= nst <= num_symmetries] and a star of [num_symmetries] slots
    whose first [nst] slots are exactly the images of the G-vector under
    the retained operations, each once, and whose other slots are zero;
    a G-vector that every retained operation sends to zero has
    [nst = 1]. *)
Theorem star_function_invariant (num_symmetries : Z) (sym_ops : list imat3)
    (g_vector : vec3) :
  (1 <= num_symmetries)%Z ->
  sym_ops <> [] ->
  exists nst stg,
    calculate_star_function num_symmetries sym_ops g_vector = inr (nst, stg) /\
    star_invariant num_symmetries sym_ops g_vector nst stg.
Proof.
  intros Hn Hops.
  destruct (calculate_star_function_returns num_symmetries sym_ops g_vector)
    as [Hle Hcalc]; [lia |].
  set (trial := map (fun m => imatvec m g_vector)
                  (slice_to num_symmetries sym_ops)) in *.
  set (stg := np_unique_rows trial) in *.
  exists (Z.of_nat (length stg)),
    (stg ++ repeat zero3 (Z.to_nat (num_symmetries - Z.of_nat (length stg)))).
  split; [exact Hcalc |].
  assert (Hne : (1 <= length stg)%nat).
  { apply np_unique_rows_nonempty. unfold trial.
    pose proof (slice_to_nonempty num_symmetries sym_ops Hn Hops) as H.
    destruct (slice_to num_symmetries sym_ops); [contradiction | discriminate]. }
  assert (Hfirst : firstn (Z.to_nat (Z.of_nat (length stg)))
                     (stg ++ repeat zero3
                        (Z.to_nat (num_symmetries - Z.of_nat (length stg))))
                   = stg).
  { rewrite Nat2Z.id, firstn_app, Nat.sub_diag, firstn_all. simpl.
    apply app_nil_r. }
  unfold star_invariant. rewrite Hfirst.
  split; [lia |].
  split; [rewrite length_app, repeat_length; lia |].
  split; [apply np_unique_rows_NoDup |].
  split.
  { intros v. unfold stg. rewrite np_unique_rows_In. unfold trial.
    rewrite in_map_iff. split.
    - intros [m [Hm Hin]]. exists m. split; [exact Hin | symmetry; exact Hm].
    - intros [m [Hin Hm]]. exists m. split; [symmetry; exact Hm | exact Hin]. }
  split.
  { intros i Hi. rewrite Nat2Z.id in Hi.
    rewrite app_nth2 by lia.
    apply nth_repeat. }
  intros Hzero.
  assert (Hlen : (length stg <= 1)%nat).
  { apply (NoDup_constant zero3); [apply np_unique_rows_NoDup |].
    intros x Hx. unfold stg in Hx. rewrite np_unique_rows_In in Hx.
    unfold trial in Hx. apply in_map_iff in Hx.
    destruct Hx as [m [Hm Hin]]. rewrite <- Hm. apply Hzero; exact Hin. }
  lia.
Qed.

Lemma star_function_invariant_witness :
  exists nst stg,
    calculate_star_function 2 (repeat identity33 192) (1, 0, 0)%R
    = inr (nst, stg) /\
    star_invariant 2 (repeat identity33 192) (1, 0, 0)%R nst stg.
Proof.
  apply (star_function_invariant 2 (repeat identity33 192) (1, 0, 0)%R).
  - lia.
  - simpl; discriminate.
Defined.

(** C7, as the spec states it, fails for a header that announces no
    symmetry operation: the star is empty and [nst = 0]. *)
Lemma star_function_no_symmetry :
  calculate_star_function 0 (repeat identity33 192) (1, 0, 0)%R = inr (0%Z, [])
  /\ ~ star_invariant 0 (repeat identity33 192) (1, 0, 0)%R 0 [].
Proof.
  split.
  - reflexivity.
  - unfold star_invariant. intros [H _]. lia.
Qed.

(** ** The parser, step by step *)

Lemma parse_steps (t1 t4 : token) (G S : Z) (l_cell l_sym : line)
    (rest : list line) (cell : mat3) (ops : list mat3) (st : loop_state)
    (stars : list (Z * list vec3)) (width : Z) :
  reshape33 (firstn 9 (fromstring l_cell)) = inr cell ->
  reshape_192_33 (firstn 1728 (fromstring l_sym)) = inr ops ->
  (0 <= G)%Z ->
  read_lines G 0 rest (LoopState (repeat zero3 (Z.to_nat G)) [] [] 0 0)
  = inr st ->
  (0 <= S)%Z ->
  mapM (calculate_star_function S (sym_ops_of ops)) (ls_g_vectors st)
  = inr stars ->
  py_max (map fst stars) = inr width ->
  _get_interpolation_parameters
    ([t1; TInt G; TInt S; t4] :: l_cell :: l_sym :: rest)
  = inr (parameters_of S cell st stars width).
Proof.
  intros Hcell Hops HG Hread HS Hstars Hmax.
  unfold _get_interpolation_parameters, readline. cbv beta iota.
  unfold int_of_token. cbn [bind ret].
  rewrite Hcell. cbn [bind]. rewrite Hops. cbn [bind].
  unfold np_zeros.
  destruct (G <? 0)%Z eqn:EG; [apply Z.ltb_lt in EG; lia |].
  cbn [bind ret]. rewrite Hread. cbn [bind].
  destruct (S <? 0)%Z eqn:ES; [apply Z.ltb_lt in ES; lia |].
  cbn [bind ret]. fold (sym_ops_of ops). rewrite Hstars. cbn [bind].
  rewrite Hmax. reflexivity.
Qed.

Lemma setitem_length {A : Type} (i : nat) (x : A) (l : list A) :
  length (setitem i x l) = length l.
Proof.
  revert i; induction l as [| a l IH]; intros [| i]; simpl;
    try reflexivity.
  rewrite IH. reflexivity.
Qed.


Lemma iband_of_band_line (G lo hi : Z) :
  map (fun b => (G + (b - lo + 1))%Z) (range lo (hi + 1))
  = iband_from G 0 (Z.to_nat (hi + 1 - lo)).
Proof.
  unfold range, iband_from. rewrite map_map, Nat.sub_0_r.
  apply map_ext. intros k. lia.
Qed.

Lemma iband_from_step (G : Z) (j n : nat) :
  (j < n)%nat ->
  iband_from G j n = (G + 1 + Z.of_nat j)%Z :: iband_from G (S j) n.
Proof.
  intros H. unfold iband_from.
  replace (n - j)%nat with (S (n - S j)) by lia.
  reflexivity.
Qed.


Lemma py_max_nonempty (l : list Z) : l <> [] -> exists w, py_max l = inr w.
Proof.
  destruct l as [| x l]; [contradiction |].
  intros _. eexists. reflexivity.
Qed.

(** For a header with a symmetry count that is not negative, the star of
    every G-vector is built. *)
Lemma stars_built (S : Z) (sym_ops : list imat3) (gs : list vec3) :
  (0 <= S)%Z ->
  exists stars,
    mapM (calculate_star_function S sym_ops) gs = inr stars /\
    length stars = length gs.
Proof.
  intros HS.
  exists (map (fun g =>
                 let stg := np_unique_rows
                              (map (fun m => imatvec m g) (slice_to S sym_ops)) in
                 (Z.of_nat (length stg),
                  stg ++ repeat zero3 (Z.to_nat (S - Z.of_nat (length stg)))))
            gs).
  split; [| apply length_map].
  apply mapM_total. intros g _.
  apply (calculate_star_function_returns S sym_ops g HS).
Qed.

(** ** Files with missing coefficient lines *)

Lemma reshape33_returns (l : list R) :
  (9 <= length l)%nat -> exists cell, reshape33 (firstn 9 l) = inr cell.
Proof.
  intros H.
  do 9 (destruct l as [| ? l]; [simpl in H; lia |]).
  simpl. eexists. reflexivity.
Qed.

Lemma reshape_192_33_returns (l : list R) :
  (1728 <= length l)%nat ->
  exists ops, reshape_192_33 (firstn 1728 l) = inr ops.
Proof.
  intros H. unfold reshape_192_33.
  rewrite length_firstn, Nat.min_l by exact H.
  rewrite Nat.eqb_refl. eexists. reflexivity.
Qed.



(** A file that is well formed up to its G-vector block is turned into a
    parameters object, whatever the loop has collected. *)
Lemma parse_after_loop (t1 t4 : token) (G S : Z) (l_cell l_sym : line)
    (rest : list line) (st : loop_state) :
  (1 <= G)%Z -> (0 <= S)%Z ->
  (9 <= length (fromstring l_cell))%nat ->
  (1728 <= length (fromstring l_sym))%nat ->
  length (ls_g_vectors st) = Z.to_nat G ->
  read_lines G 0 rest (LoopState (repeat zero3 (Z.to_nat G)) [] [] 0 0)
  = inr st ->
  exists p,
    _get_interpolation_parameters
      ([t1; TInt G; TInt S; t4] :: l_cell :: l_sym :: rest) = inr p /\
    coefficients p = ls_coefficients st /\
    min_band p = ls_min_band st /\
    max_band p = ls_max_band st.
Proof.
  intros HG HS Hcell Hsym Hgv Hread.
  destruct (reshape33_returns _ Hcell) as [cell Hc].
  destruct (reshape_192_33_returns _ Hsym) as [ops Ho].
  destruct (stars_built S (sym_ops_of ops) (ls_g_vectors st) HS)
    as [stars [Hstars Hlen]].
  destruct (py_max_nonempty (map fst stars)) as [width Hw].
  { intros E. apply (f_equal (@length Z)) in E.
    rewrite length_map, Hlen, Hgv in E. simpl in E. lia. }
  exists (parameters_of S cell st stars width).
  split; [| repeat split].
  apply parse_steps with (ops := ops); try assumption. lia.
Qed.


Lemma fromstring_ints_length (l : list Z) :
  length (fromstring (ints l)) = length l.
Proof.
  induction l as [| z l IH]; simpl; [reflexivity |].
  rewrite IH. reflexivity.
Qed.

Lemma identity_sym_line_length :
  (1728 <= length (fromstring identity_sym_line))%nat.
Proof.
  unfold identity_sym_line. rewrite fromstring_ints_length, length_app,
    repeat_length. simpl. lia.
Qed.

Lemma ints3_g_vector_line (a b c : Z) : g_vector_line (ints [a; b; c]).
Proof. eexists. reflexivity. Qed.



(** ** The squared star-vector products *)




Lemma astype_int_IZR (z : Z) : astype_int (IZR z) = z.
Proof.
  unfold astype_int. destruct (Rle_dec 0 (IZR z)) as [H | H].
  - symmetry. apply Int_part_spec. lra.
  - rewrite <- opp_IZR.
    assert (E : (- z)%Z = Int_part (IZR (- z))) by (apply Int_part_spec; lra).
    rewrite <- E. lia.
Qed.

Lemma np_unique_rows_constant (z : vec3) (l : list vec3) :
  l <> [] -> (forall x, In x l -> x = z) -> np_unique_rows l = [z].
Proof.
  intros Hne Hall.
  pose proof (np_unique_rows_nonempty l Hne) as H1.
  assert (H2 : (length (np_unique_rows l) <= 1)%nat).
  { apply (NoDup_constant z); [apply np_unique_rows_NoDup |].
    intros x Hx. apply Hall. apply np_unique_rows_In. exact Hx. }
  destruct (np_unique_rows l) as [| a [| b u]] eqn:E; simpl in *; try lia.
  f_equal. apply Hall. apply np_unique_rows_In. rewrite E. left; reflexivity.
Qed.

Lemma mirror_sym_ops :
  exists ops,
    reshape_192_33 (firstn 1728 (fromstring mirror_sym_line)) = inr ops /\
    slice_to 2 (sym_ops_of ops) = [identity33; mirror33].
Proof.
  eexists. split; [reflexivity |].
  match goal with
  | |- ?lhs = _ =>
      assert (E : lhs = [itranspose33 (astype_int33
                           ((IZR 1, IZR 0, IZR 0), (IZR 0, IZR 1, IZR 0),
                            (IZR 0, IZR 0, IZR 1))%R);
                         itranspose33 (astype_int33
                           ((IZR 1, IZR 0, IZR 0), (IZR 0, IZR 1, IZR 0),
                            (IZR 0, IZR 0, IZR (-1)))%R)])
        by reflexivity;
      rewrite E
  end.
  unfold astype_int33. rewrite !astype_int_IZR. reflexivity.
Qed.

Lemma star_in_mirror_plane (sym_ops : list imat3) (x y : R) :
  slice_to 2 sym_ops = [identity33; mirror33] ->
  calculate_star_function 2 sym_ops (x, y, 0%R)
  = inr (1%Z, [(x, y, 0%R); zero3]).
Proof.
  intros Hs.
  destruct (calculate_star_function_returns 2 sym_ops (x, y, 0%R))
    as [_ Hcalc]; [lia |].
  rewrite Hs in Hcalc.
  rewrite (np_unique_rows_constant (x, y, 0%R)) in Hcalc.
  - exact Hcalc.
  - discriminate.
  - intros v [<- | [<- | []]]; unfold identity33, mirror33, imatvec, matvec, dot3;
      repeat f_equal; lra.
Qed.

(** C2 at [mirror_plane_file]: every star has one member, so each row
    of [star_vector_products_sq] has one slot, while the rows of
    [star_vectors] have two, one per symmetry.  In the sum for the
    effective mass that one slot is then multiplied by the cosines of
    both star slots: for the G-vector (1,0,0) the first entry of the
    Hessian term is [- cos (2 pi kx) - 1], the [- 1] coming from the
    zero-padded slot. *)
Theorem products_sq_narrower_than_star :
  exists p,
    _get_interpolation_parameters mirror_plane_file = inr p /\
    num_symmetries p = 2%Z /\
    num_star_vectors p = [1; 1]%Z /\
    map (@length vec3) (star_vectors p) = [2; 2]%nat /\
    map (@length mat3) (star_vector_products_sq p) = [1; 1]%nat /\
    forall kx ky kz : R,
      exists m0 m1,
        ddspwre_of p (phase_args p (kx, ky, kz)) = inr [m0; m1] /\
        fst3 (fst (fst m1)) = (- cos (2 * PI * kx) - 1)%R.
Proof.
  destruct mirror_sym_ops as [ops [Hops Hslice]].
  eexists. split.
  - unfold mirror_plane_file. change (ints [1; 2; 2; 1]%Z)
      with [TInt 1; TInt 2; TInt 2; TInt 1].
    eapply parse_steps.
    + reflexivity.
    + exact Hops.
    + lia.
    + reflexivity.
    + lia.
    + cbn [mapM ls_g_vectors setitem Z.to_nat repeat].
      simpl setitem.
      cbn [mapM].
      rewrite !(star_in_mirror_plane _ _ _ Hslice). reflexivity.
    + reflexivity.
  - split; [reflexivity |]. split; [reflexivity |].
    split; [reflexivity |]. split; [reflexivity |].
    intros kx ky kz. eexists. eexists. split; [reflexivity |].
    cbn.
    replace (2 * PI * (1 * kx + 0 * ky + 0 * kz))%R
      with (2 * PI * kx)%R by ring.
    replace (2 * PI * (0 * kx + 0 * ky + 0 * kz))%R with 0%R by ring.
    rewrite cos_0. field.
Qed.

(** ** The energy of one band *)

Section EnergyFormula.
Local Open Scope R_scope.

Variable consts : Constants.

Lemma sum_upto_ext (n : nat) (f g : nat -> R) :
  (forall i, (i < n)%nat -> f i = g i) -> sum_upto n f = sum_upto n g.
Proof.
  revert f g; induction n as [| n IH]; intros f g H; simpl.
  - reflexivity.
  - rewrite (H O) by lia. f_equal. apply IH. intros i Hi. apply H. lia.
Qed.

Lemma Rsum_sum_upto (l : list R) :
  Rsum l = sum_upto (length l) (fun i => nth i l 0).
Proof.
  induction l as [| x l IH]; [reflexivity |].
  change (Rsum (x :: l)) with (x + Rsum l). rewrite IH. reflexivity.
Qed.

Lemma nth_map_in {A B : Type} (f : A -> B) (l : list A) (i : nat)
    (d : A) (d' : B) :
  (i < length l)%nat -> nth i (map f l) d' = f (nth i l d).
Proof.
  intros H. rewrite (nth_indep _ d' (f d)) by (rewrite length_map; exact H).
  apply map_nth.
Qed.

Lemma broadcast2_same_length {A B C : Type} (f : A -> B -> result C)
    (g : A -> B -> C) (a : list A) (b : list B) :
  length a = length b ->
  (forall x y, f x y = inr (g x y)) ->
  broadcast2 f a b = inr (map (fun '(x, y) => g x y) (combine a b)).
Proof.
  intros Hlen Hf. unfold broadcast2.
  rewrite Hlen, Nat.eqb_refl.
  apply mapM_total. intros [x y] _. apply Hf.
Qed.

(** With one star per G-vector count, [spwre] is defined and holds, at
    each G-vector, the symmetrized plane wave of the spec. *)
Lemma spwre_of_spec (p : BoltzTraP1Parameters) (kpoint : vec3) :
  length (star_vectors p) = length (num_star_vectors p) ->
  exists spwre,
    spwre_of p (phase_args p kpoint) = inr spwre /\
    length spwre = length (star_vectors p) /\
    forall g, (g < length (star_vectors p))%nat ->
              nth g spwre 0 = spec_S p kpoint g.
Proof.
  intros Hlen. unfold spwre_of, phase_args.
  set (sums := map Rsum
                 (map (map cos)
                    (map (map (fun v => 2 * PI * dot3 v kpoint))
                       (star_vectors p)))).
  set (pad := map (fun nst => IZR (num_symmetries p - nst))
                (num_star_vectors p)).
  assert (Hsums : length sums = length (star_vectors p))
    by (unfold sums; rewrite !length_map; reflexivity).
  assert (Hpad : length pad = length (star_vectors p))
    by (unfold pad; rewrite length_map; symmetry; exact Hlen).
  rewrite (broadcast2_same_length _ (fun s d => s - d))
    by (try reflexivity; congruence).
  cbn [bind].
  set (diff := map (fun '(x, y) => x - y) (combine sums pad)).
  assert (Hdiff : length diff = length (star_vectors p)).
  { unfold diff. rewrite length_map, length_combine, Hsums, Hpad.
    apply Nat.min_id. }
  rewrite (broadcast2_same_length _ (fun x nst => x / IZR nst))
    by (try reflexivity; congruence).
  eexists. split; [reflexivity |]. split.
  { rewrite length_map, length_combine, Hdiff, <- Hlen. apply Nat.min_id. }
  intros g Hg.
  rewrite (nth_map_in _ _ g (0, 0%Z))
    by (rewrite length_combine, Hdiff, <- Hlen, Nat.min_id; exact Hg).
  rewrite combine_nth by congruence.
  unfold diff.
  rewrite (nth_map_in _ _ g (0, 0))
    by (rewrite length_combine, Hsums, Hpad, Nat.min_id; exact Hg).
  rewrite combine_nth by congruence.
  unfold spec_S. f_equal. f_equal.
  - unfold sums.
    rewrite (nth_map_in _ _ g []) by (rewrite !length_map; exact Hg).
    rewrite (nth_map_in _ _ g []) by (rewrite length_map; exact Hg).
    rewrite (nth_map_in _ _ g []) by exact Hg.
    rewrite Rsum_sum_upto, !length_map.
    apply sum_upto_ext. intros i Hi.
    rewrite (nth_map_in _ _ i 0) by (rewrite length_map; exact Hi).
    rewrite (nth_map_in _ _ i zero3) by exact Hi.
    reflexivity.
  - unfold pad.
    rewrite (nth_map_in _ _ g 0%Z) by (rewrite <- Hlen; exact Hg).
    apply minus_IZR.
Qed.

Lemma dotR_sum_upto (a b : list R) :
  length a = length b ->
  dotR a b = sum_upto (length b) (fun g => nth g a 0 * nth g b 0).
Proof.
  intros Hlen. unfold dotR.
  rewrite Rsum_sum_upto, length_map, length_combine, Hlen, Nat.min_id.
  apply sum_upto_ext. intros i Hi.
  rewrite (nth_map_in _ _ i (0, 0))
    by (rewrite length_combine, Hlen, Nat.min_id; exact Hi).
  rewrite combine_nth by exact Hlen. reflexivity.
Qed.

(** C1: for a parameters object with one star per G-vector count and a
    coefficient vector with one entry per G-vector, the evaluator
    returns [dot(S, coefficients) * Ry_to_eV], where [S[g]] is the sum
    of [cos(2 pi star_vectors[g][i] . kpoint)] over the star slots,
    less [num_symmetries - num_star_vectors[g]], over
    [num_star_vectors[g]].  The energy is the first entry of the result
    whichever derivatives are asked for. *)
Theorem energy_formula (_parameters : registry) (parameters_id : Z)
    (p : BoltzTraP1Parameters) (matrix : mat3) (kpoint : vec3)
    (c : list R) :
  registry_get _parameters parameters_id = inr p ->
  length (star_vectors p) = length (num_star_vectors p) ->
  length c = length (star_vectors p) ->
  _get_energy_wrapper consts _parameters (Band c) parameters_id matrix kpoint
    false false
  = inr [Arr0 (spec_energy consts p kpoint c)]
  /\ forall return_velocity return_effective_mass to_return,
       _get_energy_wrapper consts _parameters (Band c) parameters_id matrix
         kpoint return_velocity return_effective_mass = inr to_return ->
       exists rest, to_return = Arr0 (spec_energy consts p kpoint c) :: rest.
Proof.
  intros Hreg Hlen Hc.
  destruct (spwre_of_spec p kpoint Hlen) as [spwre [Hsp [Hsl Hnth]]].
  assert (Henergy : dotR spwre c
                    = sum_upto (length c)
                        (fun g => spec_S p kpoint g * nth g c 0)).
  { rewrite dotR_sum_upto by congruence.
    apply sum_upto_ext. intros g Hg. rewrite Hnth by lia. reflexivity. }
  assert (Hdot : energy_dot spwre (Band c) = inr (Arr0 (dotR spwre c))).
  { unfold energy_dot. rewrite Hsl, <- Hc, Nat.eqb_refl. reflexivity. }
  split.
  - unfold _get_energy_wrapper. rewrite Hreg. cbn [bind].
    rewrite Hsp. cbn [bind]. rewrite Hdot. cbn [bind ret nd_scale].
    rewrite Henergy. reflexivity.
  - intros rv rm to_return H.
    unfold _get_energy_wrapper in H. rewrite Hreg in H. cbn [bind] in H.
    rewrite Hsp in H. cbn [bind] in H. rewrite Hdot in H.
    cbn [bind nd_scale] in H. rewrite Henergy in H.
    fold (spec_energy consts p kpoint c) in H.
    apply bind_inr in H. destruct H as [tr [Htr H]].
    assert (Hhead : exists rest, tr = Arr0 (spec_energy consts p kpoint c) :: rest).
    { destruct rv.
      - apply bind_inr in Htr. destruct Htr as [d [_ Htr]].
        apply bind_inr in Htr. destruct Htr as [v [_ Htr]].
        injection Htr as <-. eexists; reflexivity.
      - injection Htr as <-. eexists; reflexivity. }
    destruct Hhead as [rest ->].
    destruct rm.
    + apply bind_inr in H. destruct H as [dd [_ H]].
      apply bind_inr in H. destruct H as [m [_ H]].
      injection H as <-. eexists; reflexivity.
    + injection H as <-. eexists; reflexivity.
Qed.

End EnergyFormula.

Lemma energy_formula_witness :
  _get_energy_wrapper unit_constants small_registry (Band [0.5%R]) 7
    (_lattice_matrix small_interpolater) (0, 0, 0)%R false false
  = inr [Arr0 (spec_energy unit_constants small_parameters (0, 0, 0)%R
                 [0.5%R])]
  /\ forall return_velocity return_effective_mass to_return,
       _get_energy_wrapper unit_constants small_registry (Band [0.5%R]) 7
         (_lattice_matrix small_interpolater) (0, 0, 0)%R
         return_velocity return_effective_mass = inr to_return ->
       exists rest,
         to_return
         = Arr0 (spec_energy unit_constants small_parameters (0, 0, 0)%R
                   [0.5%R]) :: rest.
Proof.
  apply (energy_formula unit_constants small_registry 7 small_parameters);
    reflexivity.
Defined.

(** ** The pool against the sequential map *)

Lemma run_map_result {B : Type} (f : vec3 -> result B) (kpoints : list vec3) :
  snd (run_map f kpoints) = mapM f kpoints.
Proof.
  induction kpoints as [| k rest IH]; simpl; [reflexivity |].
  destruct (f k) as [err | b]; simpl; [reflexivity |].
  destruct (run_map f rest) as [t r]. simpl in *. rewrite IH. reflexivity.
Qed.

(** The calls [list(map(fun, kpoints))] makes are calls on k-points of
    the input. *)
Lemma run_map_calls {B : Type} (f : vec3 -> result B) (kpoints : list vec3)
    (ev : event) :
  In ev (fst (run_map f kpoints)) -> exists k, ev = Evaluate k /\ In k kpoints.
Proof.
  induction kpoints as [| k rest IH]; simpl; [intros [] |].
  destruct (f k) as [err | b]; simpl.
  - intros [<- | []]. exists k. auto.
  - destruct (run_map f rest) as [t r]. simpl in *.
    intros [<- | H]; [exists k; auto |].
    destruct (IH H) as [k' [-> Hk']]. exists k'. auto.
Qed.

Lemma chunks_fuel_concat {A : Type} (size fuel : nat) (l : list A) :
  (1 <= size)%nat -> (length l <= fuel)%nat ->
  concat (chunks_fuel fuel size l) = l
  /\ Forall (fun c => c <> []) (chunks_fuel fuel size l).
Proof.
  intros Hsize. revert l; induction fuel as [| fuel IH]; intros l Hl.
  - destruct l; [split; [reflexivity | constructor] | simpl in Hl; lia].
  - destruct l as [| a l]; [split; [reflexivity | constructor] |].
    cbn [chunks_fuel concat].
    destruct (IH (skipn size (a :: l))) as [Hc Hne].
    { rewrite length_skipn. cbn [length] in *. lia. }
    split.
    + rewrite Hc. apply firstn_skipn.
    + constructor; [| exact Hne].
      destruct size; [lia | simpl; discriminate].
Qed.

Lemma pool_chunksize_positive (items workers : nat) :
  (1 <= items)%nat -> (1 <= pool_chunksize items workers)%nat.
Proof.
  intros Hi. unfold pool_chunksize.
  destruct (items =? 0)%nat eqn:E0; [apply Nat.eqb_eq in E0; lia |].
  destruct (items mod (workers * 4) =? 0)%nat eqn:E; [| lia].
  apply Nat.eqb_eq in E.
  pose proof (Nat.div_mod_eq items (workers * 4)) as H.
  rewrite E in H.
  destruct (items / (workers * 4))%nat; [lia | lia].
Qed.

Lemma pool_tasks (workers : nat) (kpoints : list vec3) :
  let tasks := chunks (pool_chunksize (length kpoints) workers) kpoints in
  concat tasks = kpoints /\ Forall (fun c => c <> []) tasks.
Proof.
  destruct kpoints as [| k rest].
  - split; [reflexivity | constructor].
  - apply chunks_fuel_concat; [| lia].
    apply pool_chunksize_positive. simpl; lia.
Qed.

Lemma stored_task {B : Type} (f : vec3 -> result B) (tasks : list (list vec3))
    (completion : list nat) (i : nat) :
  In i completion ->
  stored i (map (fun j => (j, run_map f (nth j tasks []))) completion)
  = task_value f (nth i tasks []).
Proof.
  induction completion as [| j completion IH]; [intros [] |].
  intros Hin. cbn [map stored].
  destruct (run_map f (nth j tasks [])) as [t r] eqn:Hrun.
  destruct (j =? i)%nat eqn:E.
  - apply Nat.eqb_eq in E; subst j.
    unfold task_value. rewrite <- run_map_result, Hrun. reflexivity.
  - apply IH. destruct Hin as [-> | Hin]; [| exact Hin].
    rewrite Nat.eqb_refl in E. discriminate.
Qed.

Lemma first_failure_none {B : Type} (f : vec3 -> result B)
    (tasks : list (list vec3)) (completion : list nat) :
  (forall i, In i completion -> exists bs, mapM f (nth i tasks []) = inr bs) ->
  first_failure (map (fun j => (j, run_map f (nth j tasks []))) completion)
  = None.
Proof.
  induction completion as [| j completion IH]; intros H; [reflexivity |].
  cbn [map first_failure].
  destruct (run_map f (nth j tasks [])) as [t r] eqn:Hrun.
  destruct (H j (or_introl eq_refl)) as [bs Hbs].
  rewrite <- run_map_result, Hrun in Hbs. simpl in Hbs. subst r.
  apply IH. intros i Hi. apply H. right; exact Hi.
Qed.

Lemma mapM_app {A B : Type} (f : A -> result B) (l1 l2 : list A) :
  mapM f (l1 ++ l2)
  = (b1 <- mapM f l1 ;; b2 <- mapM f l2 ;; ret (b1 ++ b2)).
Proof.
  induction l1 as [| a l1 IH]; simpl.
  - destruct (mapM f l2); reflexivity.
  - destruct (f a) as [err | b]; simpl; [reflexivity |].
    rewrite IH.
    destruct (mapM f l1) as [err | b1]; simpl; [reflexivity |].
    destruct (mapM f l2) as [err | b2]; reflexivity.
Qed.

Lemma mapM_concat {B : Type} (f : vec3 -> result B) (ll : list (list vec3))
    (bs : list B) :
  mapM f (concat ll) = inr bs ->
  (forall c, In c ll -> exists b, mapM f c = inr b)
  /\ bs = concat (map (task_value f) ll).
Proof.
  revert bs; induction ll as [| c ll IH]; intros bs H; simpl in *.
  - injection H as <-. split; [intros c [] | reflexivity].
  - rewrite mapM_app in H.
    destruct (mapM f c) as [err | b1] eqn:Hc; simpl in H; [discriminate |].
    destruct (mapM f (concat ll)) as [err | b2] eqn:Hll; simpl in H;
      [discriminate |].
    injection H as <-.
    destruct (IH b2 eq_refl) as [Hall Hb2].
    split.
    + intros c' [<- | Hin]; [exists b1; exact Hc | apply Hall; exact Hin].
    + unfold task_value at 1. rewrite Hc, Hb2. reflexivity.
Qed.

Lemma map_nth_seq {A : Type} (l : list A) (d : A) :
  map (fun i => nth i l d) (seq 0 (length l)) = l.
Proof.
  induction l as [| a l IH]; simpl; [reflexivity |].
  rewrite <- seq_shift, map_map. simpl. rewrite IH. reflexivity.
Qed.

(** The pool returns what the sequential map returns, whatever the
    order in which its tasks finish. *)
Lemma pool_map_result {B : Type} (processes : Z) (completion : list nat)
    (f : vec3 -> result B) (kpoints : list vec3) :
  (1 <= processes)%Z ->
  Permutation completion (seq 0 (task_count processes kpoints)) ->
  uniform_failure f ->
  snd (pool_map processes completion f kpoints) = mapM f kpoints.
Proof.
  intros HN Hperm Hunif. unfold pool_map, task_count in *.
  destruct (processes <? 1)%Z eqn:E; [apply Z.ltb_lt in E; lia |].
  destruct (pool_tasks (Z.to_nat processes) kpoints) as [Hcat Hne].
  set (tasks := chunks (pool_chunksize (length kpoints) (Z.to_nat processes))
                  kpoints) in *.
  cbv zeta.
  destruct (mapM f kpoints) as [err | bs] eqn:Hseq.
  - (* every call fails with [err]; so does the task that finishes first *)
    destruct (mapM_inl f kpoints err Hseq) as [k0 [Hk0 Hf0]].
    assert (Hall : forall k, f k = inl err) by (intros k; exact (Hunif k0 k err Hf0)).
    destruct tasks as [| c tasks'] eqn:Ht.
    { simpl in Hcat. subst kpoints. contradiction. }
    destruct completion as [| i completion'].
    { apply Permutation_nil in Hperm. discriminate. }
    assert (Hi : (i < length (c :: tasks'))%nat).
    { apply (Permutation_in i) in Hperm; [| left; reflexivity].
      apply in_seq in Hperm. lia. }
    assert (Hchunk : nth i (c :: tasks') [] <> []).
    { rewrite Forall_forall in Hne. apply Hne. apply nth_In. exact Hi. }
    cbn [map first_failure].
    destruct (nth i (c :: tasks') []) as [| k ch]; [contradiction |].
    cbn [run_map]. rewrite (Hall k). reflexivity.
  - destruct (mapM_concat f tasks bs) as [Hok Hbs];
      [rewrite Hcat; exact Hseq |].
    rewrite first_failure_none.
    + cbn [snd]. unfold ret. f_equal. rewrite Hbs.
      rewrite <- (map_nth_seq tasks []) at 2. rewrite map_map.
      f_equal. apply map_ext_in. intros i Hi.
      apply stored_task.
      apply Permutation_sym in Hperm.
      exact (Permutation_in i Hperm Hi).
    + intros i Hi.
      apply (Permutation_in i) in Hperm; [| exact Hi].
      apply in_seq in Hperm.
      apply Hok. apply nth_In. lia.
Qed.

(** ** Failure of the evaluator does not depend on the k-point *)

Lemma bind_same_outcome {A B : Type} (RA : A -> A -> Prop)
    (RB : B -> B -> Prop) (m m' : result A) (k k' : A -> result B) :
  same_outcome RA m m' ->
  (forall a a', RA a a' -> same_outcome RB (k a) (k' a')) ->
  same_outcome RB (bind m k) (bind m' k').
Proof.
  destruct m as [err | a], m' as [err' | a']; simpl; intros H Hk;
    try contradiction.
  - exact H.
  - apply Hk; exact H.
Qed.

Lemma mapM_same_outcome {A B : Type} (RA : A -> A -> Prop)
    (RB : B -> B -> Prop) (f f' : A -> result B) (l l' : list A) :
  Forall2 RA l l' ->
  (forall x x', RA x x' -> same_outcome RB (f x) (f' x')) ->
  same_outcome (Forall2 RB) (mapM f l) (mapM f' l').
Proof.
  intros Hl Hf. induction Hl as [| x x' l l' Hx _ IH]; simpl.
  - constructor.
  - apply (bind_same_outcome RB); [apply Hf; exact Hx |].
    intros b b' Hb.
    apply (bind_same_outcome (Forall2 RB)); [exact IH |].
    intros bs bs' Hbs. simpl. constructor; assumption.
Qed.

Lemma Forall2_combine {A B : Type} (RA : A -> A -> Prop)
    (RB : B -> B -> Prop) (a a' : list A) (b b' : list B) :
  Forall2 RA a a' -> Forall2 RB b b' ->
  Forall2 (fun u u' => RA (fst u) (fst u') /\ RB (snd u) (snd u'))
    (combine a b) (combine a' b').
Proof.
  intros Ha. revert b b'.
  induction Ha as [| x x' a a' Hx _ IH]; intros b b' Hb; simpl.
  - constructor.
  - destruct Hb as [| y y' b b' Hy Hb]; constructor.
    + split; assumption.
    + apply IH; exact Hb.
Qed.

Lemma broadcast2_same_outcome {A B C : Type} (RA : A -> A -> Prop)
    (RB : B -> B -> Prop) (RC : C -> C -> Prop)
    (f f' : A -> B -> result C) (a a' : list A) (b b' : list B) :
  Forall2 RA a a' -> Forall2 RB b b' ->
  (forall x x' y y', RA x x' -> RB y y' ->
                     same_outcome RC (f x y) (f' x' y')) ->
  same_outcome (Forall2 RC) (broadcast2 f a b) (broadcast2 f' a' b').
Proof.
  intros Ha Hb Hf. unfold broadcast2.
  rewrite <- (Forall2_length Ha), <- (Forall2_length Hb).
  destruct (length a =? length b)%nat.
  - apply (mapM_same_outcome
             (fun u u' => RA (fst u) (fst u') /\ RB (snd u) (snd u'))).
    + apply Forall2_combine; assumption.
    + intros [x y] [x' y'] [Hx Hy]. apply Hf; assumption.
  - destruct Ha as [| x x' a a' Hx Ha].
    + destruct Hb as [| y y' b b' Hy Hb]; [reflexivity |].
      destruct Hb; [| reflexivity].
      apply (mapM_same_outcome RA); [constructor |].
      intros u u' Hu. apply Hf; assumption.
    + destruct Ha as [| x2 x2' a a' Hx2 Ha].
      * apply (mapM_same_outcome RB); [exact Hb |].
        intros y y' Hy. apply Hf; assumption.
      * destruct Hb as [| y y' b b' Hy Hb]; [reflexivity |].
        destruct Hb; [| reflexivity].
        apply (mapM_same_outcome RA);
          [constructor; [exact Hx | constructor; assumption] |].
        intros u u' Hu. apply Hf; assumption.
Qed.

Lemma Forall2_any_length {A : Type} (l l' : list A) :
  length l = length l' -> Forall2 any l l'.
Proof.
  revert l'; induction l as [| a l IH]; intros [| a' l'] H; simpl in H;
    try discriminate; constructor; [exact I | apply IH; lia].
Qed.

Lemma Forall2_map_both {A B : Type} (R : B -> B -> Prop) (f g : A -> B)
    (l : list A) :
  (forall x, R (f x) (g x)) -> Forall2 R (map f l) (map g l).
Proof.
  intros H. induction l; simpl; constructor; auto.
Qed.

Lemma Forall2_map2 {A B : Type} (RA : A -> A -> Prop) (RB : B -> B -> Prop)
    (f : A -> B) (l l' : list A) :
  (forall x x', RA x x' -> RB (f x) (f x')) ->
  Forall2 RA l l' -> Forall2 RB (map f l) (map f l').
Proof.
  intros H. induction 1; simpl; constructor; auto.
Qed.

Lemma Forall2_refl_any {A : Type} (l : list A) : Forall2 any l l.
Proof. induction l; constructor; [exact I | assumption]. Qed.

Lemma Forall2_refl_any2 {A : Type} (l : list (list A)) :
  Forall2 (Forall2 any) l l.
Proof. induction l; constructor; [apply Forall2_refl_any | assumption]. Qed.

Section UniformFailure.
Local Open Scope R_scope.

Variable consts : Constants.

Lemma phase_args_shape (p : BoltzTraP1Parameters) (k k' : vec3) :
  Forall2 (Forall2 any) (phase_args p k) (phase_args p k').
Proof.
  unfold phase_args. apply Forall2_map_both. intros row.
  apply Forall2_map_both. intros v. exact I.
Qed.

Lemma map_map_shape (f : R -> R) (a a' : list (list R)) :
  Forall2 (Forall2 any) a a' ->
  Forall2 (Forall2 any) (map (map f) a) (map (map f) a').
Proof.
  apply Forall2_map2. intros x x' H.
  apply Forall2_any_length. rewrite !length_map.
  exact (Forall2_length H).
Qed.

Lemma spwre_of_shape (p : BoltzTraP1Parameters) (a a' : list (list R)) :
  Forall2 (Forall2 any) a a' ->
  same_outcome (Forall2 any) (spwre_of p a) (spwre_of p a').
Proof.
  intros H. unfold spwre_of.
  apply (bind_same_outcome (Forall2 any)).
  - apply (broadcast2_same_outcome any any any).
    + apply (Forall2_map2 (Forall2 any)); [intros; exact I |].
      apply map_map_shape; exact H.
    + apply Forall2_refl_any.
    + intros; exact I.
  - intros d d' Hd.
    apply (broadcast2_same_outcome any any any);
      [exact Hd | apply Forall2_refl_any | intros; exact I].
Qed.

Lemma dspwre_of_shape (p : BoltzTraP1Parameters) (a a' : list (list R)) :
  Forall2 (Forall2 any) a a' ->
  same_outcome (Forall2 any) (dspwre_of p a) (dspwre_of p a').
Proof.
  intros H. unfold dspwre_of.
  apply (bind_same_outcome (Forall2 (Forall2 any))).
  - apply (broadcast2_same_outcome (Forall2 any) (Forall2 any) (Forall2 any)).
    + apply Forall2_refl_any2.
    + apply map_map_shape; exact H.
    + intros vs vs' ss ss' Hv Hs.
      apply (broadcast2_same_outcome any any any);
        [exact Hv | exact Hs | intros; exact I].
  - intros d d' Hd.
    apply (broadcast2_same_outcome any any any).
    + apply (Forall2_map2 (Forall2 any)); [intros; exact I | exact Hd].
    + apply Forall2_refl_any.
    + intros; exact I.
Qed.

Lemma ddspwre_of_shape (p : BoltzTraP1Parameters) (a a' : list (list R)) :
  Forall2 (Forall2 any) a a' ->
  same_outcome (Forall2 any) (ddspwre_of p a) (ddspwre_of p a').
Proof.
  intros H. unfold ddspwre_of.
  apply (bind_same_outcome (Forall2 (Forall2 any))).
  - apply (broadcast2_same_outcome (Forall2 any) (Forall2 any) (Forall2 any)).
    + apply Forall2_refl_any2.
    + apply map_map_shape; exact H.
    + intros vs vs' ss ss' Hv Hs.
      apply (broadcast2_same_outcome any any any);
        [exact Hv | exact Hs | intros; exact I].
  - intros d d' Hd.
    apply (broadcast2_same_outcome any any any).
    + apply (Forall2_map2 (Forall2 any)); [intros; exact I | exact Hd].
    + apply Forall2_refl_any.
    + intros; exact I.
Qed.

Lemma energy_dot_shape (sp sp' : list R) (c : coeff_block) :
  Forall2 any sp sp' ->
  same_outcome any (energy_dot sp c) (energy_dot sp' c).
Proof.
  intros H. unfold energy_dot. rewrite <- (Forall2_length H).
  destruct c as [row | rows];
    match goal with |- context [(?a =? ?b)%nat] => destruct (a =? b)%nat end;
    simpl; auto; exact I.
Qed.

Lemma velocity_entry_shape (d d' : list vec3) (matrix : mat3)
    (c : coeff_block) :
  Forall2 any d d' ->
  same_outcome any (velocity_entry consts d matrix c)
    (velocity_entry consts d' matrix c).
Proof.
  intros H. unfold velocity_entry. rewrite <- (Forall2_length H).
  destruct c as [row | rows];
    match goal with |- context [(?a =? ?b)%nat] => destruct (a =? b)%nat end;
    simpl; auto; exact I.
Qed.

Lemma effective_mass_entry_shape (d d' : list mat3) (c : coeff_block) :
  Forall2 any d d' ->
  same_outcome any (effective_mass_entry consts d c)
    (effective_mass_entry consts d' c).
Proof.
  intros H. unfold effective_mass_entry. rewrite <- (Forall2_length H).
  destruct c as [row | rows];
    match goal with |- context [(?a =? ?b)%nat] => destruct (a =? b)%nat end;
    simpl; auto; exact I.
Qed.

(** At two k-points the evaluator raises the same exception or returns
    at both. *)
Lemma wrapper_same_outcome (_parameters : registry) (c : coeff_block)
    (parameters_id : Z) (matrix : mat3) (k k' : vec3) (rv rm : bool) :
  same_outcome any
    (_get_energy_wrapper consts _parameters c parameters_id matrix k rv rm)
    (_get_energy_wrapper consts _parameters c parameters_id matrix k' rv rm).
Proof.
  unfold _get_energy_wrapper.
  destruct (registry_get _parameters parameters_id) as [err | p];
    [reflexivity |].
  cbn [bind].
  pose proof (phase_args_shape p k k') as Harg.
  apply (bind_same_outcome (Forall2 any)); [apply spwre_of_shape; exact Harg |].
  intros sp sp' Hsp.
  apply (bind_same_outcome any); [apply energy_dot_shape; exact Hsp |].
  intros en en' _.
  apply (bind_same_outcome any).
  - destruct rv; [| exact I].
    apply (bind_same_outcome (Forall2 any));
      [apply dspwre_of_shape; exact Harg |].
    intros d d' Hd.
    apply (bind_same_outcome any); [apply velocity_entry_shape; exact Hd |].
    intros; exact I.
  - intros tr tr' _.
    destruct rm; [| exact I].
    apply (bind_same_outcome (Forall2 any));
      [apply ddspwre_of_shape; exact Harg |].
    intros d d' Hd.
    apply (bind_same_outcome any);
      [apply effective_mass_entry_shape; exact Hd |].
    intros; exact I.
Qed.

Lemma wrapper_uniform_failure (_parameters : registry) (c : coeff_block)
    (parameters_id : Z) (matrix : mat3) (rv rm : bool) :
  uniform_failure
    (fun k => _get_energy_wrapper consts _parameters c parameters_id matrix
                k rv rm).
Proof.
  intros k k' err H.
  pose proof (wrapper_same_outcome _parameters c parameters_id matrix k k'
                rv rm) as Hs.
  rewrite H in Hs.
  destruct (_get_energy_wrapper consts _parameters c parameters_id matrix
              k' rv rm); simpl in Hs; [subst; reflexivity | contradiction].
Qed.

End UniformFailure.

(** ** Which exceptions a call can raise *)

Lemma raises_only_bind {A B : Type} (P : exn -> Prop) (m : result A)
    (k : A -> result B) :
  raises_only P m -> (forall a, raises_only P (k a)) ->
  raises_only P (bind m k).
Proof.
  destruct m as [err | a]; simpl; intros Hm Hk; [exact Hm | apply Hk].
Qed.

Lemma raises_only_mapM {A B : Type} (P : exn -> Prop) (f : A -> result B)
    (l : list A) :
  (forall a, raises_only P (f a)) -> raises_only P (mapM f l).
Proof.
  intros Hf. induction l as [| a l IH]; simpl; [exact I |].
  apply raises_only_bind; [apply Hf |]. intros b.
  apply raises_only_bind; [exact IH |]. intros bs. exact I.
Qed.

Lemma raises_only_broadcast2 {A B C : Type} (P : exn -> Prop)
    (f : A -> B -> result C) (a : list A) (b : list B) :
  P (ValueError "operands could not be broadcast together") ->
  (forall x y, raises_only P (f x y)) ->
  raises_only P (broadcast2 f a b).
Proof.
  intros HP Hf. unfold broadcast2.
  destruct (length a =? length b)%nat.
  - apply raises_only_mapM. intros [x y]. apply Hf.
  - destruct a as [| x [| x2 a]].
    + destruct b as [| y [| y2 b]]; simpl; auto.
    + apply raises_only_mapM. intros y. apply Hf.
    + destruct b as [| y [| y2 b]]; simpl; auto.
      apply raises_only_bind; [apply Hf |]. intros c.
      apply raises_only_bind; [| intros; exact I].
      apply raises_only_bind; [apply Hf |]. intros c2.
      apply raises_only_bind; [| intros; exact I].
      apply raises_only_mapM. intros u. apply Hf.
Qed.

Lemma raises_only_getitem {A : Type} (P : exn -> Prop) (l : list A) (i : Z) :
  P (IndexError "index out of bounds") -> raises_only P (getitem l i).
Proof.
  intros HP. unfold getitem. cbv zeta.
  match goal with |- context [if ?c then _ else _] => destruct c end;
    [| exact HP].
  match goal with |- context [nth_error l ?n] => destruct (nth_error l n) end;
    [exact I | exact HP].
Qed.

Lemma raises_only_registry_get (P : exn -> Prop) (_parameters : registry)
    (key : Z) :
  (forall k, P (KeyError k)) -> raises_only P (registry_get _parameters key).
Proof.
  intros HP. induction _parameters as [| [k p] rest IH]; simpl; [apply HP |].
  destruct (k =? key)%Z; [exact I | exact IH].
Qed.

Lemma evaluation_error_not_missing (err : exn) :
  evaluation_error err -> err <> missing_is_cb.
Proof.
  unfold missing_is_cb. destruct err as [msg | msg | key | msg]; simpl;
    try discriminate.
  intros [-> | [-> | [-> | [p ->]]]]; discriminate.
Qed.

Section RaisedExceptions.

Variable consts : Constants.

Lemma wrapper_raises (_parameters : registry) (c : coeff_block)
    (parameters_id : Z) (matrix : mat3) (k : vec3) (rv rm : bool) :
  raises_only evaluation_error
    (_get_energy_wrapper consts _parameters c parameters_id matrix k rv rm).
Proof.
  assert (Hb : evaluation_error
                 (ValueError "operands could not be broadcast together"))
    by (left; reflexivity).
  assert (Hs : forall A, raises_only evaluation_error (@shapes_not_aligned A))
    by (intros A; right; left; reflexivity).
  unfold _get_energy_wrapper.
  apply raises_only_bind;
    [apply raises_only_registry_get; intros; exact I |]. intros p.
  apply raises_only_bind.
  { unfold spwre_of. apply raises_only_bind.
    - apply raises_only_broadcast2; [exact Hb | intros; exact I].
    - intros d. apply raises_only_broadcast2; [exact Hb | intros; exact I]. }
  intros sp. apply raises_only_bind.
  { unfold energy_dot. destruct c;
      match goal with |- context [(?a =? ?b)%nat] => destruct (a =? b)%nat end;
      simpl; auto. }
  intros en. apply raises_only_bind.
  { destruct rv; [| exact I].
    apply raises_only_bind.
    - unfold dspwre_of. apply raises_only_bind.
      + apply raises_only_broadcast2; [exact Hb |]. intros vs ss.
        apply raises_only_broadcast2; [exact Hb | intros; exact I].
      + intros d. apply raises_only_broadcast2; [exact Hb | intros; exact I].
    - intros d. apply raises_only_bind; [| intros; exact I].
      unfold velocity_entry. destruct c;
        match goal with |- context [(?a =? ?b)%nat] => destruct (a =? b)%nat end;
        simpl; auto. }
  intros tr. destruct rm; [| exact I].
  apply raises_only_bind.
  - unfold ddspwre_of. apply raises_only_bind.
    + apply raises_only_broadcast2; [exact Hb |]. intros vs ss.
      apply raises_only_broadcast2; [exact Hb | intros; exact I].
    + intros d. apply raises_only_broadcast2; [exact Hb | intros; exact I].
  - intros d. apply raises_only_bind; [| intros; exact I].
    unfold effective_mass_entry. destruct c;
      match goal with |- context [(?a =? ?b)%nat] => destruct (a =? b)%nat end;
      simpl; auto.
Qed.

Lemma coefficients_raise (self : BoltzTraP1Interpolater)
    (_parameters : registry) (iband : iband_arg) :
  raises_only evaluation_error
    (_get_interpolation_coefficients self _parameters iband).
Proof.
  unfold _get_interpolation_coefficients, parameters.
  apply raises_only_bind;
    [apply raises_only_registry_get; intros; exact I |]. intros p.
  destruct (negb _).
  - simpl. right; right; right. exists p. reflexivity.
  - apply raises_only_bind.
    + apply raises_only_mapM. intros b. apply raises_only_getitem. exact I.
    + intros rows. destruct (_ =? _)%nat; [| exact I].
      apply raises_only_bind; [apply raises_only_getitem; exact I |].
      intros; exact I.
Qed.

Lemma pack_return_raises {A : Type} (l : list A) :
  raises_only evaluation_error (pack_return l).
Proof.
  unfold pack_return. destruct (_ =? _)%nat; [| exact I].
  apply raises_only_bind; [apply raises_only_getitem; exact I |].
  intros; exact I.
Qed.

Lemma collect_results_raises (shift : R) (rv rm : bool)
    (results : list (list ndarray)) :
  raises_only evaluation_error (collect_results shift rv rm results).
Proof.
  unfold collect_results.
  apply raises_only_bind.
  { apply raises_only_mapM. intros r.
    apply raises_only_bind; [apply raises_only_getitem; exact I |].
    intros; exact I. }
  intros es. apply raises_only_bind.
  { destruct rv; [| exact I].
    apply raises_only_bind; [| intros; exact I].
    apply raises_only_mapM. intros r. apply raises_only_getitem; exact I. }
  intros tr. apply raises_only_bind; [| intros; apply pack_return_raises].
  destruct rm; [| exact I].
  apply raises_only_bind; [| intros; exact I].
  apply raises_only_mapM. intros r. apply raises_only_getitem; exact I.
Qed.

Lemma first_failure_raised {B : Type} (f : vec3 -> result B)
    (tasks : list (list vec3)) (completion : list nat) (err : exn) :
  first_failure (map (fun j => (j, run_map f (nth j tasks []))) completion)
  = Some err ->
  exists k, f k = inl err.
Proof.
  induction completion as [| j completion IH]; [discriminate |].
  cbn [map first_failure].
  destruct (run_map f (nth j tasks [])) as [t r] eqn:Hrun.
  destruct r as [err' | bs]; [| exact IH].
  intros H; injection H as ->.
  pose proof (run_map_result f (nth j tasks [])) as Hr.
  rewrite Hrun in Hr. simpl in Hr. symmetry in Hr.
  destruct (mapM_inl f _ err Hr) as [k [_ Hk]]. exists k; exact Hk.
Qed.

Lemma pool_map_raises {B : Type} (processes : Z) (completion : list nat)
    (f : vec3 -> result B) (kpoints : list vec3) :
  (forall k, raises_only evaluation_error (f k)) ->
  raises_only evaluation_error (snd (pool_map processes completion f kpoints)).
Proof.
  intros Hf. unfold pool_map.
  destruct (processes <? 1)%Z; [simpl; right; right; left; reflexivity |].
  cbv zeta.
  destruct (first_failure _) as [err |] eqn:Hff; [| exact I].
  simpl. destruct (first_failure_raised f _ _ err Hff) as [k Hk].
  specialize (Hf k). rewrite Hk in Hf. exact Hf.
Qed.

Lemma run_map_raises {B : Type} (f : vec3 -> result B) (kpoints : list vec3) :
  (forall k, raises_only evaluation_error (f k)) ->
  raises_only evaluation_error (snd (run_map f kpoints)).
Proof.
  intros Hf. rewrite run_map_result. apply raises_only_mapM. exact Hf.
Qed.

End RaisedExceptions.

(** ** Bulk evaluation *)

Section BulkEvaluation.
Local Open Scope R_scope.

Variable consts : Constants.

Lemma guard_raises (self : BoltzTraP1Interpolater) (_parameters : registry)
    (completion : list nat) (kpoints : list vec3) (iband : iband_arg)
    (scissor : option R) (rv rm : bool) :
  scissor_value scissor <> 0 ->
  get_energies consts self _parameters completion kpoints iband scissor None
    rv rm
  = (debug_log iband, inl missing_is_cb).
Proof.
  intros Hs. unfold get_energies. cbv zeta.
  apply Reqb_false in Hs. rewrite Hs. reflexivity.
Qed.

Lemma guard_passed (self : BoltzTraP1Interpolater) (_parameters : registry)
    (completion : list nat) (kpoints : list vec3) (iband : iband_arg)
    (scissor : option R) (is_cb : option bool) (rv rm : bool) :
  scissor_guard_passes scissor is_cb ->
  get_energies consts self _parameters completion kpoints iband scissor is_cb
    rv rm
  = match _get_interpolation_coefficients self _parameters iband with
    | inl err => (debug_log iband, raise err)
    | inr coefficients =>
        let fun_ := fun kpoint =>
          _get_energy_wrapper consts _parameters coefficients
            (_parameters_id self) (_lattice_matrix self) kpoint true rm in
        let '(calls, results) :=
          if (_n_jobs self =? 1)%Z then run_map fun_ kpoints
          else pool_map (_n_jobs self) completion fun_ kpoints in
        (debug_log iband ++ calls,
         results <- results ;;
         collect_results (scissor_shift (scissor_value scissor) is_cb)
           rv rm results)
    end.
Proof.
  intros Hguard. unfold get_energies. cbv zeta.
  assert (E : negb (Reqb (scissor_value scissor) 0)
              && match is_cb with None => true | _ => false end = false).
  { destruct Hguard as [H | H].
    - apply Reqb_true in H. rewrite H. reflexivity.
    - destruct is_cb; [apply andb_false_r | contradiction]. }
  rewrite E. reflexivity.
Qed.

(** Behind the scissor check, and for a completion order the pool can
    produce, the result of [get_energies] is that of looking up the
    coefficients, evaluating the k-points in order and collecting. *)
Lemma get_energies_result (self : BoltzTraP1Interpolater)
    (_parameters : registry) (completion : list nat) (kpoints : list vec3)
    (iband : iband_arg) (scissor : option R) (is_cb : option bool)
    (rv rm : bool) :
  scissor_guard_passes scissor is_cb ->
  (1 <= _n_jobs self)%Z ->
  valid_completion self kpoints completion ->
  snd (get_energies consts self _parameters completion kpoints iband scissor
         is_cb rv rm)
  = (coefficients <- _get_interpolation_coefficients self _parameters iband ;;
     results <- mapM (fun kpoint =>
                        _get_energy_wrapper consts _parameters coefficients
                          (_parameters_id self) (_lattice_matrix self) kpoint
                          true rm) kpoints ;;
     collect_results (scissor_shift (scissor_value scissor) is_cb) rv rm
       results).
Proof.
  intros Hguard Hjobs Hvalid. rewrite guard_passed by exact Hguard.
  destruct (_get_interpolation_coefficients self _parameters iband)
    as [err | c]; [reflexivity |].
  cbn [bind]. cbv zeta.
  destruct (_n_jobs self =? 1)%Z eqn:E.
  - rewrite <- run_map_result.
    destruct (run_map _ kpoints) as [calls results]. reflexivity.
  - rewrite <- (pool_map_result (_n_jobs self) completion).
    + destruct (pool_map _ completion _ kpoints) as [calls results].
      reflexivity.
    + exact Hjobs.
    + destruct Hvalid as [H | H]; [| exact H].
      apply Z.eqb_neq in E. contradiction.
    + apply wrapper_uniform_failure.
Qed.

Lemma guard_passed_raises (self : BoltzTraP1Interpolater)
    (_parameters : registry) (completion : list nat) (kpoints : list vec3)
    (iband : iband_arg) (scissor : option R) (is_cb : option bool)
    (rv rm : bool) :
  scissor_guard_passes scissor is_cb ->
  raises_only evaluation_error
    (snd (get_energies consts self _parameters completion kpoints iband
            scissor is_cb rv rm)).
Proof.
  intros Hguard. rewrite guard_passed by exact Hguard.
  pose proof (coefficients_raise self _parameters iband) as Hc.
  destruct (_get_interpolation_coefficients self _parameters iband)
    as [err | c]; [exact Hc |].
  cbv zeta.
  set (fun_ := fun kpoint =>
         _get_energy_wrapper consts _parameters c (_parameters_id self)
           (_lattice_matrix self) kpoint true rm).
  assert (Hf : forall k, raises_only evaluation_error (fun_ k))
    by (intros k; apply wrapper_raises).
  match goal with
  | |- context [match ?X with pair _ _ => _ end] =>
      assert (Hmap : raises_only evaluation_error (snd X));
      [destruct (_n_jobs self =? 1)%Z;
         [apply run_map_raises | apply pool_map_raises]; exact Hf
      | destruct X as [calls results] ]
  end.
  cbn [snd] in *.
  apply raises_only_bind; [exact Hmap |].
  intros r. apply collect_results_raises.
Qed.

Lemma debug_log_no_evaluation (iband : iband_arg) (k : vec3) :
  ~ In (Evaluate k) (debug_log iband).
Proof.
  unfold debug_log. intros [H | [H | []]]; discriminate.
Qed.

(** C6: [get_energies] raises the exception for a missing band type
    exactly when the scissor is not zero and [is_cb] is [None]; and when
    it does, the call has logged its two messages and evaluated no
    k-point. *)
Theorem missing_band_type_for_scissor (self : BoltzTraP1Interpolater)
    (_parameters : registry) (completion : list nat) (kpoints : list vec3)
    (iband : iband_arg) (scissor : option R) (is_cb : option bool)
    (rv rm : bool) :
  let out := get_energies consts self _parameters completion kpoints iband
               scissor is_cb rv rm in
  (snd out = inl missing_is_cb <->
   scissor_value scissor <> 0 /\ is_cb = None)
  /\ (snd out = inl missing_is_cb ->
      fst out = debug_log iband /\ forall k, ~ In (Evaluate k) (fst out)).
Proof.
  cbv zeta.
  assert (Hiff : snd (get_energies consts self _parameters completion kpoints
                        iband scissor is_cb rv rm) = inl missing_is_cb <->
                 scissor_value scissor <> 0 /\ is_cb = None).
  { split.
    - intros H.
      destruct (Req_dec_T (scissor_value scissor) 0) as [Hz | Hnz];
        [| destruct is_cb as [b |]; [| split; [exact Hnz | reflexivity]]].
      + exfalso.
        pose proof (guard_passed_raises self _parameters completion kpoints
                      iband scissor is_cb rv rm (or_introl Hz)) as Hr.
        rewrite H in Hr.
        exact (evaluation_error_not_missing _ Hr eq_refl).
      + exfalso.
        assert (Hg : scissor_guard_passes scissor (Some b))
          by (right; discriminate).
        pose proof (guard_passed_raises self _parameters completion kpoints
                      iband scissor (Some b) rv rm Hg) as Hr.
        rewrite H in Hr.
        exact (evaluation_error_not_missing _ Hr eq_refl).
    - intros [Hs ->]. rewrite guard_raises by exact Hs. reflexivity. }
  split; [exact Hiff |].
  intros H. apply Hiff in H. destruct H as [Hs ->].
  rewrite guard_raises by exact Hs. simpl.
  split; [reflexivity | apply debug_log_no_evaluation].
Qed.

End BulkEvaluation.

Lemma missing_band_type_for_scissor_witness :
  snd (get_energies unit_constants small_interpolater small_registry []
         [(0, 0, 0)%R] (IbandInt 3) (Some 1%R) None false false)
  = inl missing_is_cb
  /\ fst (get_energies unit_constants small_interpolater small_registry []
            [(0, 0, 0)%R] (IbandInt 3) (Some 1%R) None false false)
     = debug_log (IbandInt 3).
Proof.
  destruct (missing_band_type_for_scissor unit_constants small_interpolater
              small_registry [] [(0, 0, 0)%R] (IbandInt 3) (Some 1%R) None
              false false) as [Hiff Hcalls].
  assert (H : snd (get_energies unit_constants small_interpolater
                     small_registry [] [(0, 0, 0)%R] (IbandInt 3) (Some 1%R)
                     None false false) = inl missing_is_cb).
  { apply Hiff. split; [simpl; lra | reflexivity]. }
  split; [exact H | apply Hcalls; exact H].
Defined.

(** ** What bulk evaluation returns *)

Section Returned.
Local Open Scope R_scope.

Variable consts : Constants.

Lemma pack_return_energies (es : list ndarray) (rest : list (list ndarray))
    (ret : returned (list ndarray)) :
  pack_return (es :: rest) = inr ret ->
  energies_of ret = es /\
  (rest <> [] -> ret = Tuple (es :: rest)).
Proof.
  unfold pack_return. destruct rest as [| v rest]; simpl.
  - intros H; injection H as <-. split; [reflexivity | contradiction].
  - intros H; injection H as <-. split; reflexivity.
Qed.

Lemma collect_results_energies (shift : R) (rv rm : bool)
    (results : list (list ndarray)) (ret : returned (list ndarray)) :
  collect_results shift rv rm results = inr ret ->
  Forall2 (fun r x => exists u, getitem r 0 = inr u /\ x = nd_sub u shift)
    results (energies_of ret).
Proof.
  unfold collect_results. intros H.
  apply bind_inr in H. destruct H as [es [Hes H]].
  apply bind_inr in H. destruct H as [tr1 [Htr1 H]].
  apply bind_inr in H. destruct H as [tr2 [Htr2 H]].
  assert (Hhead : exists rest, tr2 = es :: rest).
  { assert (H1 : exists rest, tr1 = es :: rest).
    { destruct rv.
      - apply bind_inr in Htr1. destruct Htr1 as [vs [_ E]].
        injection E as <-. eexists; reflexivity.
      - injection Htr1 as <-. eexists; reflexivity. }
    destruct H1 as [rest1 ->].
    destruct rm.
    - apply bind_inr in Htr2. destruct Htr2 as [ms [_ E]].
      injection E as <-. eexists; reflexivity.
    - injection Htr2 as <-. eexists; reflexivity. }
  destruct Hhead as [rest ->].
  destruct (pack_return_energies es rest ret H) as [-> _].
  apply mapM_Forall2 in Hes. clear - Hes.
  induction Hes as [| r x results es' Hrx _ IH]; constructor; [| exact IH].
  apply bind_inr in Hrx. destruct Hrx as [u [Hu E]].
  injection E as <-. exists u. split; [exact Hu | reflexivity].
Qed.

Lemma Forall2_compose {A B C : Type} (P : A -> B -> Prop) (Q : B -> C -> Prop)
    (la : list A) (lb : list B) (lc : list C) :
  Forall2 P la lb -> Forall2 Q lb lc ->
  Forall2 (fun a c => exists b, P a b /\ Q b c) la lc.
Proof.
  intros H. revert lc. induction H as [| a b la lb Hab _ IH]; intros lc Hq.
  - inversion Hq. constructor.
  - inversion Hq as [| ? c ? lc' Hbc Hq']; subst.
    constructor; [exists b; split; assumption | apply IH; exact Hq'].
Qed.

Lemma get_energies_returned (self : BoltzTraP1Interpolater)
    (_parameters : registry) (completion : list nat) (kpoints : list vec3)
    (iband : iband_arg) (scissor : option R) (is_cb : option bool)
    (rv rm : bool) (ret : returned (list ndarray)) :
  (1 <= _n_jobs self)%Z ->
  valid_completion self kpoints completion ->
  snd (get_energies consts self _parameters completion kpoints iband scissor
         is_cb rv rm) = inr ret ->
  exists coefficients results,
    _get_interpolation_coefficients self _parameters iband = inr coefficients /\
    Forall2 (fun kpoint r =>
               _get_energy_wrapper consts _parameters coefficients
                 (_parameters_id self) (_lattice_matrix self) kpoint true rm
               = inr r) kpoints results /\
    collect_results (scissor_shift (scissor_value scissor) is_cb) rv rm results
    = inr ret /\
    energies_match consts self _parameters coefficients rm
      (scissor_shift (scissor_value scissor) is_cb) kpoints (energies_of ret).
Proof.
  intros Hjobs Hvalid H.
  assert (Hguard : scissor_guard_passes scissor is_cb).
  { destruct (Req_dec_T (scissor_value scissor) 0) as [Hz | Hnz];
      [left; exact Hz |].
    destruct is_cb as [b |]; [right; discriminate |].
    rewrite guard_raises in H by exact Hnz. discriminate. }
  rewrite get_energies_result in H by assumption.
  apply bind_inr in H. destruct H as [c [Hc H]].
  apply bind_inr in H. destruct H as [results [Hres H]].
  exists c, results. split; [exact Hc |].
  apply mapM_Forall2 in Hres.
  split; [exact Hres |]. split; [exact H |].
  unfold energies_match.
  pose proof (Forall2_compose _ _ _ _ _ Hres
                (collect_results_energies _ _ _ _ _ H)) as Hall.
  eapply Forall2_impl; [| exact Hall].
  intros k x [r [Hr [u [Hu Hx]]]]. exists r, u. auto.
Qed.

(** C9: with more than one worker, and whatever the order in which the
    pool's tasks finish, [get_energies] returns what it returns with one
    worker; and the energy at position [i] of the result belongs to the
    k-point at position [i]. *)
Theorem pool_matches_sequential (self : BoltzTraP1Interpolater)
    (_parameters : registry) (completion : list nat) (kpoints : list vec3)
    (iband : iband_arg) (scissor : option R) (is_cb : option bool)
    (rv rm : bool) (workers : Z) :
  (1 < workers)%Z ->
  Permutation completion (seq 0 (task_count workers kpoints)) ->
  snd (get_energies consts (with_n_jobs self workers) _parameters completion
         kpoints iband scissor is_cb rv rm)
  = snd (get_energies consts (with_n_jobs self 1) _parameters completion
           kpoints iband scissor is_cb rv rm)
  /\ forall ret,
       snd (get_energies consts (with_n_jobs self workers) _parameters
              completion kpoints iband scissor is_cb rv rm) = inr ret ->
       exists coefficients,
         _get_interpolation_coefficients self _parameters iband
         = inr coefficients /\
         energies_match consts self _parameters coefficients rm
           (scissor_shift (scissor_value scissor) is_cb) kpoints
           (energies_of ret).
Proof.
  intros Hw Hperm.
  assert (Hvw : valid_completion (with_n_jobs self workers) kpoints completion)
    by (right; exact Hperm).
  assert (Hv1 : valid_completion (with_n_jobs self 1) kpoints completion)
    by (left; reflexivity).
  split.
  - destruct (Req_dec_T (scissor_value scissor) 0) as [Hz | Hnz].
    + rewrite !get_energies_result;
        [reflexivity | left; exact Hz | simpl; lia | exact Hv1
        | left; exact Hz | simpl; lia | exact Hvw].
    + destruct is_cb as [b |].
      * rewrite !get_energies_result;
          [reflexivity | right; discriminate | simpl; lia | exact Hv1
          | right; discriminate | simpl; lia | exact Hvw].
      * rewrite !guard_raises by exact Hnz. reflexivity.
  - intros ret H.
    destruct (get_energies_returned (with_n_jobs self workers) _parameters
                completion kpoints iband scissor is_cb rv rm ret)
      as [c [results [Hc [_ [_ Hm]]]]];
      [simpl; lia | exact Hvw | exact H |].
    exists c. split; [exact Hc | exact Hm].
Qed.

End Returned.

(** ** Looking up the coefficients of a band *)

Lemma getitem_in_range {A : Type} (l : list A) (i : Z) (a : A) :
  (0 <= i)%Z -> nth_error l (Z.to_nat i) = Some a -> getitem l i = inr a.
Proof.
  intros Hi Hnth. unfold getitem. cbv zeta.
  assert (Hlt : (Z.to_nat i < length l)%nat)
    by (apply nth_error_Some; rewrite Hnth; discriminate).
  destruct (i <? 0)%Z eqn:E; [apply Z.ltb_lt in E; lia |].
  destruct ((0 <=? i) && (i <? Z.of_nat (length l)))%Z%bool eqn:E2.
  - rewrite Hnth. reflexivity.
  - apply andb_false_iff in E2. destruct E2 as [E2 | E2].
    + apply Z.leb_gt in E2. lia.
    + apply Z.ltb_ge in E2. lia.
Qed.

Lemma getitem_0 {A : Type} (a : A) (l : list A) : getitem (a :: l) 0 = inr a.
Proof. apply getitem_in_range; [lia | reflexivity]. Qed.

Lemma getitem_1 {A : Type} (a b : A) (l : list A) :
  getitem (a :: b :: l) 1 = inr b.
Proof. apply getitem_in_range; [lia | reflexivity]. Qed.

Lemma range_In (a b x : Z) : In x (range a b) <-> (a <= x < b)%Z.
Proof.
  unfold range. rewrite in_map_iff. split.
  - intros [k [<- Hk]]. apply in_seq in Hk. lia.
  - intros H. exists (Z.to_nat (x - a)). split; [lia |].
    apply in_seq. lia.
Qed.

Lemma existsb_eqb_In (x : Z) (l : list Z) :
  existsb (Z.eqb x) l = true <-> In x l.
Proof.
  rewrite existsb_exists. split.
  - intros [y [Hy E]]. apply Z.eqb_eq in E. subst; exact Hy.
  - intros H. exists x. split; [exact H | apply Z.eqb_refl].
Qed.

Lemma issubset_range (l : list Z) (lo hi : Z) :
  issubset l (range lo (hi + 1)) = true <->
  Forall (fun b => (lo <= b <= hi)%Z) l.
Proof.
  unfold issubset. rewrite forallb_forall, Forall_forall.
  split; intros H x Hx; specialize (H x Hx).
  - apply (proj1 (existsb_eqb_In _ _)) in H.
    apply (proj1 (range_In _ _ _)) in H. lia.
  - apply (proj2 (existsb_eqb_In _ _)), (proj2 (range_In _ _ _)). lia.
Qed.

Lemma insertZ_In (x y : Z) (l : list Z) :
  In y (insertZ x l) <-> y = x \/ In y l.
Proof.
  induction l as [| z l IH]; simpl; [intuition auto |].
  destruct (x <=? z)%Z; simpl; [| rewrite IH]; intuition auto.
Qed.

Lemma sorted_In (y : Z) (l : list Z) : In y (sorted l) <-> In y l.
Proof.
  induction l as [| x l IH]; simpl; [reflexivity |].
  rewrite insertZ_In, IH. intuition auto.
Qed.

Lemma insertZ_length (x : Z) (l : list Z) :
  length (insertZ x l) = S (length l).
Proof.
  induction l as [| z l IH]; simpl; [reflexivity |].
  destruct (x <=? z)%Z; simpl; [| rewrite IH]; reflexivity.
Qed.

Lemma sorted_length (l : list Z) : length (sorted l) = length l.
Proof.
  induction l as [| x l IH]; simpl; [reflexivity |].
  rewrite insertZ_length, IH. reflexivity.
Qed.


Lemma requested_bands_inside (p : BoltzTraP1Parameters) (iband : iband_arg) :
  allowed_ibands p = range (min_band p) (max_band p + 1) ->
  Forall (fun b => (min_band p <= b <= max_band p)%Z) (listed_bands iband) ->
  Forall (fun b => (min_band p <= b <= max_band p)%Z)
    (requested_bands p iband).
Proof.
  intros Hall Hin.
  assert (Hsorted : Forall (fun b => (min_band p <= b <= max_band p)%Z)
                      (sorted (allowed_ibands p))).
  { apply Forall_forall. intros x Hx.
    apply (proj1 (sorted_In _ _)) in Hx.
    rewrite Hall in Hx. apply (proj1 (range_In _ _ _)) in Hx. lia. }
  destruct iband as [| b | [| b l]]; simpl in *; assumption.
Qed.

Lemma select_rows (p : BoltzTraP1Parameters) (bands : list Z) :
  length (coefficients p) = Z.to_nat (max_band p - min_band p + 1) ->
  Forall (fun b => (min_band p <= b <= max_band p)%Z) bands ->
  exists rows,
    mapM (getitem (coefficients p)) (map (fun b => (b - min_band p)%Z) bands)
    = inr rows /\
    rows_selected p bands rows.
Proof.
  intros Hrows. induction 1 as [| b bands Hb _ [rows [Hm Hsel]]].
  - exists []. split; [reflexivity | constructor].
  - destruct (nth_error (coefficients p) (Z.to_nat (b - min_band p)))
      as [row |] eqn:Hnth.
    + exists (row :: rows). split.
      * simpl. rewrite (getitem_in_range _ _ row) by (lia || exact Hnth).
        simpl. rewrite Hm. reflexivity.
      * constructor; [split; [lia | exact Hnth] | exact Hsel].
    + apply nth_error_None in Hnth. lia.
Qed.

Lemma Forall2_length_eq {A B : Type} (P : A -> B -> Prop) (l : list A)
    (l' : list B) : Forall2 P l l' -> length l = length l'.
Proof. induction 1; simpl; congruence. Qed.

(** Band lookup, for requested bands that are all in range. *)
Lemma coefficients_in_range (self : BoltzTraP1Interpolater)
    (_parameters : registry) (p : BoltzTraP1Parameters) (iband : iband_arg) :
  parameters self _parameters = inr p ->
  bands_well_formed p ->
  Forall (fun b => (min_band p <= b <= max_band p)%Z) (listed_bands iband) ->
  exists rows,
    rows_selected p (requested_bands p iband) rows /\
    _get_interpolation_coefficients self _parameters iband
    = inr (match rows with
           | [row] => Band row
           | _ => Bands rows
           end).
Proof.
  intros Hp [Hall Hrows] Hin.
  pose proof (requested_bands_inside p iband Hall Hin) as Hreq.
  destruct (select_rows p (requested_bands p iband) Hrows Hreq)
    as [rows [Hm Hsel]].
  exists rows. split; [exact Hsel |].
  unfold _get_interpolation_coefficients. rewrite Hp. cbn [bind].
  assert (Hsub : issubset (requested_bands p iband) (allowed_ibands p) = true)
    by (rewrite Hall; apply issubset_range; exact Hreq).
  rewrite Hsub. cbn [negb]. rewrite Hm. cbn [bind].
  rewrite length_map, (Forall2_length_eq _ _ _ Hsel).
  destruct rows as [| row [| row2 rows]]; reflexivity.
Qed.




Section BandLookup.
Local Open Scope R_scope.

Variable consts : Constants.



End BandLookup.


Lemma small_parameters_bands : bands_well_formed small_parameters.
Proof. split; reflexivity. Qed.



(** ** Scissor shift and velocities *)

Section ScissorAndVelocity.
Local Open Scope R_scope.

Variable consts : Constants.


Lemma velocity_of_nonneg (matrix : mat3) (d : vec3) :
  positive_constants consts ->
  0 <= fst3 (velocity_of consts matrix d) /\
  0 <= snd3 (velocity_of consts matrix d) /\
  0 <= thd3 (velocity_of consts matrix d).
Proof.
  intros [HRy [Hh [HA Hm]]].
  assert (Hscale : forall x,
             0 <= Rabs x * A_to_m consts * m_to_cm consts * Ry_to_eV consts
                  / (hbar consts * 0.52917721067)).
  { intros x. pose proof (Rabs_pos x) as Hx.
    apply Rmult_le_pos.
    - repeat apply Rmult_le_pos; lra.
    - left. apply Rinv_0_lt_compat. lra. }
  unfold velocity_of.
  destruct (matvec _ d) as [[x y] z]. simpl.
  repeat split; apply Hscale.
Qed.

Lemma velocity_entry_nonneg (dspwre : list vec3) (matrix : mat3)
    (c : coeff_block) (v : ndarray) :
  positive_constants consts ->
  velocity_entry consts dspwre matrix c = inr v -> nd_nonneg v.
Proof.
  intros Hpos. unfold velocity_entry.
  destruct c as [row | rows];
    match goal with |- context [(?a =? ?b)%nat] => destruct (a =? b)%nat end;
    try discriminate; intros H; injection H as <-; simpl.
  - destruct (velocity_of_nonneg matrix (dotT3 dspwre row) Hpos)
      as [H1 [H2 H3]].
    destruct (velocity_of consts matrix (dotT3 dspwre row)) as [[x y] z].
    simpl in *.
    constructor; [exact H1 |]. constructor; [exact H2 |].
    constructor; [exact H3 | constructor].
  - assert (Hcol : forall (f : vec3 -> R) l,
               (forall d, 0 <= f (velocity_of consts matrix d)) ->
               Forall (Rle 0)
                 (map f (map (fun c => velocity_of consts matrix
                                         (dotT3 dspwre c)) l))).
    { intros f l Hf. rewrite Forall_map, Forall_map.
      apply Forall_forall. intros col _. apply Hf. }
    constructor; [apply Hcol; intros d; apply velocity_of_nonneg; exact Hpos |].
    constructor; [apply Hcol; intros d; apply velocity_of_nonneg; exact Hpos |].
    constructor; [apply Hcol; intros d; apply velocity_of_nonneg; exact Hpos |].
    constructor.
Qed.

(** With the velocity asked for, the evaluator's result starts with the
    energy and the velocity, and they do not depend on whether the
    effective mass is asked for too. *)
Lemma wrapper_velocity (_parameters : registry) (c : coeff_block)
    (parameters_id : Z) (matrix : mat3) (k : vec3) (rm : bool)
    (r : list ndarray) :
  _get_energy_wrapper consts _parameters c parameters_id matrix k true rm
  = inr r ->
  exists en v rest,
    r = en :: v :: rest /\
    _get_energy_wrapper consts _parameters c parameters_id matrix k true false
    = inr [en; v] /\
    (positive_constants consts -> nd_nonneg v).
Proof.
  unfold _get_energy_wrapper. intros H.
  apply bind_inr in H. destruct H as [p [Hp H]]. rewrite Hp. cbn [bind].
  apply bind_inr in H. destruct H as [sp [Hsp H]]. rewrite Hsp. cbn [bind].
  apply bind_inr in H. destruct H as [en [Hen H]]. rewrite Hen. cbn [bind].
  apply bind_inr in H. destruct H as [tr [Htr H]].
  apply bind_inr in Htr. destruct Htr as [d [Hd Htr]]. rewrite Hd. cbn [bind].
  apply bind_inr in Htr. destruct Htr as [v [Hv Htr]]. rewrite Hv. cbn [bind].
  injection Htr as <-.
  assert (Hr : exists rest,
             r = nd_scale en (Ry_to_eV consts) :: v :: rest).
  { destruct rm.
    - apply bind_inr in H. destruct H as [dd [_ H]].
      apply bind_inr in H. destruct H as [m [_ H]].
      injection H as <-. eexists; reflexivity.
    - injection H as <-. eexists; reflexivity. }
  destruct Hr as [rest ->].
  exists (nd_scale en (Ry_to_eV consts)), v, rest.
  split; [reflexivity |]. split; [reflexivity |].
  intros Hpos. exact (velocity_entry_nonneg d matrix c v Hpos Hv).
Qed.

(** The velocities that bulk evaluation returns have no negative
    component, and the velocity at each position is the one
    [get_energy] returns, with the velocity asked for, at the k-point of
    that position. *)
Lemma returned_velocities (self : BoltzTraP1Interpolater)
    (_parameters : registry) (completion : list nat) (kpoints : list vec3)
    (iband : iband_arg) (scissor : option R) (is_cb : option bool)
    (rm : bool) (ret : returned (list ndarray)) :
  positive_constants consts ->
  (1 <= _n_jobs self)%Z ->
  valid_completion self kpoints completion ->
  snd (get_energies consts self _parameters completion kpoints iband scissor
         is_cb true rm) = inr ret ->
  exists energies velocities rest,
    ret = Tuple (energies :: velocities :: rest) /\
    Forall2
      (fun kpoint v =>
         nd_nonneg v /\
         exists en,
           get_energy consts self _parameters kpoint iband true false
           = inr (Tuple [en; v]))
      kpoints velocities.
Proof.
  intros Hpos Hjobs Hvalid H.
  destruct (get_energies_returned consts self _parameters completion kpoints
              iband scissor is_cb true rm ret Hjobs Hvalid H)
    as [c [results [Hc [Hres [Hcol _]]]]].
  unfold collect_results in Hcol.
  apply bind_inr in Hcol. destruct Hcol as [es [_ Hcol]].
  apply bind_inr in Hcol. destruct Hcol as [tr1 [Htr1 Hcol]].
  apply bind_inr in Htr1. destruct Htr1 as [vs [Hvs Htr1]].
  injection Htr1 as <-.
  apply bind_inr in Hcol. destruct Hcol as [tr2 [Htr2 Hcol]].
  assert (Htr : exists rest, tr2 = es :: vs :: rest).
  { destruct rm.
    - apply bind_inr in Htr2. destruct Htr2 as [ms [_ E]].
      injection E as <-. eexists; reflexivity.
    - injection Htr2 as <-. eexists; reflexivity. }
  destruct Htr as [rest ->].
  destruct (pack_return_energies es (vs :: rest) ret Hcol) as [_ Hret].
  exists es, vs, rest. split; [apply Hret; discriminate |].
  apply mapM_Forall2 in Hvs.
  pose proof (Forall2_compose _ _ _ _ _ Hres Hvs) as Hall.
  eapply Forall2_impl; [| exact Hall].
  intros k v [r [Hr Hget]].
  destruct (wrapper_velocity _ _ _ _ _ _ _ Hr) as [en [v' [tl [-> [Hw Hnn]]]]].
  rewrite getitem_1 in Hget. injection Hget as <-.
  split; [exact (Hnn Hpos) |].
  exists en. unfold get_energy. rewrite Hc. cbn [bind].
  rewrite Hw. reflexivity.
Qed.

End ScissorAndVelocity.



Lemma unit_constants_positive : positive_constants unit_constants.
Proof. unfold positive_constants; simpl; lra. Qed.

Lemma two_tasks_reversed :
  Permutation [1; 0]%nat
    (seq 0 (task_count 2 [(0, 0, 0)%R; (0.5, 0, 0)%R])).
Proof. apply perm_swap. Qed.

Lemma pool_matches_sequential_witness :
  snd (get_energies unit_constants (with_n_jobs small_interpolater 2)
         small_registry [1; 0]%nat [(0, 0, 0)%R; (0.5, 0, 0)%R] (IbandInt 3)
         None None false false)
  = snd (get_energies unit_constants (with_n_jobs small_interpolater 1)
           small_registry [1; 0]%nat [(0, 0, 0)%R; (0.5, 0, 0)%R] (IbandInt 3)
           None None false false).
Proof.
  apply (pool_matches_sequential unit_constants small_interpolater
           small_registry [1; 0]%nat [(0, 0, 0)%R; (0.5, 0, 0)%R] (IbandInt 3)
           None None false false 2).
  - lia.
  - exact two_tasks_reversed.
Defined.

(** ** What the parser guarantees *)







(** ** A valid band is evaluated *)

Section ValidBand.
Local Open Scope R_scope.

Variable consts : Constants.

Lemma broadcast2_pairwise {A B C : Type} (f : A -> B -> result C)
    (g : A -> B -> C) (a : list A) (b : list B) :
  Forall2 (fun x y => f x y = inr (g x y)) a b ->
  broadcast2 f a b = inr (map (fun '(x, y) => g x y) (combine a b)).
Proof.
  intros H. unfold broadcast2.
  rewrite (Forall2_length H), Nat.eqb_refl.
  induction H as [| x y a b Hxy _ IH]; simpl; [reflexivity |].
  rewrite Hxy, IH. reflexivity.
Qed.

Lemma dspwre_of_returns (p : BoltzTraP1Parameters) (kpoint : vec3) :
  evaluator_well_formed p ->
  exists dspwre,
    dspwre_of p (phase_args p kpoint) = inr dspwre /\
    length dspwre = length (star_vectors p).
Proof.
  intros [Hlen [Hprod _]]. unfold dspwre_of, phase_args.
  set (sin_arg := map (map sin)
                    (map (map (fun v => 2 * PI * dot3 v kpoint))
                       (star_vectors p))).
  assert (Hrows : Forall2
            (fun vs ss =>
               broadcast2 (fun v s => ret (map3 (fun x => x * s) v)) vs ss
               = inr (map (fun '(v, s) => map3 (fun x => x * s) v)
                        (combine vs ss)))
            (star_vector_products p) sin_arg).
  { unfold sin_arg. clear Hlen.
    induction Hprod as [| vs ss prods stars Hvs _ IH]; simpl; constructor;
      [| exact IH].
    apply broadcast2_same_length; [rewrite !length_map; exact Hvs |].
    intros; reflexivity. }
  rewrite (broadcast2_pairwise
             (fun vs ss =>
                broadcast2 (fun v s => ret (map3 (fun x => x * s) v)) vs ss)
             (fun vs ss =>
                map (fun '(v, s) => map3 (fun x => x * s) v) (combine vs ss))
             _ _ Hrows).
  cbn [bind].
  assert (Hsin : length sin_arg = length (star_vectors p))
    by (unfold sin_arg; rewrite !length_map; reflexivity).
  pose proof (Forall2_length Hprod) as Hpl.
  rewrite (broadcast2_same_length _
             (fun v nst => map3 (fun x => x / IZR nst) v)).
  - eexists. split; [reflexivity |].
    rewrite !length_map, !length_combine, !length_map, length_combine.
    rewrite Hsin, Hpl, <- Hlen. rewrite !Nat.min_id. reflexivity.
  - rewrite !length_map, length_combine, Hsin, Hpl, Nat.min_id. exact Hlen.
  - intros; reflexivity.
Qed.

(** For well-formed parameters and a single band in range,
    [get_energy] returns the energy and the velocity at every
    k-point. *)
Lemma single_band_velocity_returns (self : BoltzTraP1Interpolater)
    (_parameters : registry) (p : BoltzTraP1Parameters) (b : Z)
    (kpoint : vec3) :
  parameters self _parameters = inr p ->
  bands_well_formed p ->
  evaluator_well_formed p ->
  (min_band p <= b <= max_band p)%Z ->
  exists row en v,
    _get_interpolation_coefficients self _parameters (IbandInt b)
    = inr (Band row) /\
    _get_energy_wrapper consts _parameters (Band row) (_parameters_id self)
      (_lattice_matrix self) kpoint true false = inr [en; v] /\
    get_energy consts self _parameters kpoint (IbandInt b) true false
    = inr (Tuple [en; v]).
Proof.
  intros Hp Hbands Hwf Hb.
  destruct (coefficients_in_range self _parameters p (IbandInt b) Hp Hbands)
    as [rows [Hsel Hc]]; [constructor; [exact Hb | constructor] |].
  simpl in Hsel. inversion Hsel as [| ? row ? rows' [_ Hrow] Hnil]; subst.
  inversion Hnil; subst.
  destruct Hwf as [Hlen [Hprod Hcoef]].
  assert (Hrowlen : length row = length (star_vectors p)).
  { rewrite Forall_forall in Hcoef. apply Hcoef.
    apply nth_error_In with (n := Z.to_nat (b - min_band p)). exact Hrow. }
  destruct (spwre_of_spec p kpoint Hlen) as [spwre [Hsp [Hsl _]]].
  destruct (dspwre_of_returns p kpoint (conj Hlen (conj Hprod Hcoef)))
    as [dspwre [Hd Hdl]].
  assert (Hw : _get_energy_wrapper consts _parameters (Band row)
                 (_parameters_id self) (_lattice_matrix self) kpoint
                 true false
               = inr [nd_scale (Arr0 (dotR spwre row)) (Ry_to_eV consts);
                      Arr1 (list3 (velocity_of consts (_lattice_matrix self)
                                     (dotT3 dspwre row)))]).
  { unfold _get_energy_wrapper. unfold parameters in Hp. rewrite Hp.
    cbn [bind]. rewrite Hsp. cbn [bind]. unfold energy_dot.
    rewrite Hsl, <- Hrowlen, Nat.eqb_refl. cbn [bind ret].
    rewrite Hd. cbn [bind]. unfold velocity_entry.
    rewrite Hdl, <- Hrowlen, Nat.eqb_refl. reflexivity. }
  exists row. eexists. eexists.
  split; [exact Hc |]. split; [exact Hw |].
  unfold get_energy. rewrite Hc. cbn [bind]. rewrite Hw. reflexivity.
Qed.

(** And bulk evaluation returns the energies and the velocities of all
    the k-points. *)
Lemma bulk_evaluation_returns (self : BoltzTraP1Interpolater)
    (_parameters : registry) (p : BoltzTraP1Parameters) (b : Z)
    (completion : list nat) (kpoints : list vec3) (scissor : option R)
    (is_cb : option bool) :
  parameters self _parameters = inr p ->
  bands_well_formed p ->
  evaluator_well_formed p ->
  (min_band p <= b <= max_band p)%Z ->
  scissor_guard_passes scissor is_cb ->
  (1 <= _n_jobs self)%Z ->
  valid_completion self kpoints completion ->
  exists energies velocities,
    snd (get_energies consts self _parameters completion kpoints (IbandInt b)
           scissor is_cb true false)
    = inr (Tuple [energies; velocities]) /\
    length energies = length kpoints /\
    length velocities = length kpoints.
Proof.
  intros Hp Hbands Hwf Hb Hguard Hjobs Hvalid.
  rewrite get_energies_result by assumption.
  destruct (single_band_velocity_returns self _parameters p b (0, 0, 0)
              Hp Hbands Hwf Hb) as [row [_ [_ [Hc _]]]].
  rewrite Hc. cbn [bind].
  assert (Hall : exists results,
             mapM (fun kpoint =>
                     _get_energy_wrapper consts _parameters (Band row)
                       (_parameters_id self) (_lattice_matrix self) kpoint
                       true false) kpoints = inr results /\
             length results = length kpoints /\
             Forall (fun r => exists en v, r = [en; v]) results).
  { clear Hvalid. induction kpoints as [| k rest IH].
    - exists []. repeat split; constructor.
    - destruct IH as [results [Hm [Hl Hf]]].
      destruct (single_band_velocity_returns self _parameters p b k
                  Hp Hbands Hwf Hb) as [row' [en [v [Hc' [Hw _]]]]].
      rewrite Hc in Hc'. injection Hc' as <-.
      exists ([en; v] :: results). repeat split.
      + simpl. rewrite Hw. simpl. rewrite Hm. reflexivity.
      + simpl. rewrite Hl. reflexivity.
      + constructor; [exists en, v; reflexivity | exact Hf]. }
  destruct Hall as [results [Hm [Hl Hf]]].
  rewrite Hm. cbn [bind]. unfold collect_results.
  rewrite (mapM_total _ (fun r => nd_sub (hd (Arr0 0) r)
                                    (scissor_shift (scissor_value scissor) is_cb))).
  2: { intros r Hr. rewrite Forall_forall in Hf.
       destruct (Hf r Hr) as [en [v ->]]. reflexivity. }
  cbn [bind].
  rewrite (mapM_total _ (fun r => nth 1 r (Arr0 0))).
  2: { intros r Hr. rewrite Forall_forall in Hf.
       destruct (Hf r Hr) as [en [v ->]]. reflexivity. }
  cbn [bind ret app]. eexists. eexists. split; [reflexivity |].
  rewrite !length_map. split; exact Hl.
Qed.

(** C8: for well-formed parameters and a band in range, bulk evaluation
    with the velocity asked for returns one velocity per k-point; no
    component of it is negative, and it is the velocity [get_energy]
    returns, with the velocity asked for, at the k-point of the same
    position.  Whatever the band argument and whether or not the
    effective mass is asked for too, the same holds of every result that
    bulk evaluation returns. *)
Theorem bulk_velocities (self : BoltzTraP1Interpolater)
    (_parameters : registry) (p : BoltzTraP1Parameters) (b : Z)
    (completion : list nat) (kpoints : list vec3) (scissor : option R)
    (is_cb : option bool) :
  positive_constants consts ->
  parameters self _parameters = inr p ->
  bands_well_formed p ->
  evaluator_well_formed p ->
  (min_band p <= b <= max_band p)%Z ->
  scissor_guard_passes scissor is_cb ->
  (1 <= _n_jobs self)%Z ->
  valid_completion self kpoints completion ->
  (exists energies velocities,
     snd (get_energies consts self _parameters completion kpoints
            (IbandInt b) scissor is_cb true false)
     = inr (Tuple [energies; velocities]) /\
     Forall2
       (fun kpoint v =>
          nd_nonneg v /\
          exists en,
            get_energy consts self _parameters kpoint (IbandInt b) true false
            = inr (Tuple [en; v]))
       kpoints velocities)
  /\
  (forall iband rm ret,
     snd (get_energies consts self _parameters completion kpoints iband
            scissor is_cb true rm) = inr ret ->
     exists energies velocities rest,
       ret = Tuple (energies :: velocities :: rest) /\
       Forall2
         (fun kpoint v =>
            nd_nonneg v /\
            exists en,
              get_energy consts self _parameters kpoint iband true false
              = inr (Tuple [en; v]))
         kpoints velocities).
Proof.
  intros Hpos Hp Hbands Hwf Hb Hguard Hjobs Hvalid.
  split.
  - destruct (bulk_evaluation_returns self _parameters p b completion
                kpoints scissor is_cb Hp Hbands Hwf Hb Hguard Hjobs Hvalid)
      as [energies [velocities [Hret _]]].
    exists energies, velocities. split; [exact Hret |].
    destruct (returned_velocities consts self _parameters completion kpoints
                (IbandInt b) scissor is_cb false _ Hpos Hjobs Hvalid Hret)
      as [es [vs [rest [Heq Hall]]]].
    injection Heq as -> -> _. exact Hall.
  - intros iband rm ret Hret.
    exact (returned_velocities consts self _parameters completion kpoints
             iband scissor is_cb rm ret Hpos Hjobs Hvalid Hret).
Qed.

End ValidBand.

Lemma small_parameters_shapes : evaluator_well_formed small_parameters.
Proof.
  repeat split.
  - repeat constructor.
  - repeat constructor.
Qed.

Lemma bulk_velocities_witness :
  exists energies velocities,
    snd (get_energies unit_constants small_interpolater small_registry []
           [(0, 0, 0)%R] (IbandInt 3) (Some 1%R) (Some true) true false)
    = inr (Tuple [energies; velocities]) /\
    Forall2
      (fun kpoint v =>
         nd_nonneg v /\
         exists en,
           get_energy unit_constants small_interpolater small_registry kpoint
             (IbandInt 3) true false = inr (Tuple [en; v]))
      [(0, 0, 0)%R] velocities.
Proof.
  apply (bulk_velocities unit_constants small_interpolater small_registry
           small_parameters 3 [] [(0, 0, 0)%R] (Some 1%R) (Some true)).
  - exact unit_constants_positive.
  - reflexivity.
  - exact small_parameters_bands.
  - exact small_parameters_shapes.
  - simpl; lia.
  - right; discriminate.
  - simpl; lia.
  - left; reflexivity.
Defined.


(** * Further properties of the parser *)

(** ** What a successful parse has read *)


(** Every step of a parse that returns, with the lines it was made
    on: a missing line reads as an empty one. *)
Lemma parse_inversion_full (coeff_file : file) (p : BoltzTraP1Parameters) :
  _get_interpolation_parameters coeff_file = inr p ->
  exists (t1 t4 : token) (G S : Z) (cell : mat3) (ops : list mat3)
         (st : loop_state) (stars : list (Z * list vec3)) (width : Z),
    nth 0 coeff_file [] = [t1; TInt G; TInt S; t4] /\
    reshape33 (firstn 9 (fromstring (nth 1 coeff_file []))) = inr cell /\
    reshape_192_33 (firstn 1728 (fromstring (nth 2 coeff_file []))) = inr ops /\
    (0 <= G)%Z /\
    read_lines G 0 (skipn 3 coeff_file)
      (LoopState (repeat zero3 (Z.to_nat G)) [] [] 0 0) = inr st /\
    (0 <= S)%Z /\
    mapM (calculate_star_function S (sym_ops_of ops)) (ls_g_vectors st)
    = inr stars /\
    py_max (map fst stars) = inr width /\
    p = parameters_of S cell st stars width.
Proof.
  unfold _get_interpolation_parameters. intros H.
  assert (Hr1 : readline coeff_file = (nth 0 coeff_file [], skipn 1 coeff_file))
    by (destruct coeff_file; reflexivity).
  rewrite Hr1 in H.
  apply bind_inr in H. destruct H as [[G S] [Hhead H]].
  assert (Hr2 : readline (skipn 1 coeff_file)
                = (nth 1 coeff_file [], skipn 2 coeff_file))
    by (destruct coeff_file as [| a [| b r]]; reflexivity).
  rewrite Hr2 in H.
  apply bind_inr in H. destruct H as [cell [Hcell H]].
  assert (Hr3 : readline (skipn 2 coeff_file)
                = (nth 2 coeff_file [], skipn 3 coeff_file))
    by (destruct coeff_file as [| a [| b [| c r]]]; reflexivity).
  rewrite Hr3 in H.
  apply bind_inr in H. destruct H as [ops [Hops H]].
  apply bind_inr in H. destruct H as [gv [Hgv H]].
  apply bind_inr in H. destruct H as [st [Hst H]].
  apply bind_inr in H. destruct H as [z [Hz H]].
  apply bind_inr in H. destruct H as [stars [Hstars H]].
  apply bind_inr in H. destruct H as [width [Hw H]].
  injection H as <-.
  destruct (nth 0 coeff_file []) as [| t1 [| g [| s [| t4 [| t5 r]]]]];
    try discriminate.
  apply bind_inr in Hhead. destruct Hhead as [G' [HG Hhead]].
  apply bind_inr in Hhead. destruct Hhead as [S' [HS Hhead]].
  injection Hhead as -> ->.
  destruct g as [zg | |]; try discriminate. injection HG as ->.
  destruct s as [zs | |]; try discriminate. injection HS as ->.
  unfold np_zeros in Hgv, Hz.
  destruct (G <? 0)%Z eqn:EG; [discriminate |]. injection Hgv as <-.
  destruct (S <? 0)%Z eqn:ES; [discriminate |].
  apply Z.ltb_ge in EG, ES.
  exists t1, t4, G, S, cell, ops, st, stars, width.
  repeat split; assumption.
Qed.

(** ** The exceptions of the parser *)

Lemma read_lines_raises (G : Z) (f : list line) :
  forall (i : Z) (st : loop_state),
    raises_only is_value_error (read_lines G i f st).
Proof.
  induction f as [| l f IH]; intros i st; simpl; [exact I |].
  destruct (i <? G)%Z.
  - apply raises_only_bind; [| intros; apply IH].
    unfold broadcast_row3.
    destruct (fromstring l) as [| x [| y [| z [| w r]]]]; simpl;
      try exact I; eexists; reflexivity.
  - destruct (i =? G)%Z.
    + destruct (fromstring_int l) as [| lo [| hi [| x r]]]; simpl;
        try apply IH; eexists; reflexivity.
    + destruct (existsb (Z.eqb i) (ls_iband st)); [| apply IH].
      destruct (length (pop_index i (ls_iband st)) =? 0)%nat;
        [exact I | apply IH].
Qed.

Lemma np_zeros_raises {A : Type} (n : Z) (x : A) :
  raises_only is_value_error (np_zeros n x).
Proof.
  unfold np_zeros. destruct (n <? 0)%Z; [eexists; reflexivity | exact I].
Qed.

Lemma parse_raises (coeff_file : file) :
  raises_only is_value_error (_get_interpolation_parameters coeff_file).
Proof.
  unfold _get_interpolation_parameters.
  destruct (readline coeff_file) as [header f1].
  apply raises_only_bind.
  { destruct header as [| t1 [| g [| s [| t4 [| t5 r]]]]];
      try (eexists; reflexivity).
    apply raises_only_bind;
      [destruct g; simpl; try exact I; eexists; reflexivity |].
    intros G. apply raises_only_bind; [| intros; exact I].
    destruct s; simpl; try exact I; eexists; reflexivity. }
  intros [G S].
  destruct (readline f1) as [l_cell f2].
  apply raises_only_bind.
  { unfold reshape33.
    destruct (firstn 9 (fromstring l_cell))
      as [| a [| b [| c [| d [| e0 [| f0 [| g0 [| h [| i [| j r]]]]]]]]]];
      try exact I; eexists; reflexivity. }
  intros cell.
  destruct (readline f2) as [l_sym f3].
  apply raises_only_bind.
  { unfold reshape_192_33.
    destruct (_ =? _)%nat; [exact I | eexists; reflexivity]. }
  intros ops.
  apply raises_only_bind; [apply np_zeros_raises |]. intros gv.
  apply raises_only_bind; [apply read_lines_raises |]. intros st.
  apply raises_only_bind; [apply np_zeros_raises |]. intros z.
  apply raises_only_bind.
  { apply raises_only_mapM. intros g. unfold calculate_star_function.
    apply raises_only_bind; [apply np_zeros_raises | intros; exact I]. }
  intros stars.
  apply raises_only_bind; [| intros; exact I].
  unfold py_max. destruct (map fst stars); [eexists; reflexivity | exact I].
Qed.

Lemma not_parsed_is_malformed (coeff_file : file) :
  (forall p, _get_interpolation_parameters coeff_file <> inr p) ->
  malformed_coefficient_file (_get_interpolation_parameters coeff_file).
Proof.
  intros H. pose proof (parse_raises coeff_file) as Hr.
  destruct (_get_interpolation_parameters coeff_file) as [err | p].
  - destruct Hr as [msg ->]. exists msg. reflexivity.
  - exfalso. exact (H p eq_refl).
Qed.



(** X2: unless the first line is made of four tokens whose second and
    third are integer literals, the parser raises [ValueError]; an
    empty file is such a file. *)
Theorem malformed_header_rejected (coeff_file : file) :
  (forall t1 G S t4, nth 0 coeff_file [] <> [t1; TInt G; TInt S; t4]) ->
  malformed_coefficient_file (_get_interpolation_parameters coeff_file).
Proof.
  intros H. apply not_parsed_is_malformed. intros p Hp.
  destruct (parse_inversion_full coeff_file p Hp)
    as [t1 [t4 [G [S [_ [_ [_ [_ [_ [Hhead _]]]]]]]]]].
  exact (H t1 G S t4 Hhead).
Qed.

Lemma malformed_header_rejected_witness :
  malformed_coefficient_file (_get_interpolation_parameters [])
  /\ malformed_coefficient_file
       (_get_interpolation_parameters
          [[TInt 1; TReal 2.5%R; TInt 1; TInt 1]; cubic_cell_line]).
Proof.
  split; apply malformed_header_rejected; intros t1 G S t4; simpl;
    discriminate.
Defined.












(** ** Complete files *)

(** The G-vector block is read line by line, whatever follows it. *)
Lemma read_lines_g_block (G : Z) (gl : list line) :
  Forall g_vector_line gl ->
  forall (i : Z) (st : loop_state),
    (i + Z.of_nat (length gl) <= G)%Z ->
    exists gv,
      length gv = length (ls_g_vectors st) /\
      forall rest,
        read_lines G i (gl ++ rest) st
        = read_lines G (i + Z.of_nat (length gl)) rest
            (LoopState gv (ls_coefficients st) (ls_iband st)
               (ls_min_band st) (ls_max_band st)).
Proof.
  induction 1 as [| l gl [v Hv] _ IH]; intros i st Hi.
  - exists (ls_g_vectors st). split; [reflexivity |].
    intros rest. simpl. rewrite Z.add_0_r. destruct st; reflexivity.
  - simpl length in Hi.
    destruct (IH (i + 1)%Z
                (LoopState (setitem (Z.to_nat i) v (ls_g_vectors st))
                   (ls_coefficients st) (ls_iband st)
                   (ls_min_band st) (ls_max_band st)))
      as [gv [Hlen Heq]]; [lia |].
    exists gv. split.
    + rewrite Hlen. simpl. apply setitem_length.
    + intros rest. simpl app. simpl read_lines.
      destruct (i <? G)%Z eqn:E; [| apply Z.ltb_ge in E; lia].
      rewrite Hv. simpl bind. rewrite Heq. simpl.
      replace (i + 1 + Z.of_nat (length gl))%Z
        with (i + Z.of_nat (S (length gl)))%Z by lia.
      reflexivity.
Qed.

(** Once no coefficient line is expected, the lines that follow are
    passed over. *)
Lemma read_lines_nothing_expected (G : Z) (f : list line) :
  forall (i : Z) (st : loop_state),
    (G < i)%Z -> ls_iband st = [] -> read_lines G i f st = inr st.
Proof.
  induction f as [| l f IH]; intros i st Hi Hib; simpl; [reflexivity |].
  destruct (i <? G)%Z eqn:E1; [apply Z.ltb_lt in E1; lia |].
  destruct (i =? G)%Z eqn:E2; [apply Z.eqb_eq in E2; lia |].
  rewrite Hib. simpl. apply IH; [lia | exact Hib].
Qed.

(** The coefficient block is read up to the last line expected; the
    loop is left there. *)
Lemma read_lines_coefficients_full (G : Z) (n : nat) (coefs extra : list line) :
  forall (j : nat) (st : loop_state),
    (0 <= G)%Z ->
    (j + length coefs = n)%nat ->
    ls_iband st = iband_from G j n ->
    read_lines G (G + 1 + Z.of_nat j) (coefs ++ extra) st
    = inr (LoopState (ls_g_vectors st)
             (ls_coefficients st ++ map fromstring coefs)
             [] (ls_min_band st) (ls_max_band st)).
Proof.
  induction coefs as [| l coefs IH]; intros j st HG Hj Hib.
  - simpl in Hj. simpl app. rewrite app_nil_r.
    assert (Hnil : ls_iband st = []).
    { rewrite Hib. unfold iband_from.
      replace (n - j)%nat with 0%nat by lia. reflexivity. }
    rewrite read_lines_nothing_expected by (lia || exact Hnil).
    destruct st; simpl in *. rewrite Hnil. reflexivity.
  - simpl length in Hj. simpl app. simpl read_lines.
    destruct (G + 1 + Z.of_nat j <? G)%Z eqn:E1;
      [apply Z.ltb_lt in E1; lia |].
    destruct (G + 1 + Z.of_nat j =? G)%Z eqn:E2;
      [apply Z.eqb_eq in E2; lia |].
    rewrite Hib, (iband_from_step G j n) by lia.
    simpl existsb. rewrite Z.eqb_refl. simpl orb. cbv iota.
    simpl pop_index. rewrite Z.eqb_refl.
    destruct (length (iband_from G (S j) n) =? 0)%nat eqn:E3.
    + apply Nat.eqb_eq in E3. unfold iband_from in E3.
      rewrite length_map, length_seq in E3.
      destruct coefs as [| l' coefs]; [| simpl in Hj; lia].
      unfold iband_from. rewrite E3. reflexivity.
    + apply Nat.eqb_neq in E3.
      replace (G + 1 + Z.of_nat j + 1)%Z with (G + 1 + Z.of_nat (S j))%Z by lia.
      specialize (IH (S j)
                    (LoopState (ls_g_vectors st)
                       (ls_coefficients st ++ [fromstring l])
                       (iband_from G (S j) n)
                       (ls_min_band st) (ls_max_band st)) HG).
      cbn [ls_g_vectors ls_coefficients ls_iband ls_min_band ls_max_band] in IH.
      rewrite IH; [| lia | reflexivity].
      simpl. rewrite <- app_assoc. reflexivity.
Qed.

(** The loop over a file that holds every line the header and the band
    line announce, whatever follows. *)
Lemma read_lines_complete (G lo hi : Z) (gl : list line) (l_band : line)
    (coefs : list line) :
  Forall g_vector_line gl ->
  Z.of_nat (length gl) = G ->
  fromstring_int l_band = [lo; hi] ->
  length coefs = Z.to_nat (hi + 1 - lo) ->
  exists gv,
    length gv = Z.to_nat G /\
    forall extra,
      read_lines G 0 (gl ++ l_band :: coefs ++ extra)
        (LoopState (repeat zero3 (Z.to_nat G)) [] [] 0 0)
      = inr (LoopState gv (map fromstring coefs) [] lo hi).
Proof.
  intros Hgl Hlen Hband Hn.
  destruct (read_lines_g_block G gl Hgl 0
              (LoopState (repeat zero3 (Z.to_nat G)) [] [] 0 0))
    as [gv [Hgv Heq]]; [lia |].
  exists gv.
  split; [rewrite Hgv; simpl; apply repeat_length |].
  intros extra. rewrite Heq. simpl Z.add. rewrite Hlen.
  cbn [read_lines ls_g_vectors ls_coefficients ls_iband ls_min_band
         ls_max_band].
  rewrite Z.ltb_irrefl, Z.eqb_refl, Hband, iband_of_band_line.
  replace (G + 1)%Z with (G + 1 + Z.of_nat 0)%Z by lia.
  rewrite (read_lines_coefficients_full G (Z.to_nat (hi + 1 - lo)) coefs extra 0);
    [reflexivity | lia | simpl; lia | reflexivity].
Qed.


(** X8: the loop is left at the last coefficient line that the band
    line announces.  Lines appended to a complete file are of no
    consequence: the parser returns, or raises, what it does without
    them. *)
Theorem trailing_lines_ignored (t1 s t4 : token) (G lo hi : Z)
    (l_cell l_sym l_band : line) (gl coefs extra : list line) :
  Z.of_nat (length gl) = G ->
  Forall g_vector_line gl ->
  fromstring_int l_band = [lo; hi] ->
  length coefs = Z.to_nat (hi - lo + 1) ->
  _get_interpolation_parameters
    ([t1; TInt G; s; t4] :: l_cell :: l_sym :: gl ++ l_band :: coefs ++ extra)
  = _get_interpolation_parameters
      ([t1; TInt G; s; t4] :: l_cell :: l_sym :: gl ++ l_band :: coefs).
Proof.
  intros Hlen Hgl Hband Hn.
  destruct (read_lines_complete G lo hi gl l_band coefs Hgl Hlen Hband)
    as [gv [_ Hread]]; [rewrite Hn; f_equal; lia |].
  pose proof (Hread extra) as He. pose proof (Hread []) as H0.
  rewrite app_nil_r in H0.
  unfold _get_interpolation_parameters, readline. cbv beta iota.
  unfold int_of_token at 1 3. cbn [bind ret].
  destruct (int_of_token s) as [err | S]; [reflexivity |].
  cbn [bind ret].
  destruct (reshape33 _) as [err | cell]; [reflexivity |]. cbn [bind].
  destruct (reshape_192_33 _) as [err | ops]; [reflexivity |]. cbn [bind].
  unfold np_zeros at 1 3.
  destruct (G <? 0)%Z eqn:EG; [reflexivity |]. cbn [bind ret].
  rewrite He, H0. reflexivity.
Qed.

Lemma trailing_lines_ignored_witness :
  _get_interpolation_parameters
    [ints [1; 1; 1; 1]%Z; cubic_cell_line; identity_sym_line;
     ints [0; 0; 0]%Z; ints [1; 1]%Z; [TReal 0.5%R];
     [TWord "END"]; ints [4; 5]%Z]
  = _get_interpolation_parameters
      [ints [1; 1; 1; 1]%Z; cubic_cell_line; identity_sym_line;
       ints [0; 0; 0]%Z; ints [1; 1]%Z; [TReal 0.5%R]].
Proof.
  apply (trailing_lines_ignored (TInt 1) (TInt 1) (TInt 1) 1 1 1
           cubic_cell_line identity_sym_line (ints [1; 1]%Z)
           [ints [0; 0; 0]%Z] [[TReal 0.5%R]]
           [[TWord "END"]; ints [4; 5]%Z]).
  - reflexivity.
  - constructor; [apply ints3_g_vector_line | constructor].
  - reflexivity.
  - reflexivity.
Defined.


(** X9: a band line whose second bound is below the first announces
    no band.  Whatever follows it, the file is parsed into a parameters
    object with no coefficient row and no allowed band, and every band
    asked of that object is out of range. *)
Theorem inverted_band_range_gives_no_band (t1 t4 : token) (G S lo hi : Z)
    (l_cell l_sym l_band : line) (gl rest : list line) :
  (1 <= G)%Z -> (0 <= S)%Z ->
  (9 <= length (fromstring l_cell))%nat ->
  (1728 <= length (fromstring l_sym))%nat ->
  Z.of_nat (length gl) = G ->
  Forall g_vector_line gl ->
  fromstring_int l_band = [lo; hi] ->
  (hi < lo)%Z ->
  exists p,
    _get_interpolation_parameters
      ([t1; TInt G; TInt S; t4] :: l_cell :: l_sym :: gl ++ l_band :: rest)
    = inr p /\
    coefficients p = [] /\ allowed_ibands p = [] /\
    forall (self : BoltzTraP1Interpolater) (_parameters : registry) (b : Z),
      parameters self _parameters = inr p ->
      _get_interpolation_coefficients self _parameters (IbandInt b)
      = inl (ValueError (band_out_of_range_msg p)).
Proof.
  intros HG HS Hcell Hsym Hlen Hgl Hband Hinv.
  destruct (read_lines_complete G lo hi gl l_band [] Hgl Hlen Hband)
    as [gv [Hgv Hread]]; [simpl; lia |].
  destruct (reshape33_returns _ Hcell) as [cell Hc].
  destruct (reshape_192_33_returns _ Hsym) as [ops Ho].
  set (st := LoopState gv [] [] lo hi).
  destruct (stars_built S (sym_ops_of ops) (ls_g_vectors st) HS)
    as [stars [Hstars Hsl]].
  destruct (py_max_nonempty (map fst stars)) as [width Hw].
  { intros E. apply (f_equal (@length Z)) in E.
    rewrite length_map, Hsl in E. simpl in E. lia. }
  assert (Hallowed : range lo (hi + 1) = []).
  { unfold range. replace (Z.to_nat (hi + 1 - lo)) with 0%nat by lia.
    reflexivity. }
  exists (parameters_of S cell st stars width).
  split.
  { apply parse_steps with (ops := ops); try assumption; [lia |].
    apply (Hread rest). }
  split; [reflexivity |]. split; [exact Hallowed |].
  intros self _parameters b Hp.
  unfold _get_interpolation_coefficients. rewrite Hp. cbn [bind].
  unfold requested_bands, parameters_of.
  cbn [allowed_ibands ls_min_band ls_max_band st].
  rewrite Hallowed. reflexivity.
Qed.

Lemma inverted_band_range_gives_no_band_witness :
  exists p,
    _get_interpolation_parameters
      [ints [1; 1; 1; 1]%Z; cubic_cell_line; identity_sym_line;
       ints [0; 0; 0]%Z; ints [3; 1]%Z; [TReal 0.5%R]]
    = inr p /\
    coefficients p = [] /\ allowed_ibands p = [] /\
    forall (self : BoltzTraP1Interpolater) (_parameters : registry) (b : Z),
      parameters self _parameters = inr p ->
      _get_interpolation_coefficients self _parameters (IbandInt b)
      = inl (ValueError (band_out_of_range_msg p)).
Proof.
  apply (inverted_band_range_gives_no_band (TInt 1) (TInt 1) 1 1 3 1
           cubic_cell_line identity_sym_line (ints [3; 1]%Z)
           [ints [0; 0; 0]%Z] [[TReal 0.5%R]]).
  - lia.
  - lia.
  - simpl; lia.
  - exact identity_sym_line_length.
  - reflexivity.
  - constructor; [apply ints3_g_vector_line | constructor].
  - reflexivity.
  - lia.
Defined.

(** ** The shapes of a parsed parameters object *)









Lemma two_bands_file_parsed :
  exists p, _get_interpolation_parameters two_bands_file = inr p.
Proof.
  destruct (read_lines_complete 1 1 2 [ints [0; 0; 0]%Z]
              (ints [1; 2]%Z) [[TReal 0.5%R]; [TReal 0.25%R]])
    as [gv [Hgv Hread]].
  - repeat (constructor; [apply ints3_g_vector_line |]). constructor.
  - reflexivity.
  - reflexivity.
  - reflexivity.
  - specialize (Hread []). rewrite app_nil_r in Hread.
    destruct (parse_after_loop (TInt 1) (TInt 1) 1 1 cubic_cell_line
                identity_sym_line _
                (LoopState gv (map fromstring [[TReal 0.5%R]; [TReal 0.25%R]])
                   [] 1 2)
                ltac:(lia) ltac:(lia)
                ltac:(simpl; lia) identity_sym_line_length Hgv Hread)
      as [p [Hp _]].
    exists p. exact Hp.
Qed.


(** ** Integer G-vectors *)

Section IntegralStars.
Local Open Scope R_scope.

Lemma integral3_zero : integral3 zero3.
Proof. exists 0%Z, 0%Z, 0%Z. reflexivity. Qed.

Lemma imatvec_integral (m : imat3) (v : vec3) :
  integral3 v -> integral3 (imatvec m v).
Proof.
  intros [a [b [c ->]]].
  destruct m as [[[[m00 m01] m02] [[m10 m11] m12]] [[m20 m21] m22]].
  exists (m00 * a + m01 * b + m02 * c)%Z,
         (m10 * a + m11 * b + m12 * c)%Z,
         (m20 * a + m21 * b + m22 * c)%Z.
  simpl. rewrite !plus_IZR, !mult_IZR. reflexivity.
Qed.

Lemma fromstring_ints (zs : list Z) : fromstring (ints zs) = map IZR zs.
Proof.
  unfold ints. induction zs as [| z zs IH]; simpl; [reflexivity |].
  rewrite IH. reflexivity.
Qed.

Lemma integer_line_row (zs : list Z) (v : vec3) :
  broadcast_row3 (fromstring (ints zs)) = inr v -> integral3 v.
Proof.
  rewrite fromstring_ints.
  destruct zs as [| a [| b [| c [| d zs]]]]; simpl; try discriminate;
    intros H; injection H as <-.
  - exists a, a, a. reflexivity.
  - exists a, b, c. reflexivity.
Qed.

Lemma setitem_Forall {A : Type} (P : A -> Prop) (i : nat) (x : A)
    (l : list A) :
  Forall P l -> P x -> Forall P (setitem i x l).
Proof.
  intros Hl Hx. revert i.
  induction Hl as [| a l Ha Hl IH]; intros [| i]; simpl; constructor;
    try assumption. apply IH.
Qed.

(** Rows read from lines of integer literals are integral. *)
Lemma read_lines_integral (G : Z) (f : list line) :
  forall (i : Z) (st st' : loop_state),
    read_lines G i f st = inr st' ->
    (forall n l, (i + Z.of_nat n < G)%Z -> nth_error f n = Some l ->
                 exists zs, l = ints zs) ->
    Forall integral3 (ls_g_vectors st) ->
    Forall integral3 (ls_g_vectors st').
Proof.
  induction f as [| l f IH]; intros i st st' H Hints Hst; simpl in H.
  - injection H as <-. exact Hst.
  - assert (Hrest : forall n l0, (i + 1 + Z.of_nat n < G)%Z ->
                                 nth_error f n = Some l0 ->
                                 exists zs, l0 = ints zs).
    { intros n l0 Hn Hl0. apply (Hints (S n) l0); [lia | exact Hl0]. }
    destruct (i <? G)%Z eqn:E1.
    + apply Z.ltb_lt in E1.
      destruct (Hints 0%nat l ltac:(lia) eq_refl) as [zs ->].
      apply bind_inr in H. destruct H as [v [Hv H]].
      apply (IH _ _ _ H Hrest). simpl.
      apply setitem_Forall; [exact Hst |].
      exact (integer_line_row zs v Hv).
    + destruct (i =? G)%Z.
      * destruct (fromstring_int l) as [| lo [| hi [| x r]]];
          try discriminate.
        exact (IH _ _ _ H Hrest Hst).
      * destruct (existsb (Z.eqb i) (ls_iband st)).
        -- destruct (length (pop_index i (ls_iband st)) =? 0)%nat.
           ++ injection H as <-. exact Hst.
           ++ exact (IH _ _ _ H Hrest Hst).
        -- exact (IH _ _ _ H Hrest Hst).
Qed.

Lemma star_integral (S : Z) (sym_ops : list imat3) (g : vec3)
    (star : Z * list vec3) :
  (0 <= S)%Z ->
  calculate_star_function S sym_ops g = inr star ->
  integral3 g -> Forall integral3 (snd star).
Proof.
  intros HS H Hg.
  destruct (calculate_star_function_returns S sym_ops g HS) as [_ Hcalc].
  rewrite Hcalc in H. injection H as <-. simpl.
  apply Forall_app. split.
  - apply Forall_forall. intros v Hv.
    apply (proj1 (np_unique_rows_In _ _)) in Hv.
    apply in_map_iff in Hv. destruct Hv as [m [<- _]].
    apply imatvec_integral. exact Hg.
  - apply Forall_forall. intros v Hv. apply repeat_spec in Hv. subst v.
    exact integral3_zero.
Qed.

(** X11: when the G-vector lines of the file hold integer literals
    only, every star vector of the parsed parameters, the padding
    included, has integer components. *)
Theorem integer_g_vectors_give_integral_stars (coeff_file : file)
    (t1 t4 : token) (G S : Z) (p : BoltzTraP1Parameters) :
  nth 0 coeff_file [] = [t1; TInt G; TInt S; t4] ->
  (forall n l, (Z.of_nat n < G)%Z ->
               nth_error (skipn 3 coeff_file) n = Some l ->
               exists zs, l = ints zs) ->
  _get_interpolation_parameters coeff_file = inr p ->
  Forall (Forall integral3) (star_vectors p).
Proof.
  intros Hhead Hints Hp.
  destruct (parse_inversion_full coeff_file p Hp)
    as (t1' & t4' & G' & S' & cell & ops & st & stars & width
        & Hh & _ & _ & HG & Hread & HS & Hstars & _ & ->).
  rewrite Hhead in Hh. injection Hh as _ -> -> _.
  assert (Hgv : Forall integral3 (ls_g_vectors st)).
  { apply (read_lines_integral _ _ _ _ _ Hread).
    - intros n l Hn Hl. apply (Hints n l); [lia | exact Hl].
    - simpl. apply Forall_forall. intros v Hv. apply repeat_spec in Hv.
      subst v. exact integral3_zero. }
  unfold parameters_of. cbn [star_vectors].
  apply mapM_Forall2 in Hstars. rewrite Forall_map.
  clear - Hstars Hgv HS.
  induction Hstars as [| g star gs stars Hg _ IH]; constructor.
  - inversion Hgv; subst. exact (star_integral S' _ g star HS Hg H1).
  - apply IH. inversion Hgv; assumption.
Qed.

End IntegralStars.

Lemma integer_g_vectors_give_integral_stars_witness :
  exists p,
    _get_interpolation_parameters two_bands_file = inr p /\
    Forall (Forall integral3) (star_vectors p).
Proof.
  destruct two_bands_file_parsed as [p Hp]. exists p.
  split; [exact Hp |].
  apply (integer_g_vectors_give_integral_stars two_bands_file
           (TInt 1) (TInt 1) 1 1 p).
  - reflexivity.
  - intros n l Hn Hl. destruct n as [| n]; [| lia].
    injection Hl as <-. exists [0; 0; 0]%Z. reflexivity.
  - exact Hp.
Defined.

(** * Further properties of the star function *)

Section StarOrder.
Local Open Scope R_scope.

(** Two strictly increasing lists with the same members are equal. *)
Lemma strictly_sorted_unique (l : list vec3) :
  forall l' : list vec3,
    StronglySorted lt3 l -> StronglySorted lt3 l' ->
    (forall x, In x l <-> In x l') -> l = l'.
Proof.
  induction l as [| a l IH]; intros [| b l'] Hs Hs' Hin.
  - reflexivity.
  - exfalso. apply (proj2 (Hin b)). left; reflexivity.
  - exfalso. apply (proj1 (Hin a)). left; reflexivity.
  - inversion Hs as [| ? ? Hsl Ha]; subst.
    inversion Hs' as [| ? ? Hsl' Hb]; subst.
    rewrite Forall_forall in Ha, Hb.
    assert (Hab : a = b).
    { destruct (proj1 (Hin a) (or_introl eq_refl)) as [E | Hal];
        [symmetry; exact E |].
      destruct (proj2 (Hin b) (or_introl eq_refl)) as [E | Hbl];
        [exact E |].
      exfalso. apply (lt3_irrefl a).
      exact (lt3_trans _ _ _ (Ha b Hbl) (Hb a Hal)). }
    subst b. f_equal. apply IH; [exact Hsl | exact Hsl' |].
    intros x. split; intros Hx.
    + destruct (proj1 (Hin x) (or_intror Hx)) as [E | Hx']; [| exact Hx'].
      subst x. exfalso. exact (lt3_irrefl a (Ha a Hx)).
    + destruct (proj2 (Hin x) (or_intror Hx)) as [E | Hx']; [| exact Hx'].
      subst x. exfalso. exact (lt3_irrefl a (Hb a Hx)).
Qed.

Lemma np_unique_rows_sorted (l : list vec3) :
  StronglySorted lt3 (np_unique_rows l).
Proof.
  unfold np_unique_rows. pose proof (sort_rows_sorted l) as Hs.
  destruct (sort_rows l) as [| x l']; [constructor |].
  apply drop_repeats_sorted; exact Hs.
Qed.

(** [np.unique] depends on the members of its argument only. *)
Lemma np_unique_rows_members (l l' : list vec3) :
  (forall x, In x l <-> In x l') -> np_unique_rows l = np_unique_rows l'.
Proof.
  intros H. apply strictly_sorted_unique; try apply np_unique_rows_sorted.
  intros x. rewrite !np_unique_rows_In. apply H.
Qed.

End StarOrder.

(** X12: the star of a G-vector depends on the set of retained
    symmetry operations only: neither the order in which the file lists
    them nor a repeated operation changes the count or the star. *)
Theorem star_independent_of_operation_order (num_symmetries : Z)
    (sym_ops sym_ops' : list imat3) (g_vector : vec3) :
  (forall m, In m (slice_to num_symmetries sym_ops)
             <-> In m (slice_to num_symmetries sym_ops')) ->
  calculate_star_function num_symmetries sym_ops g_vector
  = calculate_star_function num_symmetries sym_ops' g_vector.
Proof.
  intros H. unfold calculate_star_function.
  rewrite (np_unique_rows_members
             (map (fun m => imatvec m g_vector)
                (slice_to num_symmetries sym_ops))
             (map (fun m => imatvec m g_vector)
                (slice_to num_symmetries sym_ops'))); [reflexivity |].
  intros x. rewrite !in_map_iff.
  split; intros [m [E Hm]]; exists m; (split; [exact E | apply H; exact Hm]).
Qed.

Lemma star_independent_of_operation_order_witness :
  calculate_star_function 2 [identity33; mirror33] (1, 2, 3)%R
  = calculate_star_function 2 [mirror33; identity33] (1, 2, 3)%R.
Proof.
  apply star_independent_of_operation_order.
  intros m. simpl. intuition.
Defined.

(** * Symmetries of the evaluator *)

Section EvaluatorSymmetries.
Local Open Scope R_scope.

Variable consts : Constants.









End EvaluatorSymmetries.



Section EvenEvaluation.
Local Open Scope R_scope.

Variable consts : Constants.

Lemma mapM_map {A B C : Type} (f : B -> result C) (g : A -> B) (l : list A) :
  mapM f (map g l) = mapM (fun x => f (g x)) l.
Proof.
  induction l as [| a l IH]; simpl; [reflexivity |].
  rewrite IH. reflexivity.
Qed.

(** A function that post-processes what another returns, mapped over a
    list. *)
Lemma mapM_post {A B : Type} (f f' : A -> result B) (h : B -> B)
    (l : list A) :
  (forall x, f' x = (z <- f x ;; ret (h z))) ->
  mapM f' l = (zs <- mapM f l ;; ret (map h zs)).
Proof.
  intros H. induction l as [| a l IH]; simpl; [reflexivity |].
  rewrite H, IH. destruct (f a) as [err | b]; [reflexivity |].
  cbn [bind ret]. destruct (mapM f l) as [err | bs]; reflexivity.
Qed.

Lemma combine_map_r {A B : Type} (g : B -> B) (a : list A) (b : list B) :
  combine a (map g b) = map (fun '(x, y) => (x, g y)) (combine a b).
Proof.
  revert b; induction a as [| x a IH]; intros [| y b]; simpl;
    try reflexivity.
  rewrite IH. reflexivity.
Qed.

Lemma combine_map_l {A B : Type} (g : A -> A) (a : list A) (b : list B) :
  combine (map g a) b = map (fun '(x, y) => (g x, y)) (combine a b).
Proof.
  revert b; induction a as [| x a IH]; intros [| y b]; simpl;
    try reflexivity.
  rewrite IH. reflexivity.
Qed.

Lemma broadcast2_map_r {A B C : Type} (f : A -> B -> result C) (g : B -> B)
    (h : C -> C) (a : list A) (b : list B) :
  (forall x y, f x (g y) = (z <- f x y ;; ret (h z))) ->
  broadcast2 f a (map g b) = (zs <- broadcast2 f a b ;; ret (map h zs)).
Proof.
  intros H. unfold broadcast2. rewrite length_map.
  destruct (length a =? length b)%nat.
  - rewrite combine_map_r, mapM_map.
    apply mapM_post. intros [x y]. apply H.
  - destruct a as [| x [| x' a]].
    + destruct b as [| y [| y' b]]; reflexivity.
    + rewrite mapM_map. apply mapM_post. intros y. apply H.
    + destruct b as [| y [| y' b]]; try reflexivity.
      cbn [map]. apply (mapM_post (fun x0 => f x0 y)). intros x0. apply H.
Qed.

Lemma broadcast2_map_l {A B C : Type} (f : A -> B -> result C) (g : A -> A)
    (h : C -> C) (a : list A) (b : list B) :
  (forall x y, f (g x) y = (z <- f x y ;; ret (h z))) ->
  broadcast2 f (map g a) b = (zs <- broadcast2 f a b ;; ret (map h zs)).
Proof.
  intros H. unfold broadcast2. rewrite length_map.
  destruct (length a =? length b)%nat.
  - rewrite combine_map_l, mapM_map.
    apply mapM_post. intros [x y]. apply H.
  - destruct a as [| x [| x' a]].
    + destruct b as [| y [| y' b]]; try reflexivity.
    + cbn [map]. apply (mapM_post (fun y => f x y)). intros y. apply H.
    + destruct b as [| y [| y' b]]; try reflexivity.
      rewrite mapM_map. apply (mapM_post (fun x0 => f x0 y)).
      intros x0. apply H.
Qed.

Lemma phase_args_opp (p : BoltzTraP1Parameters) (k : vec3) :
  phase_args p (map3 Ropp k) = map (map Ropp) (phase_args p k).
Proof.
  unfold phase_args. rewrite map_map. apply map_ext. intros row.
  rewrite map_map. apply map_ext. intros v.
  destruct v as [[a b] c], k as [[k1 k2] k3]. simpl. ring.
Qed.

Lemma cos_args_opp (arg : list (list R)) :
  map (map cos) (map (map Ropp) arg) = map (map cos) arg.
Proof.
  rewrite map_map. apply map_ext. intros row. rewrite map_map.
  apply map_ext. intros x. apply cos_neg.
Qed.

Lemma sin_args_opp (arg : list (list R)) :
  map (map sin) (map (map Ropp) arg) = map (map Ropp) (map (map sin) arg).
Proof.
  rewrite !map_map. apply map_ext. intros row. rewrite !map_map.
  apply map_ext. intros x. apply sin_neg.
Qed.

Lemma sum3_opp (l : list vec3) :
  sum3 (map (map3 Ropp) l) = map3 Ropp (sum3 l).
Proof.
  induction l as [| v l IH]; simpl.
  - unfold zero3. simpl. rewrite Ropp_0. reflexivity.
  - rewrite IH. destruct v as [[a b] c], (sum3 l) as [[x y] z].
    simpl. apply f_equal2; [apply f_equal2 |]; ring.
Qed.

(** The gradients of the plane waves change sign with the phases. *)
Lemma dspwre_of_opp (p : BoltzTraP1Parameters) (arg : list (list R)) :
  dspwre_of p (map (map Ropp) arg)
  = (d <- dspwre_of p arg ;; ret (map (map3 Ropp) d)).
Proof.
  unfold dspwre_of. rewrite sin_args_opp.
  rewrite (broadcast2_map_r _ (map Ropp) (map (map3 Ropp))).
  - destruct (broadcast2 _ (star_vector_products p) (map (map sin) arg))
      as [err | prod]; [reflexivity |].
    cbn [bind ret].
    replace (map sum3 (map (map (map3 Ropp)) prod))
      with (map (map3 Ropp) (map sum3 prod)).
    + apply broadcast2_map_l. intros v nst. cbn [bind ret]. f_equal.
      destruct v as [[a b] c]. simpl.
      apply f_equal2; [apply f_equal2 |]; unfold Rdiv; ring.
    + rewrite !map_map. apply map_ext. intros row. symmetry.
      apply sum3_opp.
  - intros vs ss. apply broadcast2_map_r. intros v s. cbn [bind ret].
    f_equal. destruct v as [[a b] c]. simpl.
    apply f_equal2; [apply f_equal2 |]; ring.
Qed.

Lemma dotR_opp (a c : list R) : dotR (map Ropp a) c = - dotR a c.
Proof.
  unfold dotR. revert c; induction a as [| x a IH]; intros [| y c]; simpl;
    try (rewrite Ropp_0; reflexivity).
  rewrite IH. ring.
Qed.

Lemma dotT3_opp (d : list vec3) (c : list R) :
  dotT3 (map (map3 Ropp) d) c = map3 Ropp (dotT3 d c).
Proof.
  unfold dotT3. simpl. rewrite !map_map.
  rewrite <- !dotR_opp. rewrite !map_map.
  apply f_equal2; [apply f_equal2 |]; f_equal; apply map_ext;
    intros [[x y] z]; reflexivity.
Qed.

(** The velocity is an absolute value: it does not see the sign of the
    gradient. *)
Lemma velocity_of_opp (matrix : mat3) (d : vec3) :
  velocity_of consts matrix (map3 Ropp d) = velocity_of consts matrix d.
Proof.
  unfold velocity_of.
  destruct (map33 (fun x => x / norm33 matrix) matrix) as [[m0 m1] m2].
  destruct m0 as [[a0 a1] a2], m1 as [[b0 b1] b2], m2 as [[c0 c1] c2],
    d as [[x y] z].
  simpl.
  apply f_equal2; [apply f_equal2 |];
    (match goal with
     | |- Rabs ?u * _ * _ * _ / _ = Rabs ?w * _ * _ * _ / _ =>
         replace u with (- w) by ring; rewrite Rabs_Ropp; reflexivity
     end).
Qed.

Lemma velocity_entry_opp (d : list vec3) (matrix : mat3) (c : coeff_block) :
  velocity_entry consts (map (map3 Ropp) d) matrix c
  = velocity_entry consts d matrix c.
Proof.
  unfold velocity_entry. destruct c as [row | rows]; rewrite length_map.
  - rewrite dotT3_opp, velocity_of_opp. reflexivity.
  - assert (E : map (fun c => velocity_of consts matrix
                                (dotT3 (map (map3 Ropp) d) c)) (columns rows)
                = map (fun c => velocity_of consts matrix (dotT3 d c))
                    (columns rows)).
    { apply map_ext. intros c. rewrite dotT3_opp. apply velocity_of_opp. }
    rewrite E. reflexivity.
Qed.

(** X14: the evaluator is even in the k-point: at [-k] it returns the
    energy, the velocity and the effective mass it returns at [k], and
    raises what it raises at [k]. *)
Theorem evaluation_is_even (_parameters : registry) (c : coeff_block)
    (parameters_id : Z) (matrix : mat3) (k : vec3) (rv rm : bool) :
  _get_energy_wrapper consts _parameters c parameters_id matrix
    (map3 Ropp k) rv rm
  = _get_energy_wrapper consts _parameters c parameters_id matrix k rv rm.
Proof.
  unfold _get_energy_wrapper.
  destruct (registry_get _parameters parameters_id) as [err | p];
    [reflexivity |].
  cbn [bind]. rewrite phase_args_opp.
  assert (Hsp : spwre_of p (map (map Ropp) (phase_args p k))
                = spwre_of p (phase_args p k)).
  { unfold spwre_of. cbv zeta. rewrite cos_args_opp. reflexivity. }
  assert (Hdd : ddspwre_of p (map (map Ropp) (phase_args p k))
                = ddspwre_of p (phase_args p k)).
  { unfold ddspwre_of. cbv zeta. rewrite cos_args_opp. reflexivity. }
  rewrite Hsp, Hdd, dspwre_of_opp.
  destruct (spwre_of p (phase_args p k)) as [err | sp]; [reflexivity |].
  cbn [bind].
  destruct (energy_dot sp c) as [err | en]; [reflexivity |].
  cbn [bind].
  destruct rv; [| reflexivity].
  destruct (dspwre_of p (phase_args p k)) as [err | d]; [reflexivity |].
  cbn [bind ret]. rewrite velocity_entry_opp. reflexivity.
Qed.


(** ** The zone centre *)

Lemma Rsum_cos_zero (row : list vec3) :
  Rsum (map cos (map (fun v => 2 * PI * dot3 v (0, 0, 0)) row))
  = INR (length row).
Proof.
  induction row as [| v row IH]; [reflexivity |].
  change (Rsum (map cos (map (fun v => 2 * PI * dot3 v (0, 0, 0)) (v :: row))))
    with (cos (2 * PI * dot3 v (0, 0, 0))
          + Rsum (map cos (map (fun v => 2 * PI * dot3 v (0, 0, 0)) row))).
  simpl length. rewrite IH, S_INR.
  replace (2 * PI * dot3 v (0, 0, 0)) with 0
    by (destruct v as [[a b] c]; simpl; ring).
  rewrite cos_0. ring.
Qed.

Lemma spwre_values_at_zone_centre (S : Z) (sv : list (list vec3)) :
  forall ns : list Z,
    (0 <= S)%Z ->
    length sv = length ns ->
    Forall (fun row => length row = Z.to_nat S) sv ->
    Forall (fun nst => nst <> 0%Z) ns ->
    map (fun '(x, nst) => x / IZR nst)
      (combine
         (map (fun '(s, d) => s - d)
            (combine
               (map Rsum
                  (map (map cos)
                     (map (map (fun v => 2 * PI * dot3 v (0, 0, 0))) sv)))
               (map (fun nst => IZR (S - nst)) ns)))
         ns)
    = map (fun _ => 1) ns.
Proof.
  induction sv as [| row sv IH]; intros [| nst ns] HS Hlen Hrows Hnst;
    try discriminate; [reflexivity |].
  inversion Hrows as [| ? ? Hrow Hrows']; subst.
  inversion Hnst as [| ? ? Hn Hnst']; subst.
  cbn [map combine]. f_equal.
  - rewrite Rsum_cos_zero, Hrow, INR_IZR_INZ, Z2Nat.id by exact HS.
    rewrite minus_IZR. field. apply not_0_IZR. exact Hn.
  - apply IH; [exact HS | simpl in Hlen; lia | exact Hrows' | exact Hnst'].
Qed.

(** At the zone centre every symmetrized plane wave is 1. *)
Lemma spwre_at_zone_centre (p : BoltzTraP1Parameters) :
  (0 <= num_symmetries p)%Z ->
  length (star_vectors p) = length (num_star_vectors p) ->
  Forall (fun row => length row = Z.to_nat (num_symmetries p))
    (star_vectors p) ->
  Forall (fun nst => nst <> 0%Z) (num_star_vectors p) ->
  spwre_of p (phase_args p (0, 0, 0))
  = inr (map (fun _ => 1) (num_star_vectors p)).
Proof.
  intros HS Hlen Hrows Hnst. unfold spwre_of, phase_args. cbv zeta.
  rewrite (broadcast2_same_length _ (fun s d => s - d))
    by (rewrite ?length_map; try reflexivity; exact Hlen).
  cbn [bind].
  rewrite (broadcast2_same_length _ (fun x nst => x / IZR nst)).
  - f_equal. apply spwre_values_at_zone_centre; assumption.
  - rewrite !length_map, length_combine, !length_map, <- Hlen.
    apply Nat.min_id.
  - reflexivity.
Qed.

Lemma dotR_ones (ns : list Z) (c : list R) :
  length ns = length c -> dotR (map (fun _ => 1) ns) c = Rsum c.
Proof.
  unfold dotR. revert c; induction ns as [| n ns IH]; intros [| y c] H;
    try discriminate; [reflexivity |].
  simpl. rewrite (IH c) by (simpl in H; lia). ring.
Qed.

Lemma dotR_zeros (a c : list R) : Forall (eq 0) a -> dotR a c = 0.
Proof.
  unfold dotR. intros H. revert c.
  induction H as [| x a <- _ IH]; intros [| y c]; simpl; try reflexivity.
  rewrite IH. ring.
Qed.

(** A list of gradients that is its own negation is made of zeros. *)
Lemma self_opposite_zero (d : list vec3) :
  d = map (map3 Ropp) d -> Forall (eq zero3) d.
Proof.
  induction d as [| v d IH]; intros H; constructor.
  - injection H as Hv _. destruct v as [[a b] c]. simpl in Hv.
    injection Hv as Ha Hb Hc. unfold zero3.
    apply f_equal2; [apply f_equal2 |]; lra.
  - apply IH. injection H as _ H. exact H.
Qed.

Lemma dspwre_at_zone_centre (p : BoltzTraP1Parameters) (d : list vec3) :
  dspwre_of p (phase_args p (0, 0, 0)) = inr d -> Forall (eq zero3) d.
Proof.
  intros H. apply self_opposite_zero.
  assert (E : phase_args p (0, 0, 0)
              = map (map Ropp) (phase_args p (0, 0, 0))).
  { rewrite <- phase_args_opp. simpl. rewrite Ropp_0. reflexivity. }
  pose proof H as H'. rewrite E, dspwre_of_opp, H in H'.
  cbn [bind ret] in H'. injection H' as H'. symmetry. exact H'.
Qed.

Lemma dotT3_zeros (d : list vec3) (c : list R) :
  Forall (eq zero3) d -> dotT3 d c = zero3.
Proof.
  intros H. unfold dotT3, zero3.
  apply f_equal2; [apply f_equal2 |]; apply dotR_zeros;
    rewrite Forall_map; eapply Forall_impl; try exact H;
    intros v <-; reflexivity.
Qed.

Lemma velocity_of_zero (matrix : mat3) :
  velocity_of consts matrix zero3 = zero3.
Proof.
  unfold velocity_of, zero3.
  destruct (map33 (fun x => x / norm33 matrix) matrix) as [[m0 m1] m2].
  destruct m0 as [[a0 a1] a2], m1 as [[b0 b1] b2], m2 as [[c0 c1] c2].
  simpl.
  apply f_equal2; [apply f_equal2 |];
    (match goal with
     | |- Rabs ?u * _ * _ * _ / _ = 0 =>
         replace u with 0 by ring; rewrite Rabs_R0; unfold Rdiv; ring
     end).
Qed.

(** X15: at the zone centre, [k = (0, 0, 0)], every symmetrized plane
    wave is 1 and every gradient is 0.  For parameters with the parser's
    shapes and no empty star, [get_energy] returns for a band the sum of
    its coefficients times [Ry_to_eV], and the zero velocity. *)
Theorem zone_centre_energy_and_velocity (self : BoltzTraP1Interpolater)
    (_parameters : registry) (p : BoltzTraP1Parameters) (b : Z) :
  parameters self _parameters = inr p ->
  bands_well_formed p ->
  evaluator_well_formed p ->
  (0 <= num_symmetries p)%Z ->
  Forall (fun row => length row = Z.to_nat (num_symmetries p))
    (star_vectors p) ->
  Forall (fun nst => nst <> 0%Z) (num_star_vectors p) ->
  (min_band p <= b <= max_band p)%Z ->
  exists row,
    nth_error (coefficients p) (Z.to_nat (b - min_band p)) = Some row /\
    get_energy consts self _parameters (0, 0, 0) (IbandInt b) true false
    = inr (Tuple [Arr0 (Rsum row * Ry_to_eV consts); Arr1 [0; 0; 0]]).
Proof.
  intros Hp Hbands Hwf HS Hrows Hnst Hb.
  destruct (coefficients_in_range self _parameters p (IbandInt b) Hp Hbands)
    as [rows [Hsel Hc]]; [constructor; [exact Hb | constructor] |].
  simpl in Hsel. inversion Hsel as [| ? row ? rows' [_ Hrow] Hnil]; subst.
  inversion Hnil; subst.
  exists row. split; [exact Hrow |].
  pose proof Hwf as [Hlen [Hprod Hcoef]].
  assert (Hrowlen : length row = length (star_vectors p)).
  { rewrite Forall_forall in Hcoef. apply Hcoef.
    apply nth_error_In with (n := Z.to_nat (b - min_band p)). exact Hrow. }
  destruct (dspwre_of_returns p (0, 0, 0) Hwf) as [d [Hd Hdl]].
  pose proof (dspwre_at_zone_centre p d Hd) as Hzero.
  unfold get_energy. rewrite Hc. cbn [bind].
  unfold _get_energy_wrapper. unfold parameters in Hp. rewrite Hp.
  cbn [bind].
  rewrite (spwre_at_zone_centre p HS Hlen Hrows Hnst). cbn [bind].
  unfold energy_dot. rewrite length_map, <- Hlen, <- Hrowlen, Nat.eqb_refl.
  cbn [bind ret]. rewrite Hd. cbn [bind].
  unfold velocity_entry. rewrite Hdl, <- Hrowlen, Nat.eqb_refl.
  cbn [bind ret app].
  rewrite dotR_ones by (rewrite <- Hlen; symmetry; exact Hrowlen).
  rewrite (dotT3_zeros d row Hzero), velocity_of_zero.
  reflexivity.
Qed.

End EvenEvaluation.

Lemma zone_centre_energy_and_velocity_witness :
  exists row,
    nth_error (coefficients small_parameters)
      (Z.to_nat (4 - min_band small_parameters)) = Some row /\
    get_energy unit_constants small_interpolater small_registry (0, 0, 0)%R
      (IbandInt 4) true false
    = inr (Tuple [Arr0 (Rsum row * Ry_to_eV unit_constants)%R;
                  Arr1 [0; 0; 0]%R]).
Proof.
  apply (zone_centre_energy_and_velocity unit_constants small_interpolater
           small_registry small_parameters 4).
  - reflexivity.
  - exact small_parameters_bands.
  - exact small_parameters_shapes.
  - simpl; lia.
  - repeat constructor.
  - repeat constructor. discriminate.
  - simpl; lia.
Defined.

Section LatticeScale.
Local Open Scope R_scope.

Variable consts : Constants.






End LatticeScale.


(** * Further properties of band lookup *)







Lemma getitem_out_of_range {A : Type} (l : list A) (i : Z) :
  (Z.of_nat (length l) <= i)%Z ->
  getitem l i = inl (IndexError "index out of bounds").
Proof.
  intros H. unfold getitem. cbv zeta.
  destruct (i <? 0)%Z eqn:E; [apply Z.ltb_lt in E; lia |].
  destruct ((0 <=? i) && (i <? Z.of_nat (length l)))%Z%bool eqn:E2;
    [| reflexivity].
  apply andb_true_iff in E2. destruct E2 as [_ E2].
  apply Z.ltb_lt in E2. lia.
Qed.

Section MissingRow.

Variable consts : Constants.

(** X18: a band of [min_band .. max_band] that has no coefficient row
    (the file was short of coefficient lines) makes band lookup raise
    [IndexError]; [get_energy] raises it too, and so does [get_energies],
    before any k-point is evaluated. *)
Theorem missing_row_raises_index_error (self : BoltzTraP1Interpolater)
    (_parameters : registry) (p : BoltzTraP1Parameters) (b : Z) :
  parameters self _parameters = inr p ->
  allowed_ibands p = range (min_band p) (max_band p + 1) ->
  (min_band p <= b <= max_band p)%Z ->
  (Z.of_nat (length (coefficients p)) <= b - min_band p)%Z ->
  exists msg,
    _get_interpolation_coefficients self _parameters (IbandInt b)
    = inl (IndexError msg) /\
    (forall kpoint rv rm,
       get_energy consts self _parameters kpoint (IbandInt b) rv rm
       = inl (IndexError msg)) /\
    (forall completion kpoints scissor is_cb rv rm,
       scissor_guard_passes scissor is_cb ->
       get_energies consts self _parameters completion kpoints (IbandInt b)
         scissor is_cb rv rm
       = (debug_log (IbandInt b), inl (IndexError msg))).
Proof.
  intros Hp Hall Hb Hmissing.
  exists "index out of bounds"%string.
  assert (Hc : _get_interpolation_coefficients self _parameters (IbandInt b)
               = inl (IndexError "index out of bounds")).
  { unfold _get_interpolation_coefficients. rewrite Hp. cbn [bind].
    cbn [requested_bands].
    assert (Hsub : issubset [b] (allowed_ibands p) = true).
    { rewrite Hall. apply issubset_range. constructor; [exact Hb | constructor]. }
    rewrite Hsub. cbn [negb map mapM].
    rewrite getitem_out_of_range by exact Hmissing. reflexivity. }
  split; [exact Hc |]. split.
  - intros kpoint rv rm. unfold get_energy. rewrite Hc. reflexivity.
  - intros completion kpoints scissor is_cb rv rm Hguard.
    rewrite guard_passed by exact Hguard. rewrite Hc. reflexivity.
Qed.

End MissingRow.

Lemma missing_row_raises_index_error_witness :
  exists msg,
    _get_interpolation_coefficients small_interpolater
      [(7%Z, truncated_parameters)] (IbandInt 2)
    = inl (IndexError msg) /\
    (forall kpoint rv rm,
       get_energy unit_constants small_interpolater
         [(7%Z, truncated_parameters)] kpoint (IbandInt 2) rv rm
       = inl (IndexError msg)) /\
    (forall completion kpoints scissor is_cb rv rm,
       scissor_guard_passes scissor is_cb ->
       get_energies unit_constants small_interpolater
         [(7%Z, truncated_parameters)] completion kpoints (IbandInt 2)
         scissor is_cb rv rm
       = (debug_log (IbandInt 2), inl (IndexError msg))).
Proof.
  apply (missing_row_raises_index_error unit_constants small_interpolater
           [(7%Z, truncated_parameters)] truncated_parameters 2).
  - reflexivity.
  - reflexivity.
  - simpl; lia.
  - simpl; lia.
Defined.

(** * Further properties of evaluation *)

Section ReturnedValues.
Local Open Scope R_scope.

Variable consts : Constants.

(** X19: the two flags alone shape what [get_energy] returns: the
    energy by itself when neither is set, otherwise a tuple that starts
    with the energy and goes on with the velocity and the effective
    mass, as asked for.  The energy is the one returned without
    flags. *)
Theorem get_energy_return_shape (self : BoltzTraP1Interpolater)
    (_parameters : registry) (kpoint : vec3) (iband : iband_arg)
    (rv rm : bool) (r : returned ndarray) :
  get_energy consts self _parameters kpoint iband rv rm = inr r ->
  exists en,
    get_energy consts self _parameters kpoint iband false false
    = inr (One en) /\
    match rv, rm with
    | false, false => r = One en
    | true, false => exists v, r = Tuple [en; v]
    | false, true => exists m, r = Tuple [en; m]
    | true, true => exists v m, r = Tuple [en; v; m]
    end.
Proof.
  unfold get_energy. intros H.
  apply bind_inr in H. destruct H as [c [Hc H]]. rewrite Hc. cbn [bind].
  apply bind_inr in H. destruct H as [to_return [Hw H]].
  unfold _get_energy_wrapper in *.
  apply bind_inr in Hw. destruct Hw as [p [Hp Hw]]. rewrite Hp. cbn [bind].
  apply bind_inr in Hw. destruct Hw as [sp [Hsp Hw]]. rewrite Hsp. cbn [bind].
  apply bind_inr in Hw. destruct Hw as [en [Hen Hw]]. rewrite Hen.
  cbn [bind ret].
  exists (nd_scale en (Ry_to_eV consts)). split; [reflexivity |].
  apply bind_inr in Hw. destruct Hw as [tr [Htr Hw]].
  destruct rv.
  - apply bind_inr in Htr. destruct Htr as [d [_ Htr]].
    apply bind_inr in Htr. destruct Htr as [v [_ Htr]].
    injection Htr as <-.
    destruct rm.
    + apply bind_inr in Hw. destruct Hw as [dd [_ Hw]].
      apply bind_inr in Hw. destruct Hw as [m [_ Hw]].
      injection Hw as <-. injection H as <-. exists v, m. reflexivity.
    + injection Hw as <-. injection H as <-. exists v. reflexivity.
  - injection Htr as <-.
    destruct rm.
    + apply bind_inr in Hw. destruct Hw as [dd [_ Hw]].
      apply bind_inr in Hw. destruct Hw as [m [_ Hw]].
      injection Hw as <-. injection H as <-. exists m. reflexivity.
    + injection Hw as <-. injection H as <-. reflexivity.
Qed.

(** What [collect_results] makes of results that all hold an energy
    and a velocity, with and without the velocities asked for. *)
Lemma collect_results_velocity_flag (shift : R) (rm : bool)
    (results : list (list ndarray)) :
  Forall (fun r => exists en v rest, r = en :: v :: rest) results ->
  exists es vs,
    collect_results shift true rm results
    = (if rm then
         ms <- mapM (fun r => getitem r 2) results ;; ret (Tuple [es; vs; ms])
       else ret (Tuple [es; vs])) /\
    collect_results shift false rm results
    = (if rm then
         ms <- mapM (fun r => getitem r 2) results ;; ret (Tuple [es; ms])
       else ret (One es)).
Proof.
  intros Hshape.
  exists (map (fun r => nd_sub (hd (Arr0 0) r) shift) results),
         (map (fun r => nth 1 r (Arr0 0)) results).
  unfold collect_results.
  rewrite (mapM_total _ (fun r => nd_sub (hd (Arr0 0) r) shift)).
  2: { intros r Hr. rewrite Forall_forall in Hshape.
       destruct (Hshape r Hr) as [en [v [rest ->]]]. reflexivity. }
  cbn [bind].
  rewrite (mapM_total _ (fun r => nth 1 r (Arr0 0))).
  2: { intros r Hr. rewrite Forall_forall in Hshape.
       destruct (Hshape r Hr) as [en [v [rest ->]]]. apply getitem_1. }
  cbn [bind ret app].
  destruct rm.
  - destruct (mapM (fun r => getitem r 2) results) as [err | ms];
      split; reflexivity.
  - split; reflexivity.
Qed.

Lemma evaluated_with_velocity (_parameters : registry) (c : coeff_block)
    (parameters_id : Z) (matrix : mat3) (rm : bool) (kpoints : list vec3)
    (results : list (list ndarray)) :
  mapM (fun kpoint =>
          _get_energy_wrapper consts _parameters c parameters_id matrix
            kpoint true rm) kpoints = inr results ->
  Forall (fun r => exists en v rest, r = en :: v :: rest) results.
Proof.
  intros H. apply mapM_Forall2 in H.
  induction H as [| k r ks rs Hk _ IH]; constructor; [| exact IH].
  destruct (wrapper_velocity consts _ _ _ _ _ _ _ Hk) as [en [v [rest [-> _]]]].
  exists en, v, rest. reflexivity.
Qed.

Lemma guard_decided (scissor : option R) (is_cb : option bool) :
  scissor_guard_passes scissor is_cb
  \/ (scissor_value scissor <> 0 /\ is_cb = None).
Proof.
  destruct (Req_dec_T (scissor_value scissor) 0) as [Hz | Hnz];
    [left; left; exact Hz |].
  destruct is_cb as [b |]; [left; right; discriminate |].
  right. split; [exact Hnz | reflexivity].
Qed.

(** X20: [get_energies] has the evaluator compute the velocity
    whether or not [return_velocity] is set.  With and without the flag
    the call evaluates the same k-points and fails with the same
    exception, and it returns the same energies and effective masses;
    the flag only decides whether the velocities are part of the
    result. *)
Theorem bulk_velocity_always_evaluated (self : BoltzTraP1Interpolater)
    (_parameters : registry) (completion : list nat) (kpoints : list vec3)
    (iband : iband_arg) (scissor : option R) (is_cb : option bool)
    (rm : bool) :
  (1 <= _n_jobs self)%Z ->
  valid_completion self kpoints completion ->
  let with_v := get_energies consts self _parameters completion kpoints
                  iband scissor is_cb true rm in
  let without_v := get_energies consts self _parameters completion kpoints
                     iband scissor is_cb false rm in
  fst without_v = fst with_v /\
  (forall err, snd with_v = inl err <-> snd without_v = inl err) /\
  (forall ret,
     snd with_v = inr ret ->
     exists es vs rest,
       ret = Tuple (es :: vs :: rest) /\
       snd without_v = inr (match rest with
                            | [] => One es
                            | _ => Tuple (es :: rest)
                            end)).
Proof.
  intros Hjobs Hvalid with_v without_v.
  split.
  { unfold with_v, without_v, get_energies. cbv zeta.
    destruct (negb (Reqb (scissor_value scissor) 0)
              && match is_cb with None => true | _ => false end);
      [reflexivity |].
    destruct (_get_interpolation_coefficients self _parameters iband)
      as [err | c]; [reflexivity |].
    destruct (if (_n_jobs self =? 1)%Z then _ else _) as [calls results].
    reflexivity. }
  destruct (guard_decided scissor is_cb) as [Hguard | [Hnz ->]].
  2: { unfold with_v, without_v. rewrite !guard_raises by exact Hnz.
       split; [intros err; split; intros H; exact H |].
       intros ret H. discriminate. }
  unfold with_v, without_v.
  rewrite !get_energies_result by assumption.
  destruct (_get_interpolation_coefficients self _parameters iband)
    as [err | c];
    [split; [intros e0; split; intros H; exact H
            | intros ret H; discriminate] |].
  cbn [bind].
  destruct (mapM _ kpoints) as [err | results] eqn:Hres;
    [split; [intros e0; split; intros H; exact H
            | intros ret H; discriminate] |].
  cbn [bind].
  destruct (collect_results_velocity_flag
              (scissor_shift (scissor_value scissor) is_cb) rm results
              (evaluated_with_velocity _ _ _ _ _ _ _ Hres))
    as [es [vs [-> ->]]].
  destruct rm.
  - destruct (mapM (fun r => getitem r 2) results) as [err | ms];
      cbn [bind ret].
    + split; [intros e0; split; intros H; exact H
             | intros ret H; discriminate].
    + split; [intros e0; split; intros H; discriminate |].
      intros ret H. injection H as <-.
      exists es, vs, [ms]. split; reflexivity.
  - split; [intros e0; split; intros H; discriminate |].
    intros ret H. injection H as <-.
    exists es, vs, []. split; reflexivity.
Qed.

(** X21: on an empty list of k-points [get_energies] evaluates
    nothing and returns empty lists: one for the energies and one for
    each quantity asked for. *)
Theorem no_kpoints_no_evaluation (self : BoltzTraP1Interpolater)
    (_parameters : registry) (completion : list nat) (iband : iband_arg)
    (scissor : option R) (is_cb : option bool) (rv rm : bool)
    (c : coeff_block) :
  scissor_guard_passes scissor is_cb ->
  (1 <= _n_jobs self)%Z ->
  valid_completion self [] completion ->
  _get_interpolation_coefficients self _parameters iband = inr c ->
  get_energies consts self _parameters completion [] iband scissor is_cb
    rv rm
  = (debug_log iband,
     inr (match rv, rm with
          | false, false => One []
          | true, true => Tuple [[]; []; []]
          | _, _ => Tuple [[]; []]
          end)).
Proof.
  intros Hguard Hjobs Hvalid Hc.
  rewrite guard_passed by exact Hguard. rewrite Hc. cbv zeta.
  destruct (_n_jobs self =? 1)%Z eqn:E.
  - cbn [run_map]. rewrite app_nil_r.
    destruct rv, rm; reflexivity.
  - destruct Hvalid as [H | H]; [apply Z.eqb_neq in E; contradiction |].
    unfold task_count in H. cbn [length] in H.
    unfold pool_chunksize in H. cbn [Nat.eqb chunks chunks_fuel length seq] in H.
    apply Permutation_sym, Permutation_nil in H. subst completion.
    unfold pool_map.
    destruct (_n_jobs self <? 1)%Z eqn:E1; [apply Z.ltb_lt in E1; lia |].
    cbn [length]. unfold pool_chunksize. cbn [Nat.eqb].
    cbn [chunks chunks_fuel length map concat first_failure seq].
    rewrite app_nil_r. destruct rv, rm; reflexivity.
Qed.

(** X22: without scissor ([scissor] left out, or 0) the band type is
    ignored: [get_energies] does and returns the same whatever [is_cb]
    is. *)
Theorem band_type_ignored_without_scissor (self : BoltzTraP1Interpolater)
    (_parameters : registry) (completion : list nat) (kpoints : list vec3)
    (iband : iband_arg) (scissor : option R) (is_cb is_cb' : option bool)
    (rv rm : bool) :
  scissor_value scissor = 0 ->
  get_energies consts self _parameters completion kpoints iband scissor
    is_cb rv rm
  = get_energies consts self _parameters completion kpoints iband scissor
      is_cb' rv rm.
Proof.
  intros Hz.
  rewrite !guard_passed by (left; exact Hz).
  assert (E : forall b, scissor_shift (scissor_value scissor) b = 0).
  { intros b. unfold scissor_shift. rewrite Hz.
    destruct b as [[|] |]; lra. }
  rewrite (E is_cb), (E is_cb'). reflexivity.
Qed.

End ReturnedValues.

Lemma get_energy_return_shape_witness :
  exists r en,
    get_energy unit_constants small_interpolater small_registry (0, 0, 0)%R
      (IbandInt 3) true false = inr r /\
    get_energy unit_constants small_interpolater small_registry (0, 0, 0)%R
      (IbandInt 3) false false = inr (One en) /\
    exists v, r = Tuple [en; v].
Proof.
  destruct (single_band_velocity_returns unit_constants small_interpolater
              small_registry small_parameters 3 (0, 0, 0)%R eq_refl
              small_parameters_bands small_parameters_shapes
              ltac:(simpl; lia))
    as [row [en [v [_ [_ Hget]]]]].
  destruct (get_energy_return_shape unit_constants small_interpolater
              small_registry (0, 0, 0)%R (IbandInt 3) true false
              (Tuple [en; v]) Hget)
    as [en' [H0 H1]].
  exists (Tuple [en; v]), en'.
  split; [exact Hget |]. split; [exact H0 | exact H1].
Defined.

Lemma bulk_velocity_always_evaluated_witness :
  fst (get_energies unit_constants small_interpolater small_registry []
         [(0, 0, 0)%R] (IbandInt 3) None None false false)
  = fst (get_energies unit_constants small_interpolater small_registry []
           [(0, 0, 0)%R] (IbandInt 3) None None true false) /\
  (forall err,
     snd (get_energies unit_constants small_interpolater small_registry []
            [(0, 0, 0)%R] (IbandInt 3) None None true false) = inl err
     <-> snd (get_energies unit_constants small_interpolater small_registry []
                [(0, 0, 0)%R] (IbandInt 3) None None false false) = inl err) /\
  (forall ret,
     snd (get_energies unit_constants small_interpolater small_registry []
            [(0, 0, 0)%R] (IbandInt 3) None None true false) = inr ret ->
     exists es vs rest,
       ret = Tuple (es :: vs :: rest) /\
       snd (get_energies unit_constants small_interpolater small_registry []
              [(0, 0, 0)%R] (IbandInt 3) None None false false)
       = inr (match rest with
              | [] => One es
              | _ => Tuple (es :: rest)
              end)).
Proof.
  apply (bulk_velocity_always_evaluated unit_constants small_interpolater
           small_registry [] [(0, 0, 0)%R] (IbandInt 3) None None false).
  - simpl; lia.
  - left; reflexivity.
Defined.

Lemma no_kpoints_no_evaluation_witness :
  get_energies unit_constants small_interpolater small_registry [] []
    (IbandInt 3) None None true false
  = (debug_log (IbandInt 3), inr (Tuple [[]; []])).
Proof.
  apply (no_kpoints_no_evaluation unit_constants small_interpolater
           small_registry [] (IbandInt 3) None None true false
           (Band [0.5%R])).
  - left; reflexivity.
  - simpl; lia.
  - left; reflexivity.
  - reflexivity.
Defined.

Lemma band_type_ignored_without_scissor_witness :
  get_energies unit_constants small_interpolater small_registry []
    [(0, 0, 0)%R] (IbandInt 3) (Some 0%R) (Some true) true false
  = get_energies unit_constants small_interpolater small_registry []
      [(0, 0, 0)%R] (IbandInt 3) (Some 0%R) None true false.
Proof.
  apply band_type_ignored_without_scissor. reflexivity.
Defined.

Section KpointIndependence.
Local Open Scope R_scope.

Variable consts : Constants.

Lemma pack_return_returns {A : Type} (l : list A) :
  exists ret, pack_return l = inr ret.
Proof.
  unfold pack_return. destruct l as [| a [| b l]]; simpl;
    eexists; reflexivity.
Qed.

(** X23: whether [get_energy] raises, and what it raises, does not
    depend on the k-point: an exception raised at one k-point is raised
    at every other one, for the same band argument and flags. *)
Theorem failure_is_independent_of_kpoint (self : BoltzTraP1Interpolater)
    (_parameters : registry) (iband : iband_arg) (rv rm : bool)
    (kpoint kpoint' : vec3) (err : exn) :
  get_energy consts self _parameters kpoint iband rv rm = inl err ->
  get_energy consts self _parameters kpoint' iband rv rm = inl err.
Proof.
  unfold get_energy. intros H.
  destruct (_get_interpolation_coefficients self _parameters iband)
    as [e0 | c]; [exact H |].
  cbn [bind] in *.
  destruct (_get_energy_wrapper consts _parameters c (_parameters_id self)
              (_lattice_matrix self) kpoint rv rm) as [e0 | r] eqn:Hk.
  - cbn [bind] in H. injection H as ->.
    rewrite (wrapper_uniform_failure consts _parameters c
               (_parameters_id self) (_lattice_matrix self) rv rm
               kpoint kpoint' err Hk).
    reflexivity.
  - cbn [bind] in H. destruct (pack_return_returns r) as [ret Hret].
    rewrite Hret in H. discriminate.
Qed.

End KpointIndependence.

Lemma failure_is_independent_of_kpoint_witness :
  get_energy unit_constants small_interpolater small_registry
    (0.25, 0.5, 0)%R (IbandList [3; 4]%Z) true false
  = inl (ValueError "shapes not aligned").
Proof.
  apply (failure_is_independent_of_kpoint unit_constants small_interpolater
           small_registry (IbandList [3; 4]%Z) true false (0, 0, 0)%R).
  reflexivity.
Defined.

(** * The dictionary of parameters *)

Lemma registry_get_set_same (_parameters : registry) (key : Z)
    (value : BoltzTraP1Parameters) :
  registry_get (registry_set _parameters key value) key = inr value.
Proof.
  induction _parameters as [| [k p] rest IH]; simpl.
  - rewrite Z.eqb_refl. reflexivity.
  - destruct (k =? key)%Z eqn:E; simpl; rewrite E; [reflexivity | exact IH].
Qed.

Lemma registry_get_set_other (_parameters : registry) (key key' : Z)
    (value : BoltzTraP1Parameters) :
  key' <> key ->
  registry_get (registry_set _parameters key value) key'
  = registry_get _parameters key'.
Proof.
  intros Hne. induction _parameters as [| [k p] rest IH]; simpl.
  - destruct (key =? key')%Z eqn:E; [apply Z.eqb_eq in E; congruence |].
    reflexivity.
  - destruct (k =? key)%Z eqn:E; simpl.
    + apply Z.eqb_eq in E. subst k.
      destruct (key =? key')%Z eqn:E'; [apply Z.eqb_eq in E'; congruence |].
      reflexivity.
    + destruct (k =? key')%Z; [reflexivity | exact IH].
Qed.

(** X24: [initialize] stores what the parser returns under the key of
    the interpolater: afterwards [parameters] gives that object, and the
    parameters of every interpolater with another key are what they
    were. *)
Theorem initialize_registers_parameters (self : BoltzTraP1Interpolater)
    (coeff_file : file) (_parameters _parameters' : registry) :
  initialize self coeff_file _parameters = inr _parameters' ->
  parameters self _parameters' = _get_interpolation_parameters coeff_file /\
  forall other : BoltzTraP1Interpolater,
    _parameters_id other <> _parameters_id self ->
    parameters other _parameters' = parameters other _parameters.
Proof.
  unfold initialize, parameters. intros H.
  apply bind_inr in H. destruct H as [p [Hp H]]. injection H as <-.
  split.
  - rewrite Hp. apply registry_get_set_same.
  - intros other Hne. apply registry_get_set_other. exact Hne.
Qed.

Lemma registry_set_twice (_parameters : registry) (key : Z)
    (value : BoltzTraP1Parameters) :
  registry_set (registry_set _parameters key value) key value
  = registry_set _parameters key value.
Proof.
  induction _parameters as [| [k p] rest IH]; simpl.
  - rewrite Z.eqb_refl. reflexivity.
  - destruct (k =? key)%Z eqn:E; simpl; rewrite E; [reflexivity |].
    rewrite IH. reflexivity.
Qed.

(** X25: [initialize] is idempotent on the dictionary: initialising
    again from the same file contents leaves the dictionary as the first
    call left it. *)
Theorem initialize_is_idempotent (self : BoltzTraP1Interpolater)
    (coeff_file : file) (_parameters _parameters' : registry) :
  initialize self coeff_file _parameters = inr _parameters' ->
  initialize self coeff_file _parameters' = inr _parameters'.
Proof.
  unfold initialize. intros H.
  apply bind_inr in H. destruct H as [p [Hp H]]. injection H as <-.
  rewrite Hp. cbn [bind ret]. rewrite registry_set_twice. reflexivity.
Qed.


Lemma initialize_is_idempotent_witness :
  exists _parameters',
    initialize small_interpolater two_bands_file [] = inr _parameters' /\
    initialize small_interpolater two_bands_file _parameters'
    = inr _parameters'.
Proof.
  destruct two_bands_file_parsed as [p Hp].
  assert (H : initialize small_interpolater two_bands_file []
              = inr (registry_set [] 7 p))
    by (unfold initialize; rewrite Hp; reflexivity).
  exists (registry_set [] 7 p). split; [exact H |].
  exact (initialize_is_idempotent _ _ _ _ H).
Defined.

Lemma initialize_registers_parameters_witness :
  exists _parameters',
    initialize small_interpolater two_bands_file small_registry
    = inr _parameters' /\
    parameters small_interpolater _parameters'
    = _get_interpolation_parameters two_bands_file /\
    forall other : BoltzTraP1Interpolater,
      _parameters_id other <> _parameters_id small_interpolater ->
      parameters other _parameters' = parameters other small_registry.
Proof.
  destruct two_bands_file_parsed as [p Hp].
  assert (H : initialize small_interpolater two_bands_file small_registry
              = inr (registry_set small_registry 7 p))
    by (unfold initialize; rewrite Hp; reflexivity).
  exists (registry_set small_registry 7 p). split; [exact H |].
  exact (initialize_registers_parameters _ _ _ _ H).
Defined.

(** * From the file to the energies *)

Section FileToEnergies.
Local Open Scope R_scope.

Variable consts : Constants.


End FileToEnergies.


(** * The life cycle *)

Section LifecycleProperties.

Variable btr_run : Z -> filesystem -> raised + (string * filesystem).
Variable path_join : string -> string -> string.

Lemma registry_get_error (_parameters : registry) (key : Z) (err : exn) :
  registry_get _parameters key = inl err -> err = KeyError key.
Proof.
  induction _parameters as [| [k p] rest IH]; simpl.
  - intros H. injection H as <-. reflexivity.
  - destruct (k =? key)%Z; [discriminate | exact IH].
Qed.

Lemma truthy_str_path (path : string) :
  path <> EmptyString -> truthy_str (Some path) = true.
Proof. destruct path; [contradiction | reflexivity]. Qed.

Lemma truthy_int_id (key : Z) : key <> 0%Z -> truthy_int (Some key) = true.
Proof.
  intros H. simpl. destruct (key =? 0)%Z eqn:E; [| reflexivity].
  apply Z.eqb_eq in E. contradiction.
Qed.

(** X27: an interpolater built without a coefficient file and with
    the default [max_temperature=None] cannot initialise.  The access to
    [parameters] raises the [TypeError] of [max([None, 300])] before
    BoltzTraP is run, and leaves the object and the dictionary as they
    were. *)
Theorem default_max_temperature_cannot_generate (self : interpolater_state)
    (w : world) :
  truthy_str (attr_coeff_file self) = false ->
  attr_max_temperature self = None ->
  truthy_int (attr_parameters_id self) = false ->
  exists msg,
    parameters_property btr_run path_join self w
    = (log (LogInfo "No coefficient file specified, running BoltzTraP to generate it.")
         w,
       self, inl (TypeError msg)).
Proof.
  intros Hfile Htemp Hid. eexists.
  unfold parameters_property, initialize_object, _generate_coeff_file.
  rewrite Hid, Hfile, Htemp. reflexivity.
Qed.

(** X28: a failed parse is not retried.  [initialize] sets
    [_parameters_id] before it parses; when the parser raises, the first
    access to [parameters] raises the parser's exception, and every
    later access raises [KeyError] for the key of the object without
    opening the file again, whatever the file has become. *)
Theorem failed_parse_is_not_retried (self : interpolater_state) (w : world)
    (path : string) (contents : file) (err : exn) :
  attr_coeff_file self = Some path ->
  path <> EmptyString ->
  truthy_int (attr_parameters_id self) = false ->
  object_id self <> 0%Z ->
  files w path = Some contents ->
  _get_interpolation_parameters contents = inl err ->
  (forall p, registry_get (dictionary w) (object_id self) <> inr p) ->
  exists w1 self1,
    parameters_property btr_run path_join self w
    = (w1, self1, inl (Raised err)) /\
    attr_parameters_id self1 = Some (object_id self) /\
    dictionary w1 = dictionary w /\
    forall fs,
      parameters_property btr_run path_join self1 (set_files fs w1)
      = (set_files fs w1, self1, inl (Raised (KeyError (object_id self)))).
Proof.
  intros Hfile Hpath Hid Hobj Hopen Hparse Hfresh.
  exists (log (OpenFile path) w), (set_parameters_id self (object_id self)).
  split.
  { unfold parameters_property, initialize_object. rewrite Hid. cbn [negb].
    rewrite Hfile, (truthy_str_path path Hpath). cbn [negb].
    unfold open_and_parse. cbn [set_parameters_id attr_coeff_file].
    rewrite Hfile. cbn [log files]. rewrite Hopen, Hparse. reflexivity. }
  split; [reflexivity |]. split; [reflexivity |].
  intros fs. unfold parameters_property.
  cbn [set_parameters_id attr_parameters_id].
  rewrite (truthy_int_id _ Hobj). cbn [negb].
  unfold lookup_parameters, set_parameters_id, set_files, log.
  cbn [attr_parameters_id dictionary].
  destruct (registry_get (dictionary w) (object_id self)) as [e0 | p] eqn:E.
  - apply registry_get_error in E. subst e0. reflexivity.
  - exfalso. exact (Hfresh p eq_refl).
Qed.

(** X29: the parameters are parsed once.  The first access to
    [parameters] opens the coefficient file and returns what the parser
    returns; every later access returns the same object and opens
    nothing, whatever the file has become. *)
Theorem parameters_are_parsed_once (self : interpolater_state) (w : world)
    (path : string) (contents : file) (p : BoltzTraP1Parameters) :
  attr_coeff_file self = Some path ->
  path <> EmptyString ->
  truthy_int (attr_parameters_id self) = false ->
  object_id self <> 0%Z ->
  files w path = Some contents ->
  _get_interpolation_parameters contents = inr p ->
  exists w1 self1,
    parameters_property btr_run path_join self w = (w1, self1, inr p) /\
    effects w1 = effects w ++ [OpenFile path] /\
    forall fs,
      parameters_property btr_run path_join self1 (set_files fs w1)
      = (set_files fs w1, self1, inr p).
Proof.
  intros Hfile Hpath Hid Hobj Hopen Hparse.
  exists (Build_world (files w)
            (registry_set (dictionary w) (object_id self) p)
            (effects w ++ [OpenFile path])),
         (set_parameters_id self (object_id self)).
  split.
  { unfold parameters_property, initialize_object. rewrite Hid. cbn [negb].
    rewrite Hfile, (truthy_str_path path Hpath). cbn [negb].
    unfold open_and_parse. cbn [set_parameters_id attr_coeff_file].
    rewrite Hfile. cbn [log files]. rewrite Hopen, Hparse.
    unfold lookup_parameters, set_parameters_id, log.
    cbn [attr_parameters_id object_id dictionary files effects].
    rewrite registry_get_set_same. reflexivity. }
  split; [reflexivity |].
  intros fs. unfold parameters_property.
  cbn [set_parameters_id attr_parameters_id].
  rewrite (truthy_int_id _ Hobj). cbn [negb].
  unfold lookup_parameters, set_parameters_id, set_files.
  cbn [attr_parameters_id dictionary].
  rewrite registry_get_set_same. reflexivity.
Qed.

(** X30: when BoltzTraP has run and has left no [fort.123] in its
    directory, the access to [parameters] raises the [RuntimeError] of
    [_generate_coeff_file]; nothing is stored and the object is
    unchanged, so the next access runs BoltzTraP again. *)
Theorem failed_generation_is_retried (self : interpolater_state) (w : world)
    (t : Z) (dirpath : string) (fs : filesystem) :
  truthy_str (attr_coeff_file self) = false ->
  attr_max_temperature self = Some t ->
  truthy_int (attr_parameters_id self) = false ->
  btr_run (Z.max t 300) (files w) = inr (dirpath, fs) ->
  fs (path_join dirpath "fort.123") = None ->
  exists w1,
    parameters_property btr_run path_join self w
    = (w1, self, inl generation_failed) /\
    dictionary w1 = dictionary w /\
    effects w1
    = effects w
      ++ [LogInfo "No coefficient file specified, running BoltzTraP to generate it.";
          RunBoltzTraP (Z.max t 300)].
Proof.
  intros Hfile Htemp Hid Hrun Hmissing.
  eexists. split.
  { unfold parameters_property, initialize_object, _generate_coeff_file.
    rewrite Hid, Hfile, Htemp. cbn [negb max_with_300 log files].
    rewrite Hrun. cbn [set_files files]. rewrite Hmissing. reflexivity. }
  split; [reflexivity |].
  cbn [effects set_files log]. rewrite <- app_assoc. reflexivity.
Qed.

End LifecycleProperties.

Lemma default_max_temperature_cannot_generate_witness :
  exists msg,
    parameters_property run_without_output posix_join (init_state 7 None None)
      empty_world
    = (log (LogInfo "No coefficient file specified, running BoltzTraP to generate it.")
         empty_world,
       init_state 7 None None, inl (TypeError msg)).
Proof.
  apply (default_max_temperature_cannot_generate run_without_output
           posix_join (init_state 7 None None) empty_world);
    reflexivity.
Defined.

Lemma failed_parse_is_not_retried_witness :
  exists w1 self1,
    parameters_property run_without_output posix_join
      (init_state 7 (Some "fort.123"%string) None)
      (one_file_world "fort.123" [])
    = (w1, self1,
       inl (Raised (ValueError "wrong number of values to unpack"))) /\
    attr_parameters_id self1 = Some 7%Z /\
    dictionary w1 = [] /\
    forall fs,
      parameters_property run_without_output posix_join self1
        (set_files fs w1)
      = (set_files fs w1, self1, inl (Raised (KeyError 7))).
Proof.
  apply (failed_parse_is_not_retried run_without_output posix_join
           (init_state 7 (Some "fort.123"%string) None)
           (one_file_world "fort.123" []) "fort.123" []).
  - reflexivity.
  - discriminate.
  - reflexivity.
  - discriminate.
  - reflexivity.
  - reflexivity.
  - intros p. discriminate.
Defined.

Lemma parameters_are_parsed_once_witness :
  exists p w1 self1,
    parameters_property run_without_output posix_join
      (init_state 7 (Some "fort.123"%string) None)
      (one_file_world "fort.123" two_bands_file)
    = (w1, self1, inr p) /\
    effects w1 = [] ++ [OpenFile "fort.123"] /\
    forall fs,
      parameters_property run_without_output posix_join self1
        (set_files fs w1)
      = (set_files fs w1, self1, inr p).
Proof.
  destruct two_bands_file_parsed as [p Hp]. exists p.
  apply (parameters_are_parsed_once run_without_output posix_join
           (init_state 7 (Some "fort.123"%string) None)
           (one_file_world "fort.123" two_bands_file) "fort.123"
           two_bands_file p).
  - reflexivity.
  - discriminate.
  - reflexivity.
  - discriminate.
  - reflexivity.
  - exact Hp.
Defined.

Lemma failed_generation_is_retried_witness :
  exists w1,
    parameters_property run_without_output posix_join
      (init_state 7 None (Some 500%Z)) empty_world
    = (w1, init_state 7 None (Some 500%Z), inl generation_failed) /\
    dictionary w1 = [] /\
    effects w1
    = []
      ++ [LogInfo "No coefficient file specified, running BoltzTraP to generate it.";
          RunBoltzTraP (Z.max 500 300)].
Proof.
  apply (failed_generation_is_retried run_without_output posix_join
           (init_state 7 None (Some 500%Z)) empty_world 500 "run"
           (fun _ => None)).
  - reflexivity.
  - reflexivity.
  - reflexivity.
  - reflexivity.
  - reflexivity.
Defined.
